(** * convert-tables.py: the LaTeX table rewriter, embedded and verified

    The script drives pandoc and then rewrites the LaTeX it printed with
    [str.find], slices and regular expressions.  This file embeds the text
    level of the script and, around it, the conversion of one file:

    - [Py]: the Python values the script computes with (text, [str.find],
      slices, ints and binary64 floats, exceptions);
    - [Re]: a backtracking matcher for the fragment of [re] the script's
      patterns are written in, with [sub] and [finditer];
    - [Os]: [os.path] on a POSIX system, [os.environ], and what a
      conversion leaves behind (the files written, in order, and the
      exception that ended it);
    - [ConvertTables]: the functions of src/convert/scripts/convert-tables.py,
      under their own names;
    - [Spec]: the words the properties are stated in (table blocks, blank
      lines, declared columns), [Aux]: functions the proofs describe the
      matcher with, [Layout]: the table header pandoc prints,
      [Examples]: the inputs of the examples;
    - the properties of the rewriter and of the driver, proved over these
      definitions.

    Text is a list of 8-bit characters: the code points 0 to 255 of a Python
    [str].  What the script prints is left out.  Pandoc, [str.format], the
    expansion of a replacement template, the opening of a file and the
    writing to it are parameters of the functions that call them, and the
    properties hold for every behaviour of theirs. *)

From Stdlib Require Import Ascii String.
From Stdlib Require Import List ZArith Lia Bool Arith.
From Stdlib Require Import Floats.SpecFloat.
Import ListNotations.

(* ================================================================== *)
(** * Python values *)
(* ================================================================== *)

Module Py.

Definition text := list ascii.

(** A string literal of the script. *)
Definition T (s : string) : text := list_ascii_of_string s.

(** The newline character. *)
Definition nl : ascii := "010"%char.

(** Lines joined by newlines, the way the example tables are written. *)
Fixpoint unlines (ls : list string) : text :=
  match ls with
  | [] => []
  | [l] => T l
  | l :: rest => T l ++ nl :: unlines rest
  end.

(** ** Exceptions *)

Inductive exn : Type :=
| ValueError
| AssertionError
| ZeroDivisionError
| OverflowError
| TypeError
| ReError.

Inductive result (A : Type) : Type :=
| Ok (a : A)
| Raise (e : exn).

Arguments Ok {A} a.
Arguments Raise {A} e.

Definition bind {A B : Type} (r : result A) (f : A -> result B) : result B :=
  match r with
  | Ok a => f a
  | Raise e => Raise e
  end.

Definition is_ok {A : Type} (r : result A) : bool :=
  match r with Ok _ => true | Raise _ => false end.

(** A list comprehension whose body can raise: left to right, the first
    exception ends it. *)
Fixpoint mapM {A B : Type} (f : A -> result B) (l : list A) : result (list B) :=
  match l with
  | [] => Ok []
  | a :: l' =>
      bind (f a) (fun b => bind (mapM f l') (fun bs => Ok (b :: bs)))
  end.

(** ** [str.startswith], [str.find] and slices *)

Fixpoint starts_with (p s : text) : bool :=
  match p, s with
  | [], _ => true
  | _ :: _, [] => false
  | a :: p', b :: s' => Ascii.eqb a b && starts_with p' s'
  end.

Fixpoint find_from (p s : text) (i : Z) : Z :=
  if starts_with p s then i
  else match s with
       | [] => (-1)%Z
       | _ :: s' => find_from p s' (i + 1)%Z
       end.

(** [s.find(p)]: the lowest index where [p] occurs in [s], or -1. *)
Definition find (s p : text) : Z := find_from p s 0%Z.

(** [p in s]. *)
Definition occurs (p s : text) : bool := (0 <=? find s p)%Z.

Definition len (s : text) : Z := Z.of_nat (length s).

(** A slice bound brought into range: a negative one counts from the end,
    and the result is clamped to [0, len]. *)
Definition clamp_index (n i : Z) : Z :=
  let j := if (i <? 0)%Z then (i + n)%Z else i in
  Z.max 0 (Z.min n j).

(** [s[lo:hi]]. *)
Definition slice (s : text) (lo hi : Z) : text :=
  let a := clamp_index (len s) lo in
  let b := clamp_index (len s) hi in
  firstn (Z.to_nat (b - a)) (skipn (Z.to_nat a) s).

(** [s[lo:]]. *)
Definition slice_from (s : text) (lo : Z) : text :=
  skipn (Z.to_nat (clamp_index (len s) lo)) s.

(** ** Numbers: ints and binary64 floats *)

Definition float := spec_float.

Definition prec : Z := 53.
Definition emax : Z := 1024.

Definition fzero : float := S754_zero false.
Definition fone : float := SFone prec emax.
Definition fadd : float -> float -> float := SFadd prec emax.
Definition fsub : float -> float -> float := SFsub prec emax.
Definition fmul : float -> float -> float := SFmul prec emax.
Definition fquot : float -> float -> float := SFdiv prec emax.

(** [x == 0.0]. *)
Definition fis_zero (x : float) : bool :=
  match x with S754_zero _ => true | _ => false end.

(** [a / b] on floats: Python raises where IEEE 754 would give an infinity
    or a NaN for a zero divisor. *)
Definition fdiv (a b : float) : result float :=
  if fis_zero b then Raise ZeroDivisionError else Ok (fquot a b).

(** The quotient [p / q] of two integers, [q > 0], rounded to the nearest
    float, ties to even. *)
Definition float_of_ratio (p q : Z) : float :=
  let '(m, e, l) := SFdiv_core_binary prec emax (Z.abs p) 0 q 0 in
  binary_round_aux prec emax (p <? 0)%Z m e l.

(** A JSON number as Python reads it. *)
Inductive number : Type :=
| Int (z : Z)
| Float (x : float).

(** [float(x)]: an int is rounded to the nearest float; one too large
    raises. *)
Definition to_float (x : number) : result float :=
  match x with
  | Float f => Ok f
  | Int z =>
      match binary_normalize prec emax z 0 false with
      | S754_infinity _ => Raise OverflowError
      | f => Ok f
      end
  end.

(** [a + b]. *)
Definition add (a b : number) : result number :=
  match a, b with
  | Int x, Int y => Ok (Int (x + y))
  | _, _ =>
      bind (to_float a) (fun x =>
      bind (to_float b) (fun y => Ok (Float (fadd x y))))
  end.

(** [sum(l)]: the left fold of [+] from the int 0. (CPython from 3.12 on
    adds floats with a compensated sum, which can differ from the fold in
    the last bit; on a list of two floats, and wherever the fold is exact,
    the two agree.) *)
Fixpoint sum_from (acc : number) (l : list number) : result number :=
  match l with
  | [] => Ok acc
  | x :: l' => bind (add acc x) (fun acc' => sum_from acc' l')
  end.

Definition sum (l : list number) : result number := sum_from (Int 0) l.

(** [sum(l)] on a list of floats. The int 0 it starts from becomes 0.0 at
    the first addition, so the fold can start from 0.0; on the empty list
    Python's result is the int 0, which every use below then divides by. *)
Definition fsum (l : list float) : float := fold_left fadd l fzero.

(** ** [float(s)] on decimal numerals *)

Definition is_digit (c : ascii) : bool :=
  let n := nat_of_ascii c in (48 <=? n) && (n <=? 57).

Definition digit_value (c : ascii) : Z := Z.of_nat (nat_of_ascii c - 48).

(** The digits of [s] read as a decimal numeral after [acc]. *)
Fixpoint decimal_from (acc : Z) (s : text) : Z :=
  match s with
  | [] => acc
  | c :: s' => decimal_from (10 * acc + digit_value c) s'
  end.

Fixpoint span_digits (s : text) : text * text :=
  match s with
  | c :: s' =>
      if is_digit c then let '(d, r) := span_digits s' in (c :: d, r)
      else ([], s)
  | [] => ([], [])
  end.

(** [float(s)] for a decimal numeral [s]: digits, or digits, a point and
    digits; the value is rounded correctly. Any other string is refused
    here: the script passes only what the second group of the width
    pattern matched, which is such a numeral ([declared_columns_total]). *)
Definition float_of_text (s : text) : result float :=
  let '(ip, r) := span_digits s in
  match ip, r with
  | [], _ => Raise ValueError
  | _ :: _, [] => Ok (float_of_ratio (decimal_from 0 ip) 1)
  | _ :: _, c :: r' =>
      if Ascii.eqb c "."%char then
        let '(fp, r'') := span_digits r' in
        match fp, r'' with
        | _ :: _, [] =>
            Ok (float_of_ratio (decimal_from 0 (ip ++ fp))
                               (10 ^ Z.of_nat (length fp)))
        | _, _ => Raise ValueError
        end
      else Raise ValueError
  end.

End Py.

Import Py.

Notation "x <- a ;; b" := (bind a (fun x => b))
  (at level 61, a at next level, right associativity).

(* ================================================================== *)
(** * The fragment of [re] the script uses *)
(* ================================================================== *)

Module Re.

(** Compile flags. *)
Record flags : Type := { dotall : bool; multiline : bool }.

Definition no_flags : flags := {| dotall := false; multiline := false |}.
Definition DOTALL : flags := {| dotall := true; multiline := false |}.
Definition MULTILINE : flags := {| dotall := false; multiline := true |}.

(** What consumes exactly one character. *)
Inductive atom : Type :=
| Chr (c : ascii)   (* a literal character, escaped in the pattern or not *)
| Dot               (* .  *)
| Space             (* \s *)
| Digit.            (* \d *)

(** Patterns. Every repetition in the script repeats a single atom. *)
Inductive regex : Type :=
| Eps
| Atom (a : atom)
| Bol                          (* ^      *)
| Star (a : atom)              (* a*     *)
| StarLazy (a : atom)          (* a*?    *)
| Plus (a : atom)              (* a+     *)
| Opt (r : regex)              (* (?:r)? *)
| Group (n : nat) (r : regex)  (* (r), the n-th group *)
| Seq (r1 r2 : regex).

(** A run of literal characters. *)
Fixpoint lit (s : text) : regex :=
  match s with
  | [] => Eps
  | c :: s' => Seq (Atom (Chr c)) (lit s')
  end.

(** [\s] on a [str] pattern: the characters [str.isspace] accepts. Below
    256 these are tab to carriage return, the four separators 28 to 31,
    the space, NEL (133) and the no-break space (160). *)
Definition is_space (c : ascii) : bool :=
  let n := nat_of_ascii c in
  ((9 <=? n) && (n <=? 13)) || ((28 <=? n) && (n <=? 32))
  || (n =? 133) || (n =? 160).

Definition atom_ok (fl : flags) (a : atom) (c : ascii) : bool :=
  match a with
  | Chr d => Ascii.eqb d c
  | Dot => dotall fl || negb (Ascii.eqb c nl)
  | Space => is_space c
  | Digit => is_digit c
  end.

(** [^]: the start of the string, and with MULTILINE also just after a
    newline. [prev] is the character before the position, if any. *)
Definition at_bol (fl : flags) (prev : option ascii) : bool :=
  match prev with
  | None => true
  | Some c => multiline fl && Ascii.eqb c nl
  end.

(** Captured groups, by number. *)
Definition caps := list (nat * text).

Fixpoint lookup (n : nat) (cs : caps) : option text :=
  match cs with
  | [] => None
  | (k, t) :: cs' => if n =? k then Some t else lookup n cs'
  end.

Section Matcher.

Variable fl : flags.
Context {R : Type}.

(** A continuation: the rest of the match, from the character before the
    position, the text still ahead and the groups closed so far. *)
Definition cont := option ascii -> text -> caps -> option R.

(** [a*]: as many as possible first, then one fewer, and so on. *)
Fixpoint star_greedy (a : atom) (prev : option ascii) (s : text)
                     (cs : caps) (k : cont) : option R :=
  match s with
  | c :: s' =>
      if atom_ok fl a c then
        match star_greedy a (Some c) s' cs k with
        | Some r => Some r
        | None => k prev s cs
        end
      else k prev s cs
  | [] => k prev s cs
  end.

(** [a*?]: as few as possible first. *)
Fixpoint star_lazy (a : atom) (prev : option ascii) (s : text)
                   (cs : caps) (k : cont) : option R :=
  match k prev s cs with
  | Some r => Some r
  | None =>
      match s with
      | c :: s' =>
          if atom_ok fl a c then star_lazy a (Some c) s' cs k else None
      | [] => None
      end
  end.

Definition one (a : atom) (prev : option ascii) (s : text)
               (cs : caps) (k : cont) : option R :=
  match s with
  | c :: s' => if atom_ok fl a c then k (Some c) s' cs else None
  | [] => None
  end.

(** The backtracking matcher: the first way to match [r] here that the
    continuation accepts, in the order [re] tries them. *)
Fixpoint exec (r : regex) (prev : option ascii) (s : text)
             (cs : caps) (k : cont) : option R :=
  match r with
  | Eps => k prev s cs
  | Atom a => one a prev s cs k
  | Bol => if at_bol fl prev then k prev s cs else None
  | Star a => star_greedy a prev s cs k
  | StarLazy a => star_lazy a prev s cs k
  | Plus a => one a prev s cs (fun p' s' cs' => star_greedy a p' s' cs' k)
  | Opt r1 =>
      match exec r1 prev s cs k with
      | Some x => Some x
      | None => k prev s cs
      end
  | Group n r1 =>
      exec r1 prev s cs
          (fun p' s' cs' =>
             k p' s' ((n, firstn (length s - length s') s) :: cs'))
  | Seq r1 r2 =>
      exec r1 prev s cs (fun p' s' cs' => exec r2 p' s' cs' k)
  end.

End Matcher.

(** A match object: [group(0)] and the numbered groups that took part. *)
Record rmatch : Type := { group0 : text; groups : caps }.

Definition group (m : rmatch) (n : nat) : option text :=
  match n with
  | O => Some (group0 m)
  | _ => lookup n (groups m)
  end.

(** One attempt at one position. With [must_advance], set after an empty
    match, an empty match is rejected and the matcher backtracks. *)
Definition match_here (fl : flags) (r : regex) (must_advance : bool)
                      (prev : option ascii) (s : text) : option rmatch :=
  exec fl r prev s []
      (fun _ s' cs =>
         if must_advance && (length s' =? length s) then None
         else Some {| group0 := firstn (length s - length s') s;
                      groups := cs |}).

(** A scan cuts the text into the characters no match covers and the
    matches, in order. *)
Inductive piece : Type :=
| Gap (c : ascii)
| Hit (m : rmatch).

(** The scan of [sub] and [finditer]: at each position try a match; after
    a match go on behind it; after an empty match try once more at the same
    position for a non-empty one; otherwise pass one character. [skip]
    counts the characters of the last match still to be passed. *)
Fixpoint scan (fl : flags) (r : regex) (prev : option ascii) (s : text)
              (skip : nat) : list piece :=
  match skip with
  | S n =>
      match s with
      | [] => []
      | c :: s' => scan fl r (Some c) s' n
      end
  | O =>
      match match_here fl r false prev s with
      | None =>
          match s with
          | [] => []
          | c :: s' => Gap c :: scan fl r (Some c) s' 0
          end
      | Some m =>
          match length (group0 m) with
          | S n =>
              Hit m :: match s with
                       | [] => []
                       | c :: s' => scan fl r (Some c) s' n
                       end
          | O =>
              Hit m ::
              match match_here fl r true prev s with
              | None =>
                  match s with
                  | [] => []
                  | c :: s' => Gap c :: scan fl r (Some c) s' 0
                  end
              | Some m' =>
                  Hit m' :: match s with
                            | [] => []
                            | c :: s' =>
                                scan fl r (Some c) s' (length (group0 m') - 1)
                            end
              end
          end
      end
  end.

Definition pieces (fl : flags) (r : regex) (s : text) : list piece :=
  scan fl r None s 0.

(** [r.finditer(s)]: the matches, left to right. *)
Fixpoint hits (ps : list piece) : list rmatch :=
  match ps with
  | [] => []
  | Gap _ :: ps' => hits ps'
  | Hit m :: ps' => m :: hits ps'
  end.

Definition finditer (fl : flags) (r : regex) (s : text) : list rmatch :=
  hits (pieces fl r s).

(** The text [sub] builds from a scan: gaps are copied, each match is
    replaced by what [repl] returns for it; an exception raised by [repl]
    ends the substitution there. *)
Fixpoint rebuild (repl : rmatch -> result text) (ps : list piece) : result text :=
  match ps with
  | [] => Ok []
  | Gap c :: ps' => out <- rebuild repl ps' ;; Ok (c :: out)
  | Hit m :: ps' => t <- repl m ;; out <- rebuild repl ps' ;; Ok (t ++ out)
  end.

(** [r.sub(repl, s)] for a function [repl]. *)
Definition sub_fun (fl : flags) (r : regex) (repl : rmatch -> result text)
                   (s : text) : result text :=
  rebuild repl (pieces fl r s).

(** [r.sub(template, s)] once the template is expanded to the text [t]
    that replaces every match; a template without backslash is that text
    itself. *)
Definition sub_text (fl : flags) (r : regex) (t : text) (s : text) : text :=
  flat_map (fun p => match p with Gap c => [c] | Hit _ => t end)
           (pieces fl r s).

End Re.

Import Re.

(* ================================================================== *)
(** * Paths, the environment and the files written *)
(* ================================================================== *)

Module Os.

(** [a == b] on strings. *)
Fixpoint eqb_text (a b : text) : bool :=
  match a, b with
  | [], [] => true
  | x :: a', y :: b' => Ascii.eqb x y && eqb_text a' b'
  | _, _ => false
  end.

(** [s.rfind(c)] for a character [c]: the highest index where it stands,
    or -1. *)
Fixpoint rfind (s : text) (c : ascii) : Z :=
  match s with
  | [] => (-1)%Z
  | d :: s' =>
      let r := rfind s' c in
      if (0 <=? r)%Z then (r + 1)%Z
      else if Ascii.eqb d c then 0%Z else (-1)%Z
  end.

(** [s.rstrip(c)]: [s] without the run of [c] at its end. *)
Fixpoint rstrip (s : text) (c : ascii) : text :=
  match s with
  | [] => []
  | d :: s' =>
      match rstrip s' c with
      | [] => if Ascii.eqb d c then [] else [d]
      | r => d :: r
      end
  end.

(** [s.endswith(c)]. *)
Fixpoint ends_with (s : text) (c : ascii) : bool :=
  match s with
  | [] => false
  | [d] => Ascii.eqb d c
  | _ :: s' => ends_with s' c
  end.

(** ** [os.path] on a POSIX system *)

Module Path.

Definition sep : ascii := "/"%char.
Definition extsep : ascii := "."%char.

(** [os.path.join(a, b)]. *)
Definition join (a b : text) : text :=
  if starts_with [sep] b then b
  else if match a with [] => true | _ => ends_with a sep end then a ++ b
  else a ++ sep :: b.

(** [os.path.split(p)]: the head, which is what stands before the last
    slash, without the slashes at its end unless it is all slashes, and the
    tail behind the last slash. *)
Definition split (p : text) : text * text :=
  let i := (rfind p sep + 1)%Z in
  let head := slice p 0 i in
  let tail := slice_from p i in
  let head :=
    match head with
    | [] => head
    | _ => if forallb (Ascii.eqb sep) head then head else rstrip head sep
    end in
  (head, tail).

(** [os.path.splitext(p)]: the extension runs from the last dot of the
    last component, unless only dots stand before it in that component. *)
Definition splitext (p : text) : text * text :=
  let sepIndex := rfind p sep in
  let dotIndex := rfind p extsep in
  if (sepIndex <? dotIndex)%Z
     && existsb (fun c => negb (Ascii.eqb c extsep))
                (slice p (sepIndex + 1) dotIndex)
  then (slice p 0 dotIndex, slice_from p dotIndex)
  else (p, []).

End Path.

(** ** [os.environ] *)

(** The environment: the value of each variable that is set. *)
Definition environ := text -> option text.

(** [os.environ[key] = value]; a value that holds a NUL character is
    refused. *)
Definition putenv (env : environ) (key value : text) : result environ :=
  if existsb (Ascii.eqb zero) value then Raise ValueError
  else Ok (fun k => if eqb_text k key then Some value else env k).

(** ** What ends a conversion, and what it leaves behind *)

(** An exception of the text level, a key that a dict lacks, or an
    exception of the world outside, by its name: a pandoc run that failed,
    a file that could not be opened. *)
Inductive failure : Type :=
| Exn (e : exn)
| KeyError (key : text)
| Raised (name : text).

Inductive outcome (A : Type) : Type :=
| Done (a : A)
| Failed (f : failure).

Arguments Done {A} a.
Arguments Failed {A} f.

(** [d[key]] on a dict read from JSON or YAML. *)
Definition item {A : Type} (key : text) (field : option A) : outcome A :=
  match field with
  | Some v => Done v
  | None => Failed (KeyError key)
  end.

(** The files written so far, in the order of the writes: the path of
    each and the content the write left in it, which is the text written,
    or what was left of it where the write failed on the opened file. *)
Definition log := list (text * text).

(** A step of the driver: from the files written so far to the files
    written after it, with its result or the exception that ended it. What
    was written before an exception stays written. *)
Definition io (A : Type) : Type := log -> log * outcome A.

Definition of_outcome {A : Type} (o : outcome A) : io A := fun l => (l, o).

Definition of_result {A : Type} (r : result A) : io A :=
  fun l => (l, match r with Ok a => Done a | Raise e => Failed (Exn e) end).

Definition and_then {A B : Type} (m : io A) (f : A -> io B) : io B :=
  fun l =>
    match m l with
    | (l', Done a) => f a l'
    | (l', Failed e) => (l', Failed e)
    end.

End Os.

Import Os.

Notation "x <-- a ;; b" := (and_then a (fun x => b))
  (at level 61, a at next level, right associativity).

(* ================================================================== *)
(** * src/convert/scripts/convert-tables.py *)
(* ================================================================== *)

Module ConvertTables.

(** One configuration group, as far as the table rewriter reads it. A
    field is [None] when the key is absent from the JSON object. *)
Record config : Type := {
  scaleColumnsToFull : option bool;
  scaleColumnsToFullMargin : option number;
  columnRatios : option (list number);
  rowSpacing : option text
}.

(** [config.get(key, default)]. *)
Definition get {A : Type} (field : option A) (default : A) : A :=
  match field with Some v => v | None => default end.

(** Truth of a list or string, or of [None]: non-empty. *)
Definition truthy {A : Type} (v : option (list A)) : bool :=
  match v with Some (_ :: _) => true | _ => false end.

(** The width pattern, written here with blanks between its tokens:
    [>\{ ( .* ) \} .* p\{ .* \\real\{ ( \d+ (?: \. \d+ )? ) \}\}]. *)
Definition width_re : regex :=
  Seq (lit (T ">{"))
 (Seq (Group 1 (Star Dot))
 (Seq (lit (T "}"))
 (Seq (Star Dot)
 (Seq (lit (T "p{"))
 (Seq (Star Dot)
 (Seq (lit (T "\real{"))
 (Seq (Group 2 (Seq (Plus Digit)
                    (Opt (Seq (Atom (Chr "."%char)) (Plus Digit)))))
      (lit (T "}}"))))))))).

(** The pattern [\\end\{minipage\}]. *)
Definition end_minipage_re : regex := lit (T "\end{minipage}").

(** The pattern [\\begin\{minipage\}.*] (the star is greedy). *)
Definition begin_minipage_re : regex :=
  Seq (lit (T "\begin{minipage}")) (Star Dot).

(** The pattern [^ \s* \n], compiled with [re.MULTILINE]. *)
Definition empty_line_re : regex :=
  Seq Bol (Seq (Star Space) (Atom (Chr nl))).

(** The pattern [\\begin\{longtable\} .*? \\end\{longtable\}], compiled
    with [re.DOTALL]. *)
Definition longtable_re : regex :=
  Seq (lit (T "\begin{longtable}"))
 (Seq (StarLazy Dot) (lit (T "\end{longtable}"))).

(** The pattern [\\tabularnewline]. *)
Definition tabularnewline_re : regex := lit (T "\tabularnewline").

(** The body of the loop of [getColumnSizes]:
    [w = float(m.group(2))] and the format [m.group(1)]. *)
Definition column_of (m : rmatch) : result (float * option text) :=
  match group m 2 with
  | None => Raise TypeError
  | Some t => w <- float_of_text t ;; Ok (w, group m 1)
  end.

Definition getColumnSizes (output : text) (scaleToOne : bool)
    (scaleToFullMargin : number) (columnRatios : option (list number))
  : result (list float * list (option text)) :=
  let endTag := T "\endhead" in
  let end_ := find output endTag in
  if (end_ <? 0)%Z then Ok ([], [])
  else
    (* Extract all widths *)
    let part := slice output 0 end_ in
    cols <- mapM column_of (finditer no_flags width_re part) ;;
    let widths := map fst cols in
    let formats := map snd cols in
    if length widths =? 0 then Raise ValueError
    else
      (* Overwrite by new column ratios *)
      widths <-
        (if truthy columnRatios then
           let ratios := get columnRatios [] in
           if negb (length ratios =? length widths) then Raise AssertionError
           else
             totalWidth <- sum ratios ;;
             total <- to_float totalWidth ;;
             mapM (fun c => x <- to_float c ;; fdiv x total) ratios
         else Ok widths) ;;
      widths <-
        (if scaleToOne || truthy columnRatios then
           let totalWidth := fsum widths in
           margin <- to_float scaleToFullMargin ;;
           scale <- fdiv (fsub fone margin) totalWidth ;;
           Ok (map (fun w => fmul w scale) widths)
         else Ok widths) ;;
      Ok (widths, formats).

Definition setColumnFormat (output : text) (widths : list float)
    (formats : list (option text)) : text :=
  (* Remove all minipages *)
  let output := sub_text no_flags end_minipage_re [] output in
  sub_text no_flags begin_minipage_re [] output.

Definition deleteEmptyLines (output : text) : text :=
  sub_text MULTILINE empty_line_re [] output.

(** [getStretchRegexes(spacing)]: one pattern with its replacement
    template, written as the raw string is, each backslash doubled. *)
Definition getStretchRegexes (spacing : text) : list (regex * text) :=
  [(tabularnewline_re,
    T "\\tabularnewline\\addlinespace[" ++ spacing ++ T "]")].

Section Rewriter.

(** What [re] makes of the replacement template of a pattern without
    groups whose every match is the same text, which is the case of
    [tabularnewline_re]: the text put in place of each match, or [re.error]
    for a template it rejects. The escapes [re] knows differ between Python
    versions, so the rewriter is stated for any expansion. *)
Variable expand_template : text -> result text.

(** The loop [for reg, repl in regs: substring = reg.sub(repl, substring)]. *)
Fixpoint sub_each (regs : list (regex * text)) (substring : text) : result text :=
  match regs with
  | [] => Ok substring
  | (reg, repl) :: regs' =>
      t <- expand_template repl ;;
      sub_each regs' (sub_text no_flags reg t substring)
  end.

Definition setLatexSpacing (output : text) (spacing : text) : result text :=
  let startTag := T "\endhead" in
  let endTag := T "\bottomrule" in
  let start := (find output startTag + len startTag)%Z in
  let end_ := find output endTag in
  let substring := slice output start end_ in
  substring <- sub_each (getStretchRegexes spacing) substring ;;
  Ok (slice output 0 start ++ substring ++ slice_from output end_).

(** The nested function of [postProcessLatexTables], on [match.group(0)]. *)
Definition postProcessLatexTable (cfg : config) (m : rmatch) : result text :=
  let table := group0 m in
  (* Count column sized *)
  wf <- getColumnSizes table (get (scaleColumnsToFull cfg) false)
                       (get (scaleColumnsToFullMargin cfg) (Float fzero))
                       (columnRatios cfg) ;;
  let table := setColumnFormat table (fst wf) (snd wf) in
  (* Stretch cell rows in latex output *)
  table <- (if truthy (rowSpacing cfg)
            then setLatexSpacing table (get (rowSpacing cfg) [])
            else Ok table) ;;
  Ok (deleteEmptyLines table).

Definition postProcessLatexTables (cfg : config) (output : text) : result text :=
  sub_fun DOTALL longtable_re (postProcessLatexTable cfg) output.

End Rewriter.

(** The expansion of a template whose only escape is the doubled backslash,
    the case of a spacing such as 0.2cm: each pair stands for one backslash.
    Other escapes are left to [re]: this expansion refuses them all, those
    [re] expands (a newline, a tab, a group) as well as those it rejects,
    and so agrees with [re] on the templates without any other escape only.
    The properties are stated for every expansion; this one is the input of
    examples whose spacing holds no backslash. *)
Fixpoint expand_plain (t : text) : result text :=
  match t with
  | [] => Ok []
  | "\"%char :: "\"%char :: t' => r <- expand_plain t' ;; Ok ("\"%char :: r)
  | "\"%char :: _ => Raise ReError
  | c :: t' => r <- expand_plain t' ;; Ok (c :: r)
  end.

(** ** The entry point *)

(** The parsed command line. *)
Record args : Type := {
  data_dir : text;
  root_dir : text;
  config_file : text;
  parallel : bool
}.

(** What [run] calls, in order, as long as no call raises. *)
Inductive action : Type :=
| SetEnvironment (dataDir : text)
| LoadPandocDefault (dataDir : text)
| ConvertTablesOf (c : config) (rootDir dataDir : text)
| PoolMap (configs : list config) (rootDir dataDir : text).

Definition run (configs : list config) (rootDir dataDir : text)
               (parallel : bool) : list action :=
  SetEnvironment dataDir :: LoadPandocDefault dataDir ::
  (if parallel then [PoolMap configs rootDir dataDir]
   else map (fun c => ConvertTablesOf c rootDir dataDir) configs).

(** The [__main__] block; [loaded] is what [json.load] read from the
    config file. *)
Definition main (a : args) (loaded : list config) : list action :=
  run loaded (root_dir a) (data_dir a) false.

(** ** Formats and the environment *)

(** The pandoc defaults [loadPandocDefault] returns, as far as the script
    reads them. *)
Record pandoc_defaults : Type := { default_from : option text }.

Definition setEnvironment (dataDir : text) (env : environ) : result environ :=
  (* Setting important env. variables *)
  let filters := Path.join dataDir (T "filters") in
  let s := env (T "LUA_PATH") in
  env <- putenv env (T "LUA_PATH")
           (filters ++ T "/?;" ++ filters ++ T "/?.lua;"
            ++ (if truthy s then get s [] else [])) ;;
  let s := env (T "PYTHONPATH") in
  putenv env (T "PYTHONPATH")
    (filters ++ T ":" ++ (if truthy s then get s [] else [])).

(** [replaceColumnType] on a match of a pattern with three groups. A group
    that took no part in the match is [None], which the loop and the
    concatenations refuse. *)
Definition replaceColumnType (m : rmatch) : result text :=
  match group m 2 with
  | None => Raise TypeError
  | Some g2 =>
      let columns :=
        fold_left (fun columns c => columns ++ ["S"%char; c]) g2 [] in
      match group m 1, group m 3 with
      | Some g1, Some g3 => Ok (g1 ++ columns ++ g3)
      | _, _ => Raise TypeError
      end
  end.

(** The pattern [\\end\{itemize\}\\strut]. *)
Definition strut_re : regex := lit (T "\end{itemize}\strut").

(** The pattern [\\endfirsthead .*? \\endhead], compiled with
    [re.DOTALL]. *)
Definition firsthead_re : regex :=
  Seq (lit (T "\endfirsthead")) (Seq (StarLazy Dot) (lit (T "\endhead"))).

(** The dict of the default patterns by target format, each pattern with
    its flags and its replacement template, written as the raw string is. *)
Definition defaultTableRegexes : list (text * list (flags * regex * text)) :=
  [(T "latex",
    [ (* Remove pandoc inserted struct *)
      (no_flags, strut_re, T "\\end{itemize}");
      (* Remove \endfirsthead, its not needed *)
      (DOTALL, firsthead_re, T "\\endhead") ])].

(** [d.get(key, [])] on a dict of lists. *)
Fixpoint get_list {A : Type} (d : list (text * list A)) (key : text) : list A :=
  match d with
  | [] => []
  | (k, v) :: d' => if eqb_text k key then v else get_list d' key
  end.

Definition getFormat (file : text) (pandocDefaults : pandoc_defaults)
  : outcome text :=
  let ext := snd (Path.splitext file) in
  if eqb_text ext (T ".html") then Done (T "html+tex_math_dollars")
  else if eqb_text ext (T ".tex") then Done (T "latex")
  else if eqb_text ext (T ".md")
  then item (T "from") (default_from pandocDefaults)
  else Failed (Exn ValueError).

Definition getExtension (format : text) : result text :=
  if occurs (T "html") format then Ok (T ".html")
  else if occurs (T "latex") format then Ok (T ".tex")
  else if occurs (T "markdown") format then Ok (T ".md")
  else Raise ValueError.

(** ** The conversion of one file *)

(** One configuration group as [convertTable] reads it: the keys of the
    conversion, and the options of the table rewriter. A field is [None]
    when the key is absent from the JSON object. *)
Record conversion : Type := {
  from_ : option text;
  to_ : option text;
  outputDir : option text;
  pandocArgs : option (list text);
  defaultPostProcessing : option bool;
  globs : option (text + list text);
  options : config
}.

Section Driver.

Variable expand_template : text -> result text.

(** [template.format] with keyword arguments. *)
Variable format : text -> list (text * text) -> outcome text.

(** [subprocess.check_output(argv, encoding=...)]: what the process
    printed, or the exception of a failed run. The process sees the files
    written so far. *)
Variable check_output : log -> list text -> outcome text.

(** [open(path, mode w)]: the exception it raises, if it does. A file that
    could not be opened is left as it was. *)
Variable open_w : log -> text -> option failure.

(** [o.write(content)] and the closing of the file at the end of the
    [with] block, on a file that was opened and so emptied: nothing when
    both succeed, or the exception raised and what the file holds then. *)
Variable write_to : log -> text -> text -> option (text * failure).

(** [with open(path, mode w) as o: o.write(content)]. *)
Definition write (path content : text) : io unit :=
  fun l =>
    match open_w l path with
    | Some e => (l, Failed e)
    | None =>
        match write_to l path content with
        | Some (kept, e) => (l ++ [(path, kept)], Failed e)
        | None => (l ++ [(path, content)], Done tt)
        end
    end.

(** The loop [for reg, repl in regs: output = reg.sub(repl, output)]. *)
Fixpoint sub_all (regs : list (flags * regex * text)) (output : text)
  : result text :=
  match regs with
  | [] => Ok output
  | (fl, reg, repl) :: regs' =>
      t <- expand_template repl ;;
      sub_all regs' (sub_text fl reg t output)
  end.

Definition convertTable (file : text) (cfg : conversion)
    (rootDir dataDir : text) (pandocDefaults : pandoc_defaults) : io unit :=
  fromFormat <-- of_outcome (match from_ cfg with
                             | Some f => Done f
                             | None => getFormat file pandocDefaults
                             end) ;;
  toFormat <-- of_outcome (item (T "to") (to_ cfg)) ;;
  toExt <-- of_result (getExtension toFormat) ;;
  (* Make output file *)
  let '(baseName, ext) := Path.splitext (snd (Path.split file)) in
  outDir <-- of_outcome (item (T "outputDir") (outputDir cfg)) ;;
  outDir <-- of_outcome (format outDir [(T "rootDir", rootDir);
                                        (T "ext", slice_from toExt 1)]) ;;
  let outFile := Path.join outDir (baseName ++ toExt) in
  (* Run pandoc *)
  output <-- (fun l =>
    (l, check_output l
          ([T "pandoc"; T "--fail-if-warnings"; T "--verbose";
            T "--data-dir=" ++ dataDir;
            T "--defaults=pandoc-dirs.yaml";
            T "--defaults=pandoc-table.yaml";
            T "--defaults=pandoc-filters.yaml"]
           ++ get (pandocArgs cfg) []
           ++ [T "-f"; fromFormat; T "-t"; toFormat; file]))) ;;
  (* Pre save... *)
  _ <-- write outFile output ;;
  (* Modify regexes *)
  output <-- of_result
    (if get (defaultPostProcessing cfg) false
     then sub_all (get_list defaultTableRegexes toFormat) output
     else Ok output) ;;
  output <-- of_result
    (if eqb_text toFormat (T "latex")
     then postProcessLatexTables expand_template (options cfg) output
     else Ok output) ;;
  write outFile output.

(** ** The conversion of a group *)

(** [glob.glob(g, recursive=True)] on the files there are, those written
    so far among them. *)
Variable glob : log -> text -> list text.

(** The loop [for g in globs] of [convertTables], which adds to [files]. *)
Fixpoint glob_all (rootDir : text) (globs : list text) (files : list text)
  : io (list text) :=
  match globs with
  | [] => of_outcome (Done files)
  | g :: globs' =>
      (* Replace 'rootDir' *)
      g <-- of_outcome (format g [(T "rootDir", rootDir)]) ;;
      (* Get files *)
      found <-- (fun l => (l, Done (glob l g))) ;;
      glob_all rootDir globs' (files ++ found)
  end.

(** A loop [for x in xs: f(x)]. *)
Fixpoint for_each {A : Type} (f : A -> io unit) (xs : list A) : io unit :=
  match xs with
  | [] => of_outcome (Done tt)
  | x :: xs' => _ <-- f x ;; for_each f xs'
  end.

Definition convertTables (cfg : conversion) (rootDir dataDir : text)
    (pandocDefaults : pandoc_defaults) : io unit :=
  globs <-- of_outcome (item (T "globs") (globs cfg)) ;;
  let globs := match globs with inl g => [g] | inr gs => gs end in
  (* Get all files by globbing *)
  files <-- glob_all rootDir globs [] ;;
  for_each (fun f => convertTable f cfg rootDir dataDir pandocDefaults) files.

End Driver.

End ConvertTables.

Import ConvertTables.

(* ================================================================== *)
(** * The vocabulary of the properties *)
(* ================================================================== *)

Module Spec.

(** The markers of the rewriter. *)
Definition begin_longtable : text := T "\begin{longtable}".
Definition end_longtable : text := T "\end{longtable}".
Definition endhead : text := T "\endhead".

(** A text cut into table blocks and the characters outside them. *)
Inductive segment : Type :=
| Outside (c : ascii)
| Table (b : text).

Definition source (g : segment) : text :=
  match g with
  | Outside c => [c]
  | Table b => b
  end.

(** A table block starts here: a begin marker with an end marker somewhere
    behind it. *)
Definition block_starts (s : text) : bool :=
  starts_with begin_longtable s
  && occurs end_longtable (skipn (length begin_longtable) s).

(** The table blocks of a text, read left to right: a block runs from a
    begin marker to the next end marker behind it, blocks do not overlap,
    and a character is outside when no block starts at it. *)
Inductive segments : text -> list segment -> Prop :=
| seg_nil : segments [] []
| seg_outside (c : ascii) (s : text) (gs : list segment) :
    block_starts (c :: s) = false ->
    segments s gs ->
    segments (c :: s) (Outside c :: gs)
| seg_table (s : text) (j : nat) (gs : list segment) :
    starts_with begin_longtable s = true ->
    find (skipn (length begin_longtable) s) end_longtable = Z.of_nat j ->
    let n := length begin_longtable + j + length end_longtable in
    segments (skipn n s) gs ->
    segments s (Table (firstn n s) :: gs).

(** The text with every block replaced by what [f] makes of it, the rest
    copied; an exception of [f] ends the rewriting at that block. *)
Fixpoint rewrite (f : text -> result text) (gs : list segment) : result text :=
  match gs with
  | [] => Ok []
  | Outside c :: gs' => out <- rewrite f gs' ;; Ok (c :: out)
  | Table b :: gs' => t <- f b ;; out <- rewrite f gs' ;; Ok (t ++ out)
  end.

(** The match object of a table block: the longtable pattern has no
    groups. *)
Definition block_match (b : text) : rmatch := {| group0 := b; groups := [] |}.

(** Some line that ends in a newline is empty or all whitespace.
    [blank] tells whether the line read so far is. *)
Fixpoint blank_line_from (blank : bool) (s : text) : bool :=
  match s with
  | [] => false
  | c :: s' =>
      if Ascii.eqb c nl then blank || blank_line_from true s'
      else blank_line_from (blank && is_space c) s'
  end.

Definition has_blank_line (s : text) : bool := blank_line_from true s.

(** The column declarations of a block's header region: the width and the
    format of each match of the width pattern before the header-end
    marker. *)
Definition header_region (output : text) : text :=
  slice output 0 (find output endhead).

Definition declared_columns (output : text)
  : result (list (float * option text)) :=
  mapM column_of (finditer no_flags width_re (header_region output)).



(** The ratio override: each ratio over the sum of the ratios. *)
Definition ratio_widths (ratios : list number) : result (list float) :=
  totalWidth <- sum ratios ;;
  total <- to_float totalWidth ;;
  mapM (fun c => x <- to_float c ;; fdiv x total) ratios.

(** The rescaling to the full width less the margin. *)
Definition rescale (margin : number) (widths : list float) : result (list float) :=
  m <- to_float margin ;;
  scale <- fdiv (fsub fone m) (fsum widths) ;;
  Ok (map (fun w => fmul w scale) widths).

(** The markup [postProcessLatexTable] emits for a block, once the column
    sizes are computed: it is made from the block and the row spacing. *)
Definition emitted (expand : text -> result text) (spacing : option text)
                   (table : text) : result text :=
  let table := setColumnFormat table [] [] in
  table <- (if truthy spacing
            then setLatexSpacing expand table (get spacing [])
            else Ok table) ;;
  Ok (deleteEmptyLines table).



Definition is_pool (a : action) : bool :=
  match a with PoolMap _ _ _ => true | _ => false end.

(** [a] is [b] with some characters left out. *)
Inductive Subseq : text -> text -> Prop :=
| sub_nil : Subseq [] []
| sub_keep (c : ascii) (a b : text) : Subseq a b -> Subseq (c :: a) (c :: b)
| sub_drop (c : ascii) (a b : text) : Subseq a b -> Subseq a (c :: b).

(** The characters of a text that are not whitespace, in order. *)
Definition visible (s : text) : text :=
  filter (fun c => negb (is_space c)) s.

(** The first-head marker of a table that runs over several pages. *)
Definition endfirsthead : text := T "\endfirsthead".

(** A first head starts here: the first-head marker, with a header-end
    marker somewhere behind it. *)
Definition first_head_at (s : text) : bool :=
  starts_with endfirsthead s
  && occurs endhead (skipn (length endfirsthead) s).

Fixpoint has_first_head (s : text) : bool :=
  first_head_at s
  || match s with
     | [] => false
     | _ :: s' => has_first_head s'
     end.

(** A text without dot and slash: what an extension is made of. *)
Definition plain (e : text) : bool :=
  forallb (fun c => negb (Ascii.eqb c Path.extsep)
                    && negb (Ascii.eqb c Path.sep)) e.

(** A text without slash: a file name. *)
Definition no_sep (s : text) : bool :=
  forallb (fun c => negb (Ascii.eqb c Path.sep)) s.

(** The last component of the path holds a character other than a dot. *)
Definition named (stem : text) : bool :=
  existsb (fun c => negb (Ascii.eqb c Path.extsep)) (snd (Path.split stem)).

Fixpoint drop_dots (s : text) : text :=
  match s with
  | c :: s' => if Ascii.eqb c Path.extsep then drop_dots s' else s
  | [] => []
  end.

(** The last component of the path holds no dot behind its leading dots:
    a name without extension, or a hidden file without a second dot. *)
Definition extless (p : text) : bool :=
  forallb (fun c => negb (Ascii.eqb c Path.extsep))
          (drop_dots (snd (Path.split p))).

(** A text without NUL character. *)
Definition no_nul (s : text) : bool := negb (existsb (Ascii.eqb zero) s).

(** The value of a variable of the environment, empty when it is not
    set. *)
Definition value_of (env : environ) (key : text) : text :=
  match env key with Some v => v | None => [] end.

(** The paths a step of the driver has written to. *)
Definition written (l l' : log) : list text :=
  map fst (skipn (length l) l').

(** The end of a list, and the strut pandoc puts behind it in a table
    cell. *)
Definition end_itemize : text := T "\end{itemize}".
Definition strut : text := T "\strut".

End Spec.

Import Spec.

(* ================================================================== *)
(** * Functions the proofs read the matcher through *)
(* ================================================================== *)

Module Aux.

(** The character before the position once [w] has been read. *)
Definition prev_after (prev : option ascii) (w : text) : option ascii :=
  fold_left (fun _ c => Some c) w prev.

Definition piece_source (p : piece) : text :=
  match p with
  | Gap c => [c]
  | Hit m => group0 m
  end.

(** The first index where [p] occurs in [s], as a natural number. *)
Fixpoint index_of (p s : text) : option nat :=
  if starts_with p s then Some 0
  else match s with
       | [] => None
       | _ :: s' => option_map S (index_of p s')
       end.

Definition to_piece (g : segment) : piece :=
  match g with
  | Outside c => Gap c
  | Table b => Hit (block_match b)
  end.

(** [sub] with the empty replacement, from a position inside the text. *)
Definition delete_from (fl : flags) (r : regex) (prev : option ascii)
                       (s : text) : text :=
  flat_map (fun p => match p with Gap c => [c] | Hit _ => [] end)
           (scan fl r prev s 0).

(** The length of the match of the empty-line pattern at a line start: the
    leading run of whitespace up to its last newline, if it has one. *)
Fixpoint blank_len (s : text) : option nat :=
  match s with
  | [] => None
  | c :: s' =>
      if is_space c then
        match blank_len s' with
        | Some n => Some (S n)
        | None => if Ascii.eqb nl c then Some 1 else None
        end
      else None
  end.

(** The leading run of whitespace holds a newline. *)
Fixpoint nl_in_run (s : text) : bool :=
  match s with
  | [] => false
  | c :: s' => is_space c && (Ascii.eqb nl c || nl_in_run s')
  end.

(** The rest of the line at the head of [s], and the text from its
    newline on. *)
Fixpoint line_head (s : text) : text :=
  match s with
  | [] => []
  | c :: s' => if Ascii.eqb c nl then [] else c :: line_head s'
  end.


(** The texts a pattern can match, whatever stands around them. *)
Fixpoint lang (fl : flags) (r : regex) (w : text) : Prop :=
  match r with
  | Eps => w = []
  | Atom a => exists c, w = [c] /\ atom_ok fl a c = true
  | Bol => w = []
  | Star a => forallb (atom_ok fl a) w = true
  | StarLazy a => forallb (atom_ok fl a) w = true
  | Plus a => w <> [] /\ forallb (atom_ok fl a) w = true
  | Opt r1 => w = [] \/ lang fl r1 w
  | Group _ r1 => lang fl r1 w
  | Seq r1 r2 => exists u v, w = u ++ v /\ lang fl r1 u /\ lang fl r2 v
  end.

(** A pattern without group. *)
Fixpoint groupless (r : regex) : bool :=
  match r with
  | Group _ _ => false
  | Opt r1 => groupless r1
  | Seq r1 r2 => groupless r1 && groupless r2
  | _ => true
  end.

(** A decimal numeral: digits, or digits, a point and digits. *)
Definition numeral : regex :=
  Seq (Plus Digit) (Opt (Seq (Atom (Chr "."%char)) (Plus Digit))).

(** [sub] with the replacement [t], from a position inside the text. *)
Definition sub_from (fl : flags) (r : regex) (t : text) (prev : option ascii)
                    (s : text) : text :=
  flat_map (fun p => match p with Gap c => [c] | Hit _ => t end)
           (scan fl r prev s 0).

(** A pattern without line-start anchor: whether it matches does not
    depend on the character before the position. *)
Fixpoint bol_free (r : regex) : bool :=
  match r with
  | Bol => false
  | Opt r1 => bol_free r1
  | Group _ r1 => bol_free r1
  | Seq r1 r2 => bol_free r1 && bol_free r2
  | _ => true
  end.

(** The continuation accepts at this text, whatever stands before it and
    whatever the groups are. *)
Definition accepts {R : Type} (k : @cont R) (s : text) : Prop :=
  forall prev cs, k prev s cs <> None.

End Aux.

Import Aux.

(* ================================================================== *)
(** * The header layout pandoc prints *)
(* ================================================================== *)

Module Layout.

(** A column declaration as pandoc prints it in the preamble of a table:
    the text before it, its format, the factor of its width and the
    numeral of its relative width. *)
Record column : Type := {
  before : text;
  col_format : text;
  col_factor : text;
  col_width : text
}.

(** [>{format}p{factor\real{width}}]. *)
Definition declaration (d : column) : text :=
  T ">{" ++ col_format d ++ T "}p{" ++ col_factor d
  ++ T "\real{" ++ col_width d ++ T "}}".

(** A header region: the declarations, each behind its text, and the text
    behind the last. *)
Fixpoint layout (ds : list column) (post : text) : text :=
  match ds with
  | [] => post
  | d :: ds' => before d ++ declaration d ++ layout ds' post
  end.

(** A text without greater-than sign: no declaration starts in it. *)
Definition no_gt (s : text) : bool :=
  forallb (fun c => negb (Ascii.eqb c ">"%char)) s.

(** A text without closing brace and without newline. *)
Definition open_line (s : text) : bool :=
  forallb (fun c => negb (Ascii.eqb c "}"%char) && negb (Ascii.eqb c nl)) s.

(** A character of a decimal numeral. *)
Definition numchar (c : ascii) : bool := is_digit c || Ascii.eqb c "."%char.

(** A decimal numeral: digits, or digits, a point and digits. *)
Definition is_numeral (w : text) : bool :=
  let '(ip, r) := span_digits w in
  match ip, r with
  | _ :: _, [] => true
  | _ :: _, c :: fp =>
      Ascii.eqb c "."%char
      && match fp with [] => false | _ => forallb is_digit fp end
  | [], _ => false
  end.

(** The first line of the text holds no backslash. *)
Definition calm (f : text) : bool :=
  forallb (fun c => negb (Ascii.eqb c "\"%char)) (line_head f).

(** The layout is the one pandoc prints: formats and factors without
    closing brace, widths that are numerals, no greater-than sign between
    the declarations, and no backslash behind a declaration on its
    line. *)
Fixpoint well_laid (ds : list column) (post : text) : bool :=
  match ds with
  | [] => no_gt post
  | d :: ds' =>
      no_gt (before d) && open_line (col_format d)
      && open_line (col_factor d) && is_numeral (col_width d)
      && calm (layout ds' post) && well_laid ds' post
  end.

(** The match at a declaration of the layout. *)
Definition read_as (d : column) : rmatch :=
  {| group0 := declaration d;
     groups := [(2, col_width d); (1, col_format d)] |}.

End Layout.

Import Layout.

(* ================================================================== *)
(** * Example inputs *)
(* ================================================================== *)

Module Examples.

(** The float a decimal literal denotes. *)
Definition dec (s : string) : float :=
  match float_of_text (T s) with
  | Ok x => x
  | Raise _ => fzero
  end.

(** The header line pandoc prints for a column of relative width [w]. *)
Definition column_line (w : string) : string :=
  "  >{\raggedright\arraybackslash}p{(\columnwidth - 2\tabcolsep) * \real{"
  ++ w ++ "}}".

(** A table block whose header declares the given widths. *)
Definition table_of (widths : list string) : text :=
  unlines
    ("\begin{longtable}[]{@{}"%string
       :: map column_line widths
       ++ ["  @{}}"; "\toprule";
           "\begin{minipage}[b]{\linewidth}\raggedright";
           "A";
           "\end{minipage} & B \\";
           "\midrule"; "\endhead";
           "x & y \\";
           "   ";
           "z & w \\";
           "\bottomrule"; "\end{longtable}"]%string).

Definition table_11 : text := table_of ["1"; "1"]%string.
Definition table_12 : text := table_of ["1"; "2"]%string.
Definition table_3 : text := table_of ["0.2"; "0.3"; "0.5"]%string.




(** The block pandoc prints for a table without relative widths: a
    header-end marker, and no width declaration before it. *)
Definition table_plain : text :=
  unlines ["\begin{longtable}[]{@{}ll@{}}"; "\toprule"; "A & B \\";
           "\midrule"; "\endhead"; "x & y \\"; "\bottomrule";
           "\end{longtable}"]%string.

(** A block without header-end marker. *)
Definition table_headless : text :=
  unlines ["\begin{longtable}[]{@{}ll@{}}"; "\toprule"; "x & y \\";
           "\bottomrule"; "\end{longtable}"]%string.


(** A document: two paragraphs, a blank line between them, and a table. *)
Definition document : text :=
  unlines ["Intro."; ""; "Text."]%string ++ nl :: table_11.

Definition no_options : config :=
  {| scaleColumnsToFull := None; scaleColumnsToFullMargin := None;
     columnRatios := None; rowSpacing := None |}.

Definition with_scale : config :=
  {| scaleColumnsToFull := Some true;
     scaleColumnsToFullMargin := Some (Float (dec "0.1"));
     columnRatios := None; rowSpacing := None |}.

Definition with_ratios : config :=
  {| scaleColumnsToFull := None; scaleColumnsToFullMargin := None;
     columnRatios := Some [Int 1; Int 1]; rowSpacing := None |}.

Definition some_args (p : bool) : args :=
  {| data_dir := T "tools/convert"; root_dir := T ".";
     config_file := T "tables.json"; parallel := p |}.

(** A block with row separators and no header-end marker. *)
Definition table_rows : text :=
  unlines ["\begin{longtable}[]{@{}ll@{}}"; "x & y \tabularnewline";
           "\bottomrule"; "\end{longtable}"]%string.

(** An environment in which the Lua path is set and the Python path is
    not. *)
Definition some_env : environ :=
  fun k => if eqb_text k (T "LUA_PATH") then Some (T "/usr/share/lua/?.lua")
           else if eqb_text k (T "HOME") then Some (T "/root")
           else None.

(** The format of a template without brace, which is the template itself.
    Templates with fields are left to Python; this one refuses them. *)
Definition format_plain (t : text) (kw : list (text * text)) : outcome text :=
  if existsb (fun c => Ascii.eqb c "{"%char || Ascii.eqb c "}"%char) t
  then Failed (Raised (T "NotImplementedError"))
  else Done t.

(** A pandoc that prints [out] for every input. *)
Definition pandoc_prints (out : text) : log -> list text -> outcome text :=
  fun _ _ => Done out.

(** A directory tree with two Markdown files under docs. *)
Definition some_files : log -> text -> list text :=
  fun _ g => if eqb_text g (T "docs/*.md")
             then [T "docs/a.md"; T "docs/b.md"] else [].

(** A file system in which every file can be opened. *)
Definition opens : log -> text -> option failure := fun _ _ => None.

(** A file system on which every write completes, and one on which no
    write does: the disk is full, and the file stays empty. *)
Definition writes : log -> text -> text -> option (text * failure) :=
  fun _ _ _ => None.

Definition full_disk : log -> text -> text -> option (text * failure) :=
  fun _ _ _ => Some ([], Raised (T "OSError")).

Definition to_latex : conversion :=
  {| from_ := None; to_ := Some (T "latex"); outputDir := Some (T "build");
     pandocArgs := None; defaultPostProcessing := Some true;
     globs := Some (inl (T "docs/*.md")); options := no_options |}.

Definition to_html : conversion :=
  {| from_ := Some (T "markdown"); to_ := Some (T "html");
     outputDir := Some (T "build"); pandocArgs := None;
     defaultPostProcessing := Some true;
     globs := Some (inr [T "docs/*.md"; T "src/*.md"]);
     options := with_ratios |}.

Definition general : pandoc_defaults :=
  {| default_from := Some (T "markdown") |}.

(** The columns of [table_3] and what stands behind them in its header
    region. *)
Definition ragged (b : text) (w : string) : column :=
  {| before := b;
     col_format := T "\raggedright\arraybackslash";
     col_factor := T "(\columnwidth - 2\tabcolsep) * ";
     col_width := T w |}.

Definition columns_3 : list column :=
  [ragged (T "\begin{longtable}[]{@{}" ++ nl :: T "  ") "0.2";
   ragged (nl :: T "  ") "0.3";
   ragged (nl :: T "  ") "0.5"].

Definition header_rest : text :=
  nl :: unlines
    ["  @{}}"; "\toprule";
     "\begin{minipage}[b]{\linewidth}\raggedright";
     "A";
     "\end{minipage} & B \\";
     "\midrule"; ""]%string.

End Examples.

Import Examples.

(* ================================================================== *)
(** * Text and the matcher *)
(* ================================================================== *)

#[local] Arguments Ascii.eqb : simpl never.
#[local] Arguments is_space : simpl never.

Lemma prev_after_app (prev : option ascii) (u v : text) :
  prev_after prev (u ++ v) = prev_after (prev_after prev u) v.
Proof. unfold prev_after. apply fold_left_app. Qed.

Lemma bind_ok {A B : Type} (r : result A) (f : A -> result B) (b : B) :
  bind r f = Ok b -> exists a, r = Ok a /\ f a = Ok b.
Proof. destruct r as [a|e]; simpl; intros H; [eauto | discriminate]. Qed.

Lemma starts_with_app (p t : text) : starts_with p (p ++ t) = true.
Proof.
  induction p as [|a p IH]; simpl; [reflexivity|].
  now rewrite Ascii.eqb_refl, IH.
Qed.

Lemma starts_with_split (p s : text) :
  starts_with p s = true -> s = p ++ skipn (length p) s.
Proof.
  revert s. induction p as [|a p IH]; intros [|b s]; simpl; try discriminate; auto.
  intros H. apply andb_true_iff in H. destruct H as [Hab Hp].
  apply Ascii.eqb_eq in Hab. subst b. f_equal. now apply IH.
Qed.

Lemma starts_with_length (p s : text) :
  starts_with p s = true -> length p <= length s.
Proof.
  intros H. rewrite (starts_with_split _ _ H), length_app. lia.
Qed.

Section MatcherFacts.

Variable fl : flags.
Variable R : Type.

Lemma star_greedy_sound (a : atom) (s : text) :
  forall prev cs (k : @cont R) x,
    star_greedy fl a prev s cs k = Some x ->
    exists w s', s = w ++ s' /\ k (prev_after prev w) s' cs = Some x.
Proof.
  induction s as [|c s IH]; intros prev cs k x H; simpl in H.
  - exists [], []. auto.
  - destruct (atom_ok fl a c).
    + destruct (star_greedy fl a (Some c) s cs k) as [y|] eqn:E.
      * inversion H; subst y. apply IH in E. destruct E as (w & s' & -> & Hk).
        exists (c :: w), s'. auto.
      * exists [], (c :: s). auto.
    + exists [], (c :: s). auto.
Qed.

Lemma star_lazy_sound (a : atom) (s : text) :
  forall prev cs (k : @cont R) x,
    star_lazy fl a prev s cs k = Some x ->
    exists w s', s = w ++ s' /\ k (prev_after prev w) s' cs = Some x.
Proof.
  induction s as [|c s IH]; intros prev cs k x H; simpl in H.
  - destruct (k prev [] cs) eqn:E; [|discriminate].
    exists [], []. inversion H; subst. auto.
  - destruct (k prev (c :: s) cs) eqn:E.
    + inversion H; subst. exists [], (c :: s). auto.
    + destruct (atom_ok fl a c); [|discriminate].
      apply IH in H. destruct H as (w & s' & -> & Hk).
      exists (c :: w), s'. auto.
Qed.

Lemma one_sound (a : atom) (prev : option ascii) (s : text) (cs : caps)
    (k : @cont R) (x : R) :
  one fl a prev s cs k = Some x ->
  exists c s', s = c :: s' /\ k (Some c) s' cs = Some x.
Proof.
  destruct s as [|c s]; simpl; [discriminate|].
  destruct (atom_ok fl a c); [|discriminate]. eauto.
Qed.

(** Whatever the matcher returns, the continuation returned it, at a
    position further on in the same text. *)
Lemma exec_sound (r : regex) :
  forall prev s cs (k : @cont R) x,
    exec fl r prev s cs k = Some x ->
    exists w s' cs', s = w ++ s' /\ k (prev_after prev w) s' cs' = Some x.
Proof.
  induction r as [ | a | | a | a | a | r IH | n r IH | r1 IH1 r2 IH2 ];
    intros prev s cs k x H; simpl in H.
  - exists [], s, cs. auto.
  - apply one_sound in H. destruct H as (c & s' & -> & Hk).
    exists [c], s', cs. auto.
  - destruct (at_bol fl prev); [|discriminate]. exists [], s, cs. auto.
  - apply star_greedy_sound in H. destruct H as (w & s' & -> & Hk). eauto.
  - apply star_lazy_sound in H. destruct H as (w & s' & -> & Hk). eauto.
  - apply one_sound in H. destruct H as (c & s1 & -> & Hk).
    apply star_greedy_sound in Hk. destruct Hk as (w & s' & -> & Hk').
    exists (c :: w), s', cs. auto.
  - destruct (exec fl r prev s cs k) as [y|] eqn:E.
    + inversion H; subst y. eauto.
    + exists [], s, cs. auto.
  - apply IH in H. destruct H as (w & s' & cs' & -> & Hk). eauto.
  - apply IH1 in H. destruct H as (w1 & s1 & cs1 & -> & Hk).
    apply IH2 in Hk. destruct Hk as (w2 & s2 & cs2 & -> & Hk').
    exists (w1 ++ w2), s2, cs2. rewrite prev_after_app, app_assoc. auto.
Qed.

End MatcherFacts.

Lemma firstn_prefix {A : Type} (w s' : list A) :
  firstn (length (w ++ s') - length s') (w ++ s') = w.
Proof.
  rewrite length_app. replace (length w + length s' - length s') with (length w) by lia.
  rewrite firstn_app, Nat.sub_diag, firstn_all. simpl. apply app_nil_r.
Qed.

(** A match is a prefix of the text at its position, and a non-empty one
    when the attempt had to advance. *)
Lemma match_here_prefix (fl : flags) (r : regex) (adv : bool)
    (prev : option ascii) (s : text) (m : rmatch) :
  match_here fl r adv prev s = Some m ->
  (exists s', s = group0 m ++ s') /\ (adv = true -> group0 m <> []).
Proof.
  unfold match_here. intros H.
  apply exec_sound in H. destruct H as (w & s' & cs' & -> & Hk).
  destruct (adv && (length s' =? length (w ++ s'))) eqn:E; [discriminate|].
  inversion Hk; subst m; simpl. rewrite firstn_prefix. split; [eauto|].
  intros ->. simpl in E. apply Nat.eqb_neq in E.
  intros ->. apply E. reflexivity.
Qed.

(** ** The scan *)

Lemma skipn_prefix {A : Type} (w s' : list A) : skipn (length w) (w ++ s') = s'.
Proof. rewrite skipn_app, skipn_all, Nat.sub_diag. reflexivity. Qed.

Lemma match_here_nil (fl : flags) (r : regex) (adv : bool)
    (prev : option ascii) (m : rmatch) :
  match_here fl r adv prev [] = Some m -> group0 m = [].
Proof.
  intros H. apply match_here_prefix in H. destruct H as [[s' E] _].
  symmetry in E. now apply app_eq_nil in E.
Qed.

(** The pieces of a scan, put back together, are the text scanned: a scan
    loses nothing and invents nothing. *)
Lemma scan_source (fl : flags) (r : regex) (s : text) :
  forall prev n, flat_map piece_source (scan fl r prev s n) = skipn n s.
Proof.
  induction s as [|c t IH]; intros prev n.
  - destruct n as [|n]; simpl; [|reflexivity].
    destruct (match_here fl r false prev []) as [m|] eqn:E; [|reflexivity].
    pose proof E as G. apply match_here_nil in G. rewrite G. simpl. rewrite G. simpl.
    destruct (match_here fl r true prev []) as [m'|] eqn:E'; [|reflexivity].
    apply match_here_nil in E'. simpl. rewrite E'. reflexivity.
  - destruct n as [|n]; simpl; [|apply IH].
    destruct (match_here fl r false prev (c :: t)) as [m|] eqn:E.
    + pose proof E as P. apply match_here_prefix in P. destruct P as [[s' Hs] _].
      destruct (length (group0 m)) as [|k] eqn:L.
      * apply length_zero_iff_nil in L. simpl. rewrite L. simpl.
        destruct (match_here fl r true prev (c :: t)) as [m'|] eqn:E'.
        -- pose proof E' as P'. apply match_here_prefix in P'. destruct P' as [[s2 Hs2] Hne].
           simpl. rewrite IH.
           destruct (group0 m') as [|d g] eqn:G; [now exfalso; apply Hne|].
           simpl in Hs2. inversion Hs2; subst. simpl.
           rewrite Nat.sub_0_r, skipn_prefix. reflexivity.
        -- simpl. now rewrite IH.
      * simpl. rewrite IH.
        destruct (group0 m) as [|d g] eqn:G; [discriminate|].
        simpl in Hs. inversion Hs; subst. simpl in L. inversion L; subst.
        simpl. now rewrite skipn_prefix.
    + simpl. now rewrite IH.
Qed.

Lemma pieces_source (fl : flags) (r : regex) (s : text) :
  flat_map piece_source (pieces fl r s) = s.
Proof. unfold pieces. now rewrite scan_source. Qed.

(** Passing the characters of a match is scanning on behind it. *)
Lemma scan_skip (fl : flags) (r : regex) (w : text) :
  forall prev s,
    scan fl r prev (w ++ s) (length w) = scan fl r (prev_after prev w) s 0.
Proof.
  induction w as [|c w IH]; intros prev s; [reflexivity|].
  simpl. apply IH.
Qed.

(** One step of the scan of a pattern that matches no empty text. *)
Lemma scan_step (fl : flags) (r : regex) (prev : option ascii) (s : text) :
  (forall m, match_here fl r false prev s = Some m -> group0 m <> []) ->
  scan fl r prev s 0 =
  match match_here fl r false prev s with
  | Some m =>
      Hit m :: scan fl r (prev_after prev (group0 m))
                    (skipn (length (group0 m)) s) 0
  | None =>
      match s with
      | [] => []
      | c :: s' => Gap c :: scan fl r (Some c) s' 0
      end
  end.
Proof.
  intros Hne. destruct s as [|c t]; simpl.
  - destruct (match_here fl r false prev []) as [m|] eqn:E; [|reflexivity].
    exfalso. apply (Hne m eq_refl). now apply match_here_nil in E.
  - destruct (match_here fl r false prev (c :: t)) as [m|] eqn:E; [|reflexivity].
    pose proof E as P. apply match_here_prefix in P. destruct P as [[s' Hs] _].
    destruct (group0 m) as [|d g] eqn:G; [now exfalso; apply (Hne m eq_refl)|].
    simpl in Hs. inversion Hs; subst d t.
    simpl. f_equal. rewrite skipn_prefix. apply (scan_skip fl r g (Some c) s').
Qed.

(** ** Literals and [str.find] *)

Lemma find_from_index (p s : text) :
  forall i, find_from p s i =
            match index_of p s with
            | Some n => (i + Z.of_nat n)%Z
            | None => (-1)%Z
            end.
Proof.
  induction s as [|c s IH]; intros i; simpl.
  - destruct (starts_with p []); simpl; [lia | reflexivity].
  - destruct (starts_with p (c :: s)); simpl; [lia|].
    rewrite IH. destruct (index_of p s); simpl; [lia | reflexivity].
Qed.

Lemma find_index (s p : text) :
  find s p = match index_of p s with
             | Some n => Z.of_nat n
             | None => (-1)%Z
             end.
Proof.
  unfold find. rewrite find_from_index. destruct (index_of p s); reflexivity.
Qed.

Lemma find_nat (s p : text) (j : nat) :
  find s p = Z.of_nat j <-> index_of p s = Some j.
Proof.
  rewrite find_index. destruct (index_of p s) as [n|]; split; intros H.
  - f_equal. lia.
  - inversion H. reflexivity.
  - lia.
  - discriminate.
Qed.

Lemma occurs_index (p s : text) :
  occurs p s = match index_of p s with Some _ => true | None => false end.
Proof.
  unfold occurs. rewrite find_index. destruct (index_of p s); [|reflexivity].
  apply Z.leb_le. lia.
Qed.

(** At the index [str.find] returns the text does start with the needle. *)
Lemma index_of_starts (p s : text) :
  forall j, index_of p s = Some j ->
            starts_with p (skipn j s) = true /\ j <= length s.
Proof.
  induction s as [|c s IH]; intros j H; simpl in H.
  - destruct (starts_with p []) eqn:E; [|discriminate].
    inversion H; subst. simpl. auto.
  - destruct (starts_with p (c :: s)) eqn:E.
    + inversion H; subst. simpl. split; [auto | lia].
    + destruct (index_of p s) as [n|]; [|discriminate]. inversion H; subst.
      destruct (IH n eq_refl) as [H1 H2]. simpl. split; [auto | lia].
Qed.

(** A literal matches exactly where the text starts with it. *)
Lemma exec_lit (fl : flags) (R : Type) (l : text) :
  forall prev s cs (k : @cont R),
    exec fl (lit l) prev s cs k =
    if starts_with l s then k (prev_after prev l) (skipn (length l) s) cs
    else None.
Proof.
  induction l as [|a l IH]; intros prev s cs k; [reflexivity|].
  destruct s as [|c s]; [reflexivity|]. simpl.
  destruct (Ascii.eqb a c) eqn:E; [|reflexivity].
  simpl. rewrite IH. apply Ascii.eqb_eq in E. subst c. reflexivity.
Qed.

(** With DOTALL, [.*?] followed by a test that only a literal decides
    stops at the first occurrence of the literal. *)
Lemma star_lazy_find (R : Type) (e : text) (K k : @cont R) (s : text) :
  (forall p s' cs, k p s' cs = if starts_with e s' then K p s' cs else None) ->
  (forall p s' cs, K p s' cs <> None) ->
  forall prev cs,
    star_lazy DOTALL Dot prev s cs k =
    match index_of e s with
    | Some j => K (prev_after prev (firstn j s)) (skipn j s) cs
    | None => None
    end.
Proof.
  intros Hk HK. induction s as [|c s IH]; intros prev cs; simpl; rewrite Hk.
  - destruct (starts_with e []); [|reflexivity].
    simpl. destruct (K prev [] cs) eqn:E; [reflexivity | now apply HK in E].
  - destruct (starts_with e (c :: s)).
    + simpl. destruct (K prev (c :: s) cs) eqn:E; [reflexivity | now apply HK in E].
    + rewrite IH. destruct (index_of e s); reflexivity.
Qed.

(** ** The longtable pattern *)

(** Where the longtable pattern matches, and what: the text from a begin
    marker through the first end marker behind it. *)
Lemma longtable_match (prev : option ascii) (s : text) :
  match_here DOTALL longtable_re false prev s =
  if starts_with begin_longtable s then
    match index_of end_longtable (skipn (length begin_longtable) s) with
    | Some j =>
        Some (block_match
                (firstn (length begin_longtable + j + length end_longtable) s))
    | None => None
    end
  else None.
Proof.
  unfold match_here, longtable_re.
  change (T "\begin{longtable}") with begin_longtable.
  change (T "\end{longtable}") with end_longtable.
  cbn [exec]. rewrite exec_lit.
  destruct (starts_with begin_longtable s) eqn:HB; [|reflexivity].
  set (s1 := skipn (length begin_longtable) s).
  erewrite star_lazy_find with (e := end_longtable);
    [ | intros p s' cs; rewrite exec_lit; reflexivity | ].
  - destruct (index_of end_longtable s1) as [j|] eqn:HE; [|reflexivity].
    destruct (index_of_starts _ _ _ HE) as [HS Hj].
    apply starts_with_split in HB. fold s1 in HB.
    apply starts_with_split in HS.
    set (s2 := skipn (length end_longtable) (skipn j s1)) in *.
    assert (Hs : s = (begin_longtable ++ firstn j s1 ++ end_longtable) ++ s2).
    { rewrite <- !app_assoc. rewrite <- HS, firstn_skipn. exact HB. }
    assert (Hn : length begin_longtable + j + length end_longtable =
                 length (begin_longtable ++ firstn j s1 ++ end_longtable)).
    { rewrite !length_app, firstn_length_le by exact Hj. lia. }
    rewrite Hn. clearbody s2 s1. clear HB HS HE. subst s. cbn [andb].
    rewrite firstn_prefix. unfold block_match. f_equal. f_equal.
    rewrite firstn_app, Nat.sub_diag, firstn_all. simpl. now rewrite app_nil_r.
  - intros p s' cs. discriminate.
Qed.
(** ** The table blocks of a text *)

Lemma rebuild_segments (f : rmatch -> result text) (gs : list segment) :
  rebuild f (map to_piece gs) = rewrite (fun b => f (block_match b)) gs.
Proof.
  induction gs as [|[c|b] gs IH]; simpl; [reflexivity| |]; now rewrite IH.
Qed.

Lemma segments_source (s : text) (gs : list segment) :
  segments s gs -> flat_map source gs = s.
Proof.
  induction 1 as [ | c s gs _ _ IH | s j gs _ _ n _ IH ]; cbn [flat_map source].
  - reflexivity.
  - now rewrite IH.
  - rewrite IH. apply firstn_skipn.
Qed.

(** The span of a block lies inside the text. *)
Lemma block_span (s : text) (j : nat) :
  starts_with begin_longtable s = true ->
  index_of end_longtable (skipn (length begin_longtable) s) = Some j ->
  length begin_longtable + j + length end_longtable <= length s.
Proof.
  intros HB HE. apply index_of_starts in HE. destruct HE as [HS Hj].
  apply starts_with_length in HS. rewrite !length_skipn in HS.
  apply starts_with_length in HB. rewrite length_skipn in Hj. lia.
Qed.

(** The scan of the longtable pattern cuts a text into its table blocks. *)
Lemma scan_segments (n : nat) :
  forall s prev, length s <= n ->
    exists gs, segments s gs /\
               scan DOTALL longtable_re prev s 0 = map to_piece gs.
Proof.
  induction n as [|n IH]; intros s prev Hlen.
  - destruct s; [|simpl in Hlen; lia]. exists []. split; [constructor | reflexivity].
  - rewrite scan_step.
    + rewrite longtable_match.
      destruct (starts_with begin_longtable s) eqn:HB.
      * destruct (index_of end_longtable (skipn (length begin_longtable) s))
          as [j|] eqn:HE.
        -- pose proof (block_span _ _ HB HE) as Hspan.
           set (N := length begin_longtable + j + length end_longtable) in *.
           assert (HN : 1 <= N) by (unfold N; simpl; lia).
           cbn [block_match group0]. rewrite firstn_length_le by exact Hspan.
           destruct (IH (skipn N s) (prev_after prev (firstn N s))) as (gs & Hseg & Hscan).
           { rewrite length_skipn. lia. }
           exists (Table (firstn N s) :: gs). split.
           ++ apply seg_table; [exact HB | now apply find_nat | exact Hseg].
           ++ cbn [map to_piece]. now rewrite Hscan.
        -- destruct s as [|c s]; [discriminate|].
           destruct (IH s (Some c)) as (gs & Hseg & Hscan); [simpl in Hlen; lia|].
           exists (Outside c :: gs). split.
           ++ apply seg_outside; [|exact Hseg].
              unfold block_starts. rewrite HB, occurs_index, HE. reflexivity.
           ++ cbn [map to_piece]. now rewrite Hscan.
      * destruct s as [|c s].
        -- exists []. split; [constructor | reflexivity].
        -- destruct (IH s (Some c)) as (gs & Hseg & Hscan); [simpl in Hlen; lia|].
           exists (Outside c :: gs). split.
           ++ apply seg_outside; [|exact Hseg].
              unfold block_starts. now rewrite HB.
           ++ cbn [map to_piece]. now rewrite Hscan.
    + intros m. rewrite longtable_match.
      destruct (starts_with begin_longtable s) eqn:HB; [|discriminate].
      destruct (index_of end_longtable (skipn (length begin_longtable) s))
        as [j|] eqn:HE; [|discriminate].
      intros H. inversion H; subst m. cbn [block_match group0].
      apply starts_with_split in HB. rewrite HB. discriminate.
Qed.

(** The table blocks of a text are determined. *)
Lemma segments_unique (s : text) (gs : list segment) :
  segments s gs -> forall gs', segments s gs' -> gs' = gs.
Proof.
  induction 1 as [ | c s gs Hno _ IH | s j gs HB HE n _ IH ]; intros gs' H'.
  - inversion H'; subst; [reflexivity|].
    match goal with H : starts_with begin_longtable [] = true |- _ => discriminate H end.
  - inversion H' as [ | c' s' gs1 _ H1 | s' j' gs1 HB' HE' n' H1 ]; subst.
    + f_equal. now apply IH.
    + exfalso. unfold block_starts in Hno. rewrite HB' in Hno.
      rewrite occurs_index in Hno. apply find_nat in HE'. now rewrite HE' in Hno.
  - inversion H' as [ | c' s' gs1 Hno' H1 | s' j' gs1 HB' HE' n' H1 ]; subst.
    + discriminate HB.
    + exfalso. unfold block_starts in Hno'. rewrite HB in Hno'.
      rewrite occurs_index in Hno'. apply find_nat in HE. now rewrite HE in Hno'.
    + assert (j' = j) by (apply Nat2Z.inj; congruence). subst j'.
      f_equal. now apply IH.
Qed.

(** ** Deleting the matches of a pattern *)

Lemma sub_text_delete (fl : flags) (r : regex) (s : text) :
  sub_text fl r [] s = delete_from fl r None s.
Proof. reflexivity. Qed.

Lemma delete_step (fl : flags) (r : regex) (prev : option ascii) (s : text) :
  (forall m, match_here fl r false prev s = Some m -> group0 m <> []) ->
  delete_from fl r prev s =
  match match_here fl r false prev s with
  | Some m =>
      delete_from fl r (prev_after prev (group0 m))
                  (skipn (length (group0 m)) s)
  | None =>
      match s with
      | [] => []
      | c :: s' => c :: delete_from fl r (Some c) s'
      end
  end.
Proof.
  intros Hne. unfold delete_from. rewrite scan_step by exact Hne.
  destruct (match_here fl r false prev s); [reflexivity|].
  destruct s; reflexivity.
Qed.

(** ** The empty-line pattern *)

Lemma blank_len_none (s : text) : blank_len s = None <-> nl_in_run s = false.
Proof.
  induction s as [|c s IH]; simpl; [tauto|].
  destruct (is_space c); simpl; [|tauto].
  destruct (blank_len s) as [n|].
  - split; [discriminate|]. intros H. apply orb_false_iff in H.
    destruct H as [_ H]. apply IH in H. discriminate.
  - destruct (Ascii.eqb nl c); simpl; [split; discriminate|].
    split; intros _; [now apply IH | reflexivity].
Qed.

(** The match ends in a newline, lies inside the text, and leaves no
    newline in what is left of the whitespace run. *)
Lemma blank_len_some (s : text) :
  forall n, blank_len s = Some n ->
    1 <= n <= length s /\
    prev_after None (firstn n s) = Some nl /\
    nl_in_run (skipn n s) = false.
Proof.
  induction s as [|c s IH]; intros n H; simpl in H; [discriminate|].
  destruct (is_space c) eqn:Hc; [|discriminate].
  destruct (blank_len s) as [k|] eqn:E.
  - inversion H; subst n. destruct (IH k eq_refl) as ((H1 & H2) & H3 & H4).
    simpl length. split; [lia|]. split; [|exact H4].
    destruct k as [|k]; [lia|]. destruct s as [|d s]; [simpl in H2; lia|].
    exact H3.
  - destruct (Ascii.eqb nl c) eqn:Hn; [|discriminate]. inversion H; subst n.
    apply Ascii.eqb_eq in Hn. subst c. simpl. split; [lia|]. split; [reflexivity|].
    now apply blank_len_none.
Qed.

Lemma prev_after_some (prev : option ascii) (w : text) (c : ascii) :
  prev_after None w = Some c -> prev_after prev w = Some c.
Proof.
  revert prev. induction w as [|d w IH]; intros prev H; [discriminate|].
  simpl in *. destruct w as [|e w]; [exact H|]. simpl in *. exact H.
Qed.

Lemma is_space_nl : is_space nl = true.
Proof. reflexivity. Qed.

(** [\s*] followed by a newline: the longest run of whitespace that a
    newline ends. *)
Lemma star_space_nl (R : Type) (K : @cont R) (s : text) :
  (forall p s' cs, K p s' cs <> None) ->
  forall prev,
    star_greedy MULTILINE Space prev s []
      (fun p s' cs' => one MULTILINE (Chr nl) p s' cs' K) =
    match blank_len s with
    | Some n => K (Some nl) (skipn n s) []
    | None => None
    end.
Proof.
  intros HK. induction s as [|c s IH]; intros prev; [reflexivity|].
  cbn [star_greedy blank_len atom_ok]. destruct (is_space c) eqn:Hc.
  - rewrite IH. destruct (blank_len s) as [n|].
    + cbn [skipn]. destruct (K (Some nl) (skipn n s) []) eqn:E; [reflexivity|].
      now apply HK in E.
    + cbn [one atom_ok]. destruct (Ascii.eqb nl c) eqn:Hn; [|reflexivity].
      apply Ascii.eqb_eq in Hn. subst c. reflexivity.
  - cbn [one atom_ok]. destruct (Ascii.eqb nl c) eqn:Hn; [|reflexivity].
    apply Ascii.eqb_eq in Hn. subst c. discriminate.
Qed.

(** Where the empty-line pattern matches, and what. *)
Lemma empty_line_match (prev : option ascii) (s : text) :
  match_here MULTILINE empty_line_re false prev s =
  if at_bol MULTILINE prev then
    match blank_len s with
    | Some n => Some {| group0 := firstn n s; groups := [] |}
    | None => None
    end
  else None.
Proof.
  unfold match_here, empty_line_re. cbn [exec].
  destruct (at_bol MULTILINE prev); [|reflexivity].
  rewrite star_space_nl by (intros; discriminate).
  destruct (blank_len s) as [n|] eqn:E; [|reflexivity].
  apply blank_len_some in E. destruct E as ((_ & Hn) & _).
  cbn [andb]. rewrite length_skipn.
  replace (length s - (length s - n)) with n by lia. reflexivity.
Qed.

(** The text [deleteEmptyLines] leaves holds no blank line that a newline
    ends. [blank] is what is known of the line in progress: when it is all
    whitespace so far and the position is inside it, no newline follows in
    the whitespace ahead. *)
Lemma delete_empty_lines_from (n : nat) :
  forall s prev blank,
    length s <= n ->
    (blank = true -> at_bol MULTILINE prev = false -> nl_in_run s = false) ->
    blank_line_from blank (delete_from MULTILINE empty_line_re prev s) = false.
Proof.
  induction n as [|n IH]; intros s prev blank Hlen Hinv.
  - destruct s; [|simpl in Hlen; lia].
    unfold delete_from. simpl. rewrite empty_line_match.
    destruct (at_bol MULTILINE prev); reflexivity.
  - assert (Step : forall c s', s = c :: s' ->
               (at_bol MULTILINE prev = true -> nl_in_run s = false) ->
               blank_line_from blank
                 (c :: delete_from MULTILINE empty_line_re (Some c) s') = false).
    { intros c s' -> Hrun. cbn [blank_line_from].
      destruct (Ascii.eqb c nl) eqn:Hc.
      - apply Ascii.eqb_eq in Hc. subst c.
        assert (Hb : at_bol MULTILINE prev = false).
        { destruct (at_bol MULTILINE prev); [|reflexivity].
          specialize (Hrun eq_refl). discriminate. }
        destruct blank.
        + specialize (Hinv eq_refl Hb). discriminate.
        + cbn [orb]. apply IH; [simpl in Hlen; lia|]. intros _ H. discriminate.
      - apply IH; [simpl in Hlen; lia|]. intros Hbl _.
        apply andb_true_iff in Hbl. destruct Hbl as [-> Hsp].
        assert (Hr : nl_in_run (c :: s') = false).
        { destruct (at_bol MULTILINE prev) eqn:Hb; auto. }
        cbn [nl_in_run] in Hr. rewrite Hsp in Hr.
        apply orb_false_iff in Hr. tauto. }
    rewrite delete_step.
    + rewrite empty_line_match. destruct (at_bol MULTILINE prev) eqn:Hb.
      * destruct (blank_len s) as [k|] eqn:E.
        -- pose proof (blank_len_some _ _ E) as ((Hk1 & Hk2) & Hnl & _).
           cbn [group0]. rewrite firstn_length_le by exact Hk2.
           apply IH; [rewrite length_skipn; lia|].
           intros _ H. rewrite (prev_after_some prev _ _ Hnl) in H. discriminate.
        -- destruct s as [|c s']; [reflexivity|].
           apply (Step c s' eq_refl). intros _. now apply blank_len_none.
      * destruct s as [|c s']; [reflexivity|].
        apply (Step c s' eq_refl). discriminate.
    + intros m. rewrite empty_line_match.
      destruct (at_bol MULTILINE prev); [|discriminate].
      destruct (blank_len s) as [k|] eqn:E; [|discriminate].
      intros H. inversion H; subst m. cbn [group0].
      apply blank_len_some in E. destruct E as ((Hk1 & Hk2) & _).
      intros Hnil. apply (f_equal (@length ascii)) in Hnil.
      rewrite firstn_length_le in Hnil by exact Hk2. simpl in Hnil. lia.
Qed.

Lemma delete_empty_lines_clean (s : text) :
  has_blank_line (deleteEmptyLines s) = false.
Proof.
  unfold has_blank_line, deleteEmptyLines. rewrite sub_text_delete.
  apply (delete_empty_lines_from (length s)); [lia|]. discriminate.
Qed.

(** ** The wrapper patterns *)




(** Where a literal pattern matches, and what. *)
Lemma lit_match (fl : flags) (l : text) (prev : option ascii) (s : text) :
  match_here fl (lit l) false prev s =
  if starts_with l s then Some {| group0 := l; groups := [] |} else None.
Proof.
  unfold match_here. rewrite exec_lit.
  destruct (starts_with l s) eqn:H; [|reflexivity].
  apply starts_with_split in H. cbn [andb].
  set (r := skipn (length l) s) in *. clearbody r. subst s.
  now rewrite firstn_prefix.
Qed.




(** ** Occurrences *)

Lemma occurs_cons (p : text) (c : ascii) (s : text) :
  occurs p (c :: s) = starts_with p (c :: s) || occurs p s.
Proof.
  rewrite !occurs_index. cbn [index_of].
  destruct (starts_with p (c :: s)); [reflexivity|].
  destruct (index_of p s); reflexivity.
Qed.

Lemma occurs_nil (p : text) : occurs p [] = starts_with p [].
Proof.
  rewrite occurs_index. cbn [index_of]. destruct (starts_with p []); reflexivity.
Qed.

Lemma starts_with_occurs (p s : text) :
  starts_with p s = true -> occurs p s = true.
Proof.
  intros H. destruct s; [now rewrite occurs_nil | now rewrite occurs_cons, H].
Qed.

Lemma occurs_skipn (p : text) (k : nat) :
  forall s, occurs p (skipn k s) = true -> occurs p s = true.
Proof.
  induction k as [|k IH]; intros [|c s] H; auto.
  apply IH in H. rewrite occurs_cons, H. apply orb_true_r.
Qed.

Lemma occurs_app_r (p u s : text) : occurs p s = true -> occurs p (u ++ s) = true.
Proof.
  intros H. apply (occurs_skipn p (length u)). now rewrite skipn_prefix.
Qed.


(** ** What stripping the wrappers leaves *)













(** ** [getColumnSizes] *)

Lemma occurs_find (p s : text) : occurs p s = negb (find s p <? 0)%Z.
Proof.
  unfold occurs. destruct (find s p <? 0)%Z eqn:E; simpl.
  - apply Z.ltb_lt in E. apply Z.leb_gt. exact E.
  - apply Z.ltb_ge in E. apply Z.leb_le. exact E.
Qed.

Lemma mapM_length {A B : Type} (f : A -> result B) (l : list A) :
  forall bs, mapM f l = Ok bs -> length bs = length l.
Proof.
  induction l as [|a l IH]; intros bs H; simpl in H.
  - inversion H. reflexivity.
  - apply bind_ok in H. destruct H as (b & _ & H).
    apply bind_ok in H. destruct H as (bs' & H & E).
    inversion E; subst. simpl. f_equal. now apply IH.
Qed.

(** [getColumnSizes] on a block with a header-end marker, by the columns
    its header declares. *)
Lemma getColumnSizes_header (output : text) (scaleToOne : bool)
    (margin : number) (ratios : option (list number)) :
  occurs endhead output = true ->
  getColumnSizes output scaleToOne margin ratios =
  (cols <- declared_columns output ;;
   match cols with
   | [] => Raise ValueError
   | _ :: _ =>
       widths <- (if truthy ratios then
                    if length (get ratios []) =? length cols
                    then ratio_widths (get ratios [])
                    else Raise AssertionError
                  else Ok (map fst cols)) ;;
       widths <- (if scaleToOne || truthy ratios
                  then rescale margin widths else Ok widths) ;;
       Ok (widths, map snd cols)
   end).
Proof.
  intros H. unfold getColumnSizes, declared_columns, header_region.
  change (T "\endhead") with endhead.
  rewrite occurs_find in H. apply negb_true_iff in H. rewrite H.
  destruct (mapM column_of _) as [cols|e]; [|reflexivity].
  cbn [bind]. rewrite length_map.
  destruct cols as [|col cols]; [reflexivity|].
  cbn [length Nat.eqb].
  destruct (truthy ratios); [|reflexivity].
  destruct (length (get ratios []) =? S (length cols)); reflexivity.
Qed.

Lemma getColumnSizes_no_header (output : text) (scaleToOne : bool)
    (margin : number) (ratios : option (list number)) :
  occurs endhead output = false ->
  getColumnSizes output scaleToOne margin ratios = Ok ([], []).
Proof.
  intros H. unfold getColumnSizes. change (T "\endhead") with endhead.
  rewrite occurs_find in H. apply negb_false_iff in H. now rewrite H.
Qed.

Lemma ratio_widths_length (ratios : list number) (ws : list float) :
  ratio_widths ratios = Ok ws -> length ws = length ratios.
Proof.
  unfold ratio_widths. intros H.
  apply bind_ok in H. destruct H as (t & _ & H).
  apply bind_ok in H. destruct H as (x & _ & H).
  now apply mapM_length in H.
Qed.

Lemma rescale_length (margin : number) (ws ws' : list float) :
  rescale margin ws = Ok ws' -> length ws' = length ws.
Proof.
  unfold rescale. intros H.
  apply bind_ok in H. destruct H as (m & _ & H).
  apply bind_ok in H. destruct H as (x & _ & H).
  inversion H. apply length_map.
Qed.

(** A block with a header-end marker never yields an empty list of
    widths. *)
Lemma getColumnSizes_nonempty (output : text) (scaleToOne : bool)
    (margin : number) (ratios : option (list number))
    (ws : list float) (fs : list (option text)) :
  occurs endhead output = true ->
  getColumnSizes output scaleToOne margin ratios = Ok (ws, fs) ->
  ws <> [].
Proof.
  intros H G. rewrite getColumnSizes_header in G by exact H.
  apply bind_ok in G. destruct G as (cols & _ & G).
  destruct cols as [|col cols]; [discriminate|].
  apply bind_ok in G. destruct G as (w1 & H1 & G).
  apply bind_ok in G. destruct G as (w2 & H2 & G). inversion G; subst w2 fs.
  assert (L1 : length w1 = S (length cols)).
  { destruct (truthy ratios).
    - destruct (length (get ratios []) =? length (col :: cols)) eqn:E; [|discriminate].
      apply Nat.eqb_eq in E. apply ratio_widths_length in H1. simpl in E. lia.
    - inversion H1. simpl. now rewrite length_map. }
  assert (L2 : length ws = length w1).
  { destruct (scaleToOne || truthy ratios).
    - now apply rescale_length in H2.
    - now inversion H2. }
  intros ->. simpl in L2. lia.
Qed.

(** ** The rewriting of one block *)

Lemma postProcessLatexTable_emitted (expand : text -> result text)
    (cfg : config) (m : rmatch) :
  postProcessLatexTable expand cfg m =
  (_ <- getColumnSizes (group0 m) (get (scaleColumnsToFull cfg) false)
                       (get (scaleColumnsToFullMargin cfg) (Float fzero))
                       (columnRatios cfg) ;;
   emitted expand (rowSpacing cfg) (group0 m)).
Proof.
  unfold postProcessLatexTable, emitted.
  destruct (getColumnSizes _ _ _ _); reflexivity.
Qed.

Lemma rewrite_ok (f : text -> result text) (gs : list segment) (b : text) :
  In (Table b) gs -> is_ok (rewrite f gs) = true -> is_ok (f b) = true.
Proof.
  induction gs as [|[c|b'] gs IH]; intros Hin H; simpl in *.
  - contradiction.
  - destruct Hin as [E|Hin]; [discriminate|].
    destruct (rewrite f gs); [auto | discriminate].
  - destruct (f b') eqn:Fb; [|discriminate]. simpl in H.
    destruct Hin as [E|Hin]; [inversion E; subst; now rewrite Fb|].
    destruct (rewrite f gs); [auto | discriminate].
Qed.

(** The rewriter, by the table blocks of the text. *)
Lemma postProcess_segments (expand : text -> result text) (cfg : config)
    (s : text) :
  exists gs,
    segments s gs /\
    postProcessLatexTables expand cfg s =
    rewrite (fun b => postProcessLatexTable expand cfg (block_match b)) gs.
Proof.
  destruct (scan_segments (length s) s None (le_n _)) as (gs & Hseg & Hscan).
  exists gs. split; [exact Hseg|].
  unfold postProcessLatexTables, sub_fun, pieces. rewrite Hscan.
  apply rebuild_segments.
Qed.

(* ================================================================== *)
(** * The properties of the rewriter *)
(* ================================================================== *)

(** C1. [postProcessLatexTables] rewrites the table blocks of a text and
    nothing else. The text is cut into its table blocks, each running from
    a begin marker to the next end marker, read left to right and not
    overlapping, and the characters outside them. The result copies the
    characters outside as they are and puts in place of each block what
    [postProcessLatexTable] makes of that block alone; an exception raised
    for a block is the result of the whole. The cut is the only one. *)
Theorem postProcessLatexTables_frame (expand : text -> result text)
    (cfg : config) (s : text) :
  exists gs,
    segments s gs /\
    (forall gs', segments s gs' -> gs' = gs) /\
    flat_map source gs = s /\
    postProcessLatexTables expand cfg s =
    rewrite (fun b => postProcessLatexTable expand cfg (block_match b)) gs.
Proof.
  destruct (postProcess_segments expand cfg s) as (gs & Hseg & Hpost).
  exists gs. split; [exact Hseg|].
  split; [now apply segments_unique|].
  split; [|exact Hpost]. now apply segments_source.
Qed.

(** C2. A block with a header-end marker never yields an empty list of
    widths: when no width declaration stands before the marker,
    [getColumnSizes] raises ValueError, whatever the options, and the
    rewriting of a text that holds such a block raises too; and whenever
    [getColumnSizes] returns, the widths are not empty and the header does
    hold a declaration. *)
Theorem zero_columns_fail (output : text) :
  occurs endhead output = true ->
  (finditer no_flags width_re (header_region output) = [] ->
   (forall scaleToOne margin ratios,
       getColumnSizes output scaleToOne margin ratios = Raise ValueError) /\
   (forall expand cfg s gs,
       segments s gs -> In (Table output) gs ->
       is_ok (postProcessLatexTables expand cfg s) = false)) /\
  (forall scaleToOne margin ratios ws fs,
      getColumnSizes output scaleToOne margin ratios = Ok (ws, fs) ->
      ws <> [] /\ finditer no_flags width_re (header_region output) <> []).
Proof.
  intros Hhead.
  assert (Hraise : finditer no_flags width_re (header_region output) = [] ->
             forall scaleToOne margin ratios,
               getColumnSizes output scaleToOne margin ratios = Raise ValueError).
  { intros Hnone scaleToOne margin ratios.
    rewrite getColumnSizes_header by exact Hhead.
    unfold declared_columns. now rewrite Hnone. }
  split.
  - intros Hnone. split; [now apply Hraise|].
    intros expand cfg s gs Hseg Hin.
    destruct (postProcess_segments expand cfg s) as (gs' & Hseg' & ->).
    rewrite (segments_unique _ _ Hseg _ Hseg').
    destruct (is_ok (rewrite _ gs)) eqn:E; [|reflexivity].
    apply (rewrite_ok _ _ _ Hin) in E. cbv beta in E.
    rewrite postProcessLatexTable_emitted in E. cbn [block_match group0] in E.
    now rewrite Hraise in E.
  - intros scaleToOne margin ratios ws fs H. split.
    + exact (getColumnSizes_nonempty _ _ _ _ _ _ Hhead H).
    + intros Hnone. rewrite (Hraise Hnone) in H. discriminate.
Qed.

Lemma zero_columns_fail_witness :
  getColumnSizes table_plain true (Float fzero) None = Raise ValueError /\
  is_ok (postProcessLatexTables expand_plain no_options table_plain) = false.
Proof.
  assert (H1 : occurs endhead table_plain = true) by (vm_compute; reflexivity).
  assert (H2 : finditer no_flags width_re (header_region table_plain) = [])
    by (vm_compute; reflexivity).
  destruct (zero_columns_fail table_plain H1) as [G _].
  destruct (G H2) as [G1 G2].
  split; [apply G1|].
  apply (G2 expand_plain no_options table_plain [Table table_plain]);
    [|now left].
  assert (B : starts_with begin_longtable table_plain = true)
    by (vm_compute; reflexivity).
  assert (E : find (skipn (length begin_longtable) table_plain) end_longtable
              = Z.of_nat 70) by (vm_compute; reflexivity).
  exact (seg_table table_plain 70 [] B E seg_nil).
Defined.

Lemma ratios_over_total (total : float) (ratios : list number) :
  fis_zero total = false ->
  forall xs, mapM to_float ratios = Ok xs ->
    mapM (fun c => x <- to_float c ;; fdiv x total) ratios =
    Ok (map (fun x => fquot x total) xs).
Proof.
  intros Hz. induction ratios as [|c ratios IH]; intros xs H; simpl in H.
  - inversion H. reflexivity.
  - apply bind_ok in H. destruct H as (x & Hx & H).
    apply bind_ok in H. destruct H as (xs' & Hxs & H). inversion H; subst xs.
    cbn [mapM map]. rewrite Hx. cbn [bind]. unfold fdiv at 1. rewrite Hz.
    cbn [bind]. now rewrite (IH xs' Hxs).
Qed.

(** C3. With column ratios as many as the declared columns,
    [getColumnSizes] returns, whatever the scale flag and the declared
    widths, each ratio divided by the float of the sum of the ratios, then
    every such width multiplied by (1 - margin) over their sum, in Python's
    arithmetic: a zero divisor and an int too large for a float raise, and
    otherwise the widths are the ones of the formula. *)
Theorem column_ratios_widths (output : text) (scaleToOne : bool)
    (margin : number) (ratios : list number)
    (cols : list (float * option text)) :
  occurs endhead output = true ->
  declared_columns output = Ok cols ->
  cols <> [] ->
  length ratios = length cols ->
  getColumnSizes output scaleToOne margin (Some ratios) =
  (totalWidth <- sum ratios ;;
   total <- to_float totalWidth ;;
   widths <- mapM (fun c => x <- to_float c ;; fdiv x total) ratios ;;
   m <- to_float margin ;;
   scale <- fdiv (fsub fone m) (fsum widths) ;;
   Ok (map (fun w => fmul w scale) widths, map snd cols)) /\
  (forall totalWidth total xs m,
      sum ratios = Ok totalWidth ->
      to_float totalWidth = Ok total ->
      fis_zero total = false ->
      mapM to_float ratios = Ok xs ->
      to_float margin = Ok m ->
      let widths := map (fun x => fquot x total) xs in
      fis_zero (fsum widths) = false ->
      getColumnSizes output scaleToOne margin (Some ratios) =
      Ok (map (fun w => fmul w (fquot (fsub fone m) (fsum widths))) widths,
          map snd cols)).
Proof.
  intros Hhead Hcols Hne Hlen.
  assert (E : getColumnSizes output scaleToOne margin (Some ratios) =
    (totalWidth <- sum ratios ;;
     total <- to_float totalWidth ;;
     widths <- mapM (fun c => x <- to_float c ;; fdiv x total) ratios ;;
     m <- to_float margin ;;
     scale <- fdiv (fsub fone m) (fsum widths) ;;
     Ok (map (fun w => fmul w scale) widths, map snd cols))).
  { rewrite getColumnSizes_header by exact Hhead. rewrite Hcols. cbn [bind].
    destruct cols as [|col cols]; [contradiction|].
    destruct ratios as [|c ratios]; [discriminate|].
    cbn [truthy get]. rewrite Hlen, Nat.eqb_refl, orb_true_r.
    unfold ratio_widths, rescale.
    destruct (sum (c :: ratios)) as [t|]; [|reflexivity]. cbn [bind].
    destruct (to_float t) as [x|]; [|reflexivity]. cbn [bind].
    destruct (mapM _ (c :: ratios)) as [ws|]; [|reflexivity]. cbn [bind].
    destruct (to_float margin) as [m|]; [|reflexivity]. cbn [bind].
    destruct (fdiv _ _); reflexivity. }
  split; [exact E|].
  intros totalWidth total xs m Hsum Htot Hz Hxs Hm widths Hw.
  rewrite E, Hsum. cbn [bind]. rewrite Htot. cbn [bind].
  rewrite (ratios_over_total total ratios Hz xs Hxs). cbn [bind].
  rewrite Hm. cbn [bind]. fold widths. unfold fdiv. rewrite Hw. reflexivity.
Qed.

Lemma column_ratios_widths_witness :
  getColumnSizes table_3 false (Float fzero) (Some [Int 3; Int 3; Int 2]) =
  Ok ([dec "0.375"; dec "0.375"; dec "0.25"],
      [Some (T "\raggedright\arraybackslash");
       Some (T "\raggedright\arraybackslash");
       Some (T "\raggedright\arraybackslash")]).
Proof.
  assert (H1 : occurs endhead table_3 = true) by (vm_compute; reflexivity).
  assert (H2 : declared_columns table_3 =
               Ok [(dec "0.2", Some (T "\raggedright\arraybackslash"));
                   (dec "0.3", Some (T "\raggedright\arraybackslash"));
                   (dec "0.5", Some (T "\raggedright\arraybackslash"))])
    by (vm_compute; reflexivity).
  destruct (column_ratios_widths table_3 false (Float fzero)
              [Int 3; Int 3; Int 2] _ H1 H2) as [_ G];
    [discriminate | reflexivity |].
  rewrite (G (Int 8) (dec "8") [dec "3"; dec "3"; dec "2"] fzero);
    vm_compute; reflexivity.
Defined.




(** Where nothing overflows the sum is still not exact: declared widths 1
    and 2 have the positive sum 3; scaled with margin 0.1 they become 0.3
    and 0.6, whose sum is 0.8999999999999999 and not 1 - 0.1 = 0.9. *)
Lemma scaled_sum_not_exact :
  SFltb fzero (fsum [dec "1"; dec "2"]) = true /\
  getColumnSizes table_12 true (Float (dec "0.1")) None =
  Ok ([dec "0.3"; dec "0.6"],
      [Some (T "\raggedright\arraybackslash");
       Some (T "\raggedright\arraybackslash")]) /\
  fsum [dec "0.3"; dec "0.6"] = dec "0.8999999999999999" /\
  fsub fone (dec "0.1") = dec "0.9" /\
  SFeqb (fsum [dec "0.3"; dec "0.6"]) (fsub fone (dec "0.1")) = false.
Proof. vm_compute. repeat split; reflexivity. Qed.

(** C5, as the code has it. A block without header-end marker makes
    [getColumnSizes] return empty widths and formats, whatever the options,
    column ratios included: the ratio check is not reached, and the block
    is rewritten like any other. *)
Theorem no_header_is_skipped (output : text) :
  occurs endhead output = false ->
  (forall scaleToOne margin ratios,
      getColumnSizes output scaleToOne margin ratios = Ok ([], [])) /\
  (forall expand cfg m,
      group0 m = output ->
      postProcessLatexTable expand cfg m =
      emitted expand (rowSpacing cfg) output).
Proof.
  intros H. split.
  - intros. now apply getColumnSizes_no_header.
  - intros expand cfg m <-. rewrite postProcessLatexTable_emitted.
    now rewrite getColumnSizes_no_header.
Qed.

Lemma no_header_is_skipped_witness :
  getColumnSizes table_headless true (Float fzero) (Some [Int 1; Int 1]) =
  Ok ([], []) /\
  postProcessLatexTable expand_plain with_ratios (block_match table_headless) =
  Ok table_headless.
Proof.
  assert (H : occurs endhead table_headless = false) by (vm_compute; reflexivity).
  destruct (no_header_is_skipped table_headless H) as [G1 G2].
  split; [apply G1|].
  rewrite (G2 expand_plain with_ratios (block_match table_headless) eq_refl).
  vm_compute. reflexivity.
Defined.

(** C5 as stated fails: with column ratios configured, a block without
    header-end marker is not refused; the rewriter returns it. *)
Lemma ratios_without_header_pass :
  columnRatios with_ratios = Some [Int 1; Int 1] /\
  occurs endhead table_headless = false /\
  getColumnSizes table_headless false (Float fzero) (columnRatios with_ratios) =
  Ok ([], []) /\
  postProcessLatexTables expand_plain with_ratios table_headless =
  Ok table_headless.
Proof. vm_compute. repeat split; reflexivity. Qed.

(** C6, as the code has it. Column ratios that are not empty and differ in
    number from the declared columns make [getColumnSizes] raise
    AssertionError, and with it the rewriting of the block. An empty list
    of column ratios is not checked: [getColumnSizes] returns with it what
    it returns without column ratios, whatever the scale flag and the
    margin are, which is the declared widths when the scale flag is not
    set. *)
Theorem ratio_count_mismatch_fails (output : text) (scaleToOne : bool)
    (margin : number) (ratios : list number)
    (cols : list (float * option text)) :
  occurs endhead output = true ->
  declared_columns output = Ok cols ->
  cols <> [] ->
  ratios <> [] ->
  length ratios <> length cols ->
  getColumnSizes output scaleToOne margin (Some ratios) = Raise AssertionError /\
  (forall expand cfg,
      columnRatios cfg = Some ratios ->
      postProcessLatexTable expand cfg (block_match output) =
      Raise AssertionError) /\
  (forall sc mg,
      getColumnSizes output sc mg (Some []) = getColumnSizes output sc mg None) /\
  getColumnSizes output false margin (Some []) = Ok (map fst cols, map snd cols).
Proof.
  intros Hhead Hcols Hne Hr Hlen.
  assert (E : forall sc mg,
             getColumnSizes output sc mg (Some []) =
             getColumnSizes output sc mg None).
  { intros sc mg. now rewrite !getColumnSizes_header by exact Hhead. }
  assert (D : getColumnSizes output false margin (Some []) =
              Ok (map fst cols, map snd cols)).
  { rewrite getColumnSizes_header by exact Hhead. rewrite Hcols. cbn [bind].
    destruct cols as [|col cols]; [contradiction | reflexivity]. }
  refine ((fun G => conj (proj1 G) (conj (proj2 G) (conj E D))) _).
  assert (G : forall sc mg,
             getColumnSizes output sc mg (Some ratios) = Raise AssertionError).
  { intros sc mg. rewrite getColumnSizes_header by exact Hhead.
    rewrite Hcols. cbn [bind].
    destruct cols as [|col cols]; [contradiction|].
    destruct ratios as [|c ratios]; [contradiction|].
    cbn [truthy get]. apply Nat.eqb_neq in Hlen. now rewrite Hlen. }
  split; [apply G|].
  intros expand cfg Hcfg. rewrite postProcessLatexTable_emitted.
  cbn [block_match group0]. now rewrite Hcfg, G.
Qed.

Lemma ratio_count_mismatch_fails_witness :
  getColumnSizes table_3 false (Float fzero) (Some [Int 1; Int 1]) =
  Raise AssertionError /\
  postProcessLatexTable expand_plain with_ratios (block_match table_3) =
  Raise AssertionError.
Proof.
  assert (H1 : occurs endhead table_3 = true) by (vm_compute; reflexivity).
  assert (H2 : declared_columns table_3 =
               Ok [(dec "0.2", Some (T "\raggedright\arraybackslash"));
                   (dec "0.3", Some (T "\raggedright\arraybackslash"));
                   (dec "0.5", Some (T "\raggedright\arraybackslash"))])
    by (vm_compute; reflexivity).
  destruct (ratio_count_mismatch_fails table_3 false (Float fzero)
              [Int 1; Int 1] _ H1 H2) as (G1 & G2 & _);
    [discriminate | discriminate | discriminate |].
  split; [exact G1 | now apply G2].
Defined.

(** C6 as stated fails: an empty list of column ratios differs in length
    from the three declared columns, and [getColumnSizes] returns the
    declared widths; with the scale flag set it does not fail either, and
    returns the declared widths 1 and 2 of another block rescaled. *)
Lemma empty_ratios_pass :
  (length (@nil number) =? 3) = false /\
  getColumnSizes table_3 false (Float fzero) (Some []) =
  Ok ([dec "0.2"; dec "0.3"; dec "0.5"],
      [Some (T "\raggedright\arraybackslash");
       Some (T "\raggedright\arraybackslash");
       Some (T "\raggedright\arraybackslash")]) /\
  (length (@nil number) =? 2) = false /\
  getColumnSizes table_12 true (Float fzero) (Some []) =
  Ok ([dec "0.3333333333333333"; dec "0.6666666666666666"],
      [Some (T "\raggedright\arraybackslash");
       Some (T "\raggedright\arraybackslash")]).
Proof. vm_compute. repeat split; reflexivity. Qed.

(** C7. The markup written for a block does not depend on the widths and
    formats: [setColumnFormat] returns the same text for any two pairs of
    them, and two configurations with the same row spacing, whatever their
    scale flag, margin and column ratios, emit the same text for a block
    whenever both emit one. *)
Theorem markup_ignores_widths (expand : text -> result text)
    (cfg1 cfg2 : config) (m : rmatch) (t1 t2 : text) :
  rowSpacing cfg1 = rowSpacing cfg2 ->
  postProcessLatexTable expand cfg1 m = Ok t1 ->
  postProcessLatexTable expand cfg2 m = Ok t2 ->
  t1 = t2 /\
  (forall output w1 f1 w2 f2,
      setColumnFormat output w1 f1 = setColumnFormat output w2 f2).
Proof.
  intros Hsp H1 H2. split; [|reflexivity].
  rewrite postProcessLatexTable_emitted in H1, H2.
  apply bind_ok in H1. destruct H1 as (_ & _ & H1).
  apply bind_ok in H2. destruct H2 as (_ & _ & H2).
  rewrite Hsp in H1. congruence.
Qed.

Lemma markup_ignores_widths_witness :
  postProcessLatexTable expand_plain with_scale (block_match table_11) =
  postProcessLatexTable expand_plain with_ratios (block_match table_11).
Proof.
  destruct (postProcessLatexTable expand_plain with_scale (block_match table_11))
    as [t1|] eqn:E1; [|vm_compute in E1; discriminate E1].
  destruct (postProcessLatexTable expand_plain with_ratios (block_match table_11))
    as [t2|] eqn:E2; [|vm_compute in E2; discriminate E2].
  f_equal.
  exact (proj1 (markup_ignores_widths expand_plain with_scale with_ratios
                  (block_match table_11) t1 t2 eq_refl E1 E2)).
Defined.

(** ** The wrappers, line by line *)









(** C9, as the code has it. The text [deleteEmptyLines] returns, and so
    every rewritten table block, holds no empty or all-whitespace line that
    a newline ends. *)
Theorem no_blank_line_in_block :
  (forall s, has_blank_line (deleteEmptyLines s) = false) /\
  (forall expand cfg m,
      match postProcessLatexTable expand cfg m with
      | Ok t => has_blank_line t = false
      | Raise _ => True
      end).
Proof.
  split; [exact delete_empty_lines_clean|].
  intros expand cfg m. rewrite postProcessLatexTable_emitted.
  destruct (getColumnSizes _ _ _ _); [|exact I]. cbn [bind]. unfold emitted.
  destruct (if truthy (rowSpacing cfg) then _ else _); [|exact I].
  cbn [bind]. apply delete_empty_lines_clean.
Qed.

(** C9 as stated fails: a blank line outside the table blocks is in the
    text the rewriter returns. *)
Lemma blank_line_outside_kept :
  has_blank_line document = true /\
  exists out,
    postProcessLatexTables expand_plain no_options document = Ok out /\
    has_blank_line out = true.
Proof.
  split; [vm_compute; reflexivity|].
  eexists. split; vm_compute; reflexivity.
Qed.

(** C10. The entry point runs the configuration groups one after the
    other whatever the parallel flag of the command line: it calls [run]
    with [parallel=False], so what it does is the same for both values of
    the flag and holds no submission to a process pool. *)
Theorem main_is_sequential (a : args) (loaded : list config) :
  main a loaded = run loaded (root_dir a) (data_dir a) false /\
  main a loaded =
  SetEnvironment (data_dir a) :: LoadPandocDefault (data_dir a)
    :: map (fun c => ConvertTablesOf c (root_dir a) (data_dir a)) loaded /\
  existsb is_pool (main a loaded) = false /\
  (forall p,
      main {| data_dir := data_dir a; root_dir := root_dir a;
              config_file := config_file a; parallel := p |} loaded =
      main a loaded).
Proof.
  split; [reflexivity|]. split; [reflexivity|]. split; [|reflexivity].
  unfold main, run. cbn [existsb is_pool orb].
  induction loaded as [|c l IH]; [reflexivity | exact IH].
Qed.

(** With the flag given on the command line or not, one group is converted
    after the other. *)
Example main_with_parallel_flag :
  main (some_args true) [with_scale; with_ratios] =
  [SetEnvironment (T "tools/convert"); LoadPandocDefault (T "tools/convert");
   ConvertTablesOf with_scale (T ".") (T "tools/convert");
   ConvertTablesOf with_ratios (T ".") (T "tools/convert")].
Proof. reflexivity. Qed.

(** ** More on the rewriter *)

Lemma hits_none_source (t : text) (ps : list piece) :
  hits ps = [] ->
  flat_map (fun p => match p with Gap c => [c] | Hit _ => t end) ps =
  flat_map piece_source ps.
Proof.
  induction ps as [|[c|m] ps IH]; intros H; simpl in *.
  - reflexivity.
  - now rewrite IH.
  - discriminate.
Qed.

(** X1. A substitution whose pattern matches nowhere returns the text as
    it is, whatever the pattern and the replacement. *)
Theorem sub_without_match (fl : flags) (r : regex) (t s : text) :
  finditer fl r s = [] -> sub_text fl r t s = s.
Proof.
  unfold finditer, sub_text. intros H.
  rewrite (hits_none_source t _ H). apply pieces_source.
Qed.

Lemma sub_without_match_witness :
  sub_text no_flags end_minipage_re [] table_plain = table_plain.
Proof.
  apply (sub_without_match no_flags end_minipage_re [] table_plain).
  vm_compute. reflexivity.
Defined.

Lemma segments_no_begin (s : text) (gs : list segment) :
  segments s gs -> occurs begin_longtable s = false -> gs = map Outside s.
Proof.
  induction 1 as [ | c s gs _ _ IH | s j gs HB _ n _ _ ]; intros H.
  - reflexivity.
  - rewrite occurs_cons in H. apply orb_false_iff in H. destruct H as [_ H].
    simpl. f_equal. now apply IH.
  - apply starts_with_occurs in HB. congruence.
Qed.

Lemma rewrite_outside (f : text -> result text) (s : text) :
  rewrite f (map Outside s) = Ok s.
Proof.
  induction s as [|c s IH]; simpl; [reflexivity | now rewrite IH].
Qed.

(** X2. A text that holds no begin marker of a table is returned as it
    is, whatever the options. *)
Theorem no_table_unchanged (expand : text -> result text) (cfg : config)
    (s : text) :
  occurs begin_longtable s = false ->
  postProcessLatexTables expand cfg s = Ok s.
Proof.
  intros H. destruct (postProcess_segments expand cfg s) as (gs & Hseg & ->).
  rewrite (segments_no_begin _ _ Hseg H). apply rewrite_outside.
Qed.

Lemma no_table_unchanged_witness :
  postProcessLatexTables expand_plain with_ratios
    (unlines ["Intro."; ""; "Text."]%string) =
  Ok (unlines ["Intro."; ""; "Text."]%string).
Proof.
  apply (no_table_unchanged expand_plain with_ratios).
  vm_compute. reflexivity.
Defined.

(** X3. Without scale flag and without column ratios, [getColumnSizes]
    returns the declared widths and formats as they are, in the order of
    the declarations. *)
Theorem declared_widths_pass_through (output : text) (margin : number)
    (ratios : option (list number)) (cols : list (float * option text)) :
  occurs endhead output = true ->
  declared_columns output = Ok cols ->
  cols <> [] ->
  truthy ratios = false ->
  getColumnSizes output false margin ratios = Ok (map fst cols, map snd cols).
Proof.
  intros Hhead Hcols Hne Hr.
  rewrite getColumnSizes_header by exact Hhead. rewrite Hcols. cbn [bind].
  destruct cols as [|col cols]; [contradiction|].
  rewrite Hr. reflexivity.
Qed.

Lemma declared_widths_pass_through_witness :
  getColumnSizes (table_of ["2"; "1"; "1"]%string) false (Float fzero) None =
  Ok ([dec "2.0"; dec "1.0"; dec "1.0"],
      [Some (T "\raggedright\arraybackslash");
       Some (T "\raggedright\arraybackslash");
       Some (T "\raggedright\arraybackslash")]).
Proof.
  assert (H1 : occurs endhead (table_of ["2"; "1"; "1"]%string) = true)
    by (vm_compute; reflexivity).
  assert (H2 : declared_columns (table_of ["2"; "1"; "1"]%string) =
               Ok [(dec "2", Some (T "\raggedright\arraybackslash"));
                   (dec "1", Some (T "\raggedright\arraybackslash"));
                   (dec "1", Some (T "\raggedright\arraybackslash"))])
    by (vm_compute; reflexivity).
  rewrite (declared_widths_pass_through _ (Float fzero) None _ H1 H2);
    [vm_compute; reflexivity | discriminate | reflexivity].
Defined.

(** ** The row spacing *)

Lemma clamp_index_in (n i : Z) : (0 <= i <= n)%Z -> clamp_index n i = i.
Proof. intros H. unfold clamp_index. destruct (i <? 0)%Z eqn:E; lia. Qed.

Lemma slice_nat (s : text) (a b : nat) :
  a <= b <= length s ->
  slice s (Z.of_nat a) (Z.of_nat b) = firstn (b - a) (skipn a s).
Proof.
  intros H. unfold slice, len. rewrite !clamp_index_in by lia.
  rewrite <- Nat2Z.inj_sub by lia. now rewrite !Nat2Z.id.
Qed.

Lemma slice_from_nat (s : text) (b : nat) :
  b <= length s -> slice_from s (Z.of_nat b) = skipn b s.
Proof.
  intros H. unfold slice_from, len. rewrite clamp_index_in by lia.
  now rewrite Nat2Z.id.
Qed.

(** X4. When the header-end marker is found and the footer marker is found
    behind it, [setLatexSpacing] touches the body between them only: the
    text through the first header-end marker and the text from the first
    footer marker on are copied, and in the body every row separator is
    replaced by the expansion of the spacing template. *)
Theorem spacing_in_body_only (expand : text -> result text)
    (output spacing : text) (i j : nat) :
  find output endhead = Z.of_nat i ->
  find output (T "\bottomrule") = Z.of_nat j ->
  i + length endhead <= j ->
  let start := i + length endhead in
  let head := firstn start output in
  let body := firstn (j - start) (skipn start output) in
  let tail := skipn j output in
  output = head ++ body ++ tail /\
  setLatexSpacing expand output spacing =
  (repl <- expand (T "\\tabularnewline\\addlinespace[" ++ spacing ++ T "]") ;;
   Ok (head ++ sub_text no_flags tabularnewline_re repl body ++ tail)).
Proof.
  intros Hi Hj Hij start head body tail.
  assert (Hjl : j <= length output).
  { apply find_nat in Hj. now apply index_of_starts in Hj. }
  split.
  - unfold head, body, tail.
    rewrite <- (firstn_skipn start output) at 1. f_equal.
    rewrite <- (firstn_skipn (j - start) (skipn start output)) at 1. f_equal.
    rewrite skipn_skipn. f_equal. unfold start in *. lia.
  - unfold setLatexSpacing. change (T "\endhead") with endhead.
    rewrite Hi, Hj. unfold len. rewrite <- Nat2Z.inj_add. fold start.
    change 0%Z with (Z.of_nat 0).
    rewrite !slice_nat, slice_from_nat by (unfold start in *; lia).
    rewrite Nat.sub_0_r. unfold getStretchRegexes. cbn [sub_each].
    destruct (expand _); reflexivity.
Qed.

Lemma spacing_in_body_only_witness :
  setLatexSpacing expand_plain
    (unlines ["\endhead"; "a \tabularnewline"; "\bottomrule";
              "\tabularnewline"]%string)
    (T "2pt") =
  Ok (unlines ["\endhead"; "a \tabularnewline\addlinespace[2pt]";
               "\bottomrule"; "\tabularnewline"]%string).
Proof.
  destruct (spacing_in_body_only expand_plain
              (unlines ["\endhead"; "a \tabularnewline"; "\bottomrule";
                        "\tabularnewline"]%string)
              (T "2pt") 0 27) as [_ H];
    [vm_compute; reflexivity | vm_compute; reflexivity | simpl; lia |].
  rewrite H. vm_compute. reflexivity.
Defined.

(** ** Examples behind the amended claims *)

(** A whitespace-only last line that no newline ends is kept by
    [deleteEmptyLines]; a block gets one when a begin-wrapper marker takes
    the end marker of the table with the rest of its line. *)
Example unterminated_blank_line_kept :
  deleteEmptyLines (unlines ["x"; "   "]%string) = unlines ["x"; "   "]%string /\
  postProcessLatexTables expand_plain no_options
    (unlines ["\begin{longtable}"; "  \begin{minipage}\end{longtable}"]%string) =
  Ok (unlines ["\begin{longtable}"; "  "]%string).
Proof. vm_compute. split; reflexivity. Qed.

(** Rounding also moves the ratios: declared widths 1 and 3 scaled with
    margin 0.05 become 0.2375 and 0.7124999999999999, whose quotient is not
    that of 1 and 3. *)
Example scaled_ratio_not_exact :
  getColumnSizes (table_of ["1"; "3"]%string) true (Float (dec "0.05")) None =
  Ok ([dec "0.2375"; dec "0.7124999999999999"],
      [Some (T "\raggedright\arraybackslash");
       Some (T "\raggedright\arraybackslash")]) /\
  SFeqb (fquot (dec "0.2375") (dec "0.7124999999999999"))
        (fquot (dec "1") (dec "3")) = false.
Proof. vm_compute. split; reflexivity. Qed.

(** ** What the width pattern captures *)

Section LanguageFacts.

Variable fl : flags.
Variable R : Type.

Lemma star_greedy_lang (a : atom) (s : text) :
  forall prev cs (k : @cont R) x,
    star_greedy fl a prev s cs k = Some x ->
    exists w s', s = w ++ s' /\ forallb (atom_ok fl a) w = true /\
                 k (prev_after prev w) s' cs = Some x.
Proof.
  induction s as [|c s IH]; intros prev cs k x H; simpl in H.
  - exists [], []. auto.
  - destruct (atom_ok fl a c) eqn:Hc.
    + destruct (star_greedy fl a (Some c) s cs k) as [y|] eqn:E.
      * inversion H; subst y. apply IH in E.
        destruct E as (w & s' & -> & Hw & Hk).
        exists (c :: w), s'. simpl. rewrite Hc, Hw. auto.
      * exists [], (c :: s). auto.
    + exists [], (c :: s). auto.
Qed.

Lemma star_lazy_lang (a : atom) (s : text) :
  forall prev cs (k : @cont R) x,
    star_lazy fl a prev s cs k = Some x ->
    exists w s', s = w ++ s' /\ forallb (atom_ok fl a) w = true /\
                 k (prev_after prev w) s' cs = Some x.
Proof.
  induction s as [|c s IH]; intros prev cs k x H; simpl in H.
  - destruct (k prev [] cs) eqn:E; [|discriminate].
    exists [], []. inversion H; subst. auto.
  - destruct (k prev (c :: s) cs) eqn:E.
    + inversion H; subst. exists [], (c :: s). auto.
    + destruct (atom_ok fl a c) eqn:Hc; [|discriminate].
      apply IH in H. destruct H as (w & s' & -> & Hw & Hk).
      exists (c :: w), s'. simpl. rewrite Hc, Hw. auto.
Qed.

Lemma one_lang (a : atom) (prev : option ascii) (s : text) (cs : caps)
    (k : @cont R) (x : R) :
  one fl a prev s cs k = Some x ->
  exists c s', s = c :: s' /\ atom_ok fl a c = true /\ k (Some c) s' cs = Some x.
Proof.
  destruct s as [|c s]; simpl; [discriminate|].
  destruct (atom_ok fl a c) eqn:Hc; [|discriminate]. eauto.
Qed.

(** What a pattern without group has read when the matcher returns is a
    text of its language, and the groups are as they were. *)
Lemma exec_lang (r : regex) :
  groupless r = true ->
  forall prev s cs (k : @cont R) x,
    exec fl r prev s cs k = Some x ->
    exists w s', s = w ++ s' /\ lang fl r w /\
                 k (prev_after prev w) s' cs = Some x.
Proof.
  induction r as [ | a | | a | a | a | r IH | n r IH | r1 IH1 r2 IH2 ];
    intros G prev s cs k x H; simpl in H, G.
  - exists [], s. simpl. auto.
  - apply one_lang in H. destruct H as (c & s' & -> & Hc & Hk).
    exists [c], s'. simpl. eauto.
  - destruct (at_bol fl prev); [|discriminate]. exists [], s. simpl. auto.
  - apply star_greedy_lang in H. destruct H as (w & s' & -> & Hw & Hk).
    exists w, s'. auto.
  - apply star_lazy_lang in H. destruct H as (w & s' & -> & Hw & Hk).
    exists w, s'. auto.
  - apply one_lang in H. destruct H as (c & s1 & -> & Hc & Hk).
    apply star_greedy_lang in Hk. destruct Hk as (w & s' & -> & Hw & Hk').
    exists (c :: w), s'. simpl. rewrite Hc, Hw. repeat split; auto. discriminate.
  - destruct (exec fl r prev s cs k) as [y|] eqn:E.
    + inversion H; subst y. apply (IH G) in E.
      destruct E as (w & s' & -> & Hw & Hk). exists w, s'. simpl. auto.
    + exists [], s. simpl. auto.
  - discriminate.
  - apply andb_true_iff in G. destruct G as [G1 G2].
    apply (IH1 G1) in H. destruct H as (w1 & s1 & -> & Hw1 & Hk).
    apply (IH2 G2) in Hk. destruct Hk as (w2 & s2 & -> & Hw2 & Hk').
    exists (w1 ++ w2), s2. rewrite prev_after_app, app_assoc. simpl.
    repeat split; eauto.
Qed.

End LanguageFacts.

Lemma span_digits_all (d r : text) :
  forallb is_digit d = true ->
  span_digits (d ++ r) = (d ++ fst (span_digits r), snd (span_digits r)).
Proof.
  induction d as [|c d IH]; intros H; simpl in *.
  - now destruct (span_digits r).
  - apply andb_true_iff in H. destruct H as [Hc H]. rewrite Hc, IH by exact H.
    reflexivity.
Qed.

Lemma span_digits_nil : span_digits [] = ([], []).
Proof. reflexivity. Qed.

(** [float] accepts every decimal numeral. *)
Lemma float_of_numeral (w : text) :
  lang no_flags numeral w -> exists x, float_of_text w = Ok x.
Proof.
  intros (d & r & -> & (Hd & Hdig) & Hr). unfold float_of_text.
  change (atom_ok no_flags Digit) with is_digit in Hdig.
  destruct Hr as [-> | (p & e & -> & (c & -> & Hc) & (He & Hedig))].
  - rewrite span_digits_all, span_digits_nil by exact Hdig. simpl.
    rewrite app_nil_r. destruct d; [contradiction | eauto].
  - change (atom_ok no_flags Digit) with is_digit in Hedig.
    cbn [atom_ok] in Hc. apply Ascii.eqb_eq in Hc. subst c.
    rewrite span_digits_all by exact Hdig.
    cbn [app span_digits]. change (is_digit "."%char) with false.
    cbn [fst snd]. rewrite app_nil_r.
    destruct d as [|d0 d]; [contradiction|]. cbn [app].
    rewrite Ascii.eqb_refl.
    replace e with (e ++ []) by apply app_nil_r.
    rewrite span_digits_all, span_digits_nil by exact Hedig.
    cbn [fst snd]. rewrite !app_nil_r.
    destruct e; [contradiction | eauto].
Qed.

Lemma exec_seq_sound (fl : flags) (R : Type) (r1 r2 : regex)
    (prev : option ascii) (s : text) (cs : caps) (k : @cont R) (x : R) :
  exec fl (Seq r1 r2) prev s cs k = Some x ->
  exists prev' s' cs', exec fl r2 prev' s' cs' k = Some x.
Proof.
  cbn [exec]. intros H. apply exec_sound in H.
  destruct H as (w & s' & cs' & _ & H). eauto.
Qed.

Lemma exec_group_seq (fl : flags) (R : Type) (n : nat) (r1 r2 : regex)
    (prev : option ascii) (s : text) (cs : caps) (k : @cont R) :
  exec fl (Seq (Group n r1) r2) prev s cs k =
  exec fl r1 prev s cs
       (fun p' s' cs' =>
          exec fl r2 p' s' ((n, firstn (length s - length s') s) :: cs') k).
Proof. reflexivity. Qed.

(** Every match of the width pattern has a second group, and it is a
    decimal numeral. *)
Lemma width_match_group (adv : bool) (prev : option ascii) (s : text)
    (m : rmatch) :
  match_here no_flags width_re adv prev s = Some m ->
  exists t, group m 2 = Some t /\ lang no_flags numeral t.
Proof.
  unfold match_here, width_re. fold numeral. intros H.
  do 7 (apply exec_seq_sound in H; destruct H as (? & ? & ? & H)).
  rewrite exec_group_seq in H. apply exec_lang in H; [|reflexivity].
  destruct H as (w & s' & E & Hw & H). rewrite E, firstn_prefix in H.
  rewrite exec_lit in H. destruct (starts_with _ s'); [|discriminate].
  destruct (adv && _); [discriminate|]. inversion H; subst m.
  exists w. split; [reflexivity | exact Hw].
Qed.

(** Every match a scan finds is one [match_here] returned. *)
Lemma scan_hits (fl : flags) (r : regex) (s : text) :
  forall prev n m,
    In m (hits (scan fl r prev s n)) ->
    exists adv prev' s', match_here fl r adv prev' s' = Some m.
Proof.
  induction s as [|c s IH]; intros prev n m H.
  - destruct n as [|n]; simpl in H; [|contradiction].
    destruct (match_here fl r false prev []) as [m0|] eqn:E; [|contradiction].
    destruct (length (group0 m0)); simpl in H.
    + destruct H as [<-|H]; [eauto|].
      destruct (match_here fl r true prev []) as [m1|] eqn:E1; [|contradiction].
      simpl in H. destruct H as [<-|[]]. eauto.
    + destruct H as [<-|[]]. eauto.
  - destruct n as [|n]; simpl in H; [|now apply IH in H].
    destruct (match_here fl r false prev (c :: s)) as [m0|] eqn:E.
    + destruct (length (group0 m0)); simpl in H.
      * destruct H as [<-|H]; [eauto|].
        destruct (match_here fl r true prev (c :: s)) as [m1|] eqn:E1.
        -- simpl in H. destruct H as [<-|H]; [eauto | now apply IH in H].
        -- simpl in H. now apply IH in H.
      * destruct H as [<-|H]; [eauto | now apply IH in H].
    + simpl in H. now apply IH in H.
Qed.

Lemma mapM_total {A B : Type} (f : A -> result B) (l : list A) :
  (forall a, In a l -> exists b, f a = Ok b) -> exists bs, mapM f l = Ok bs.
Proof.
  induction l as [|a l IH]; intros H; simpl; [eauto|].
  destruct (H a (or_introl eq_refl)) as [b ->].
  destruct IH as [bs ->]; [intros; apply H; now right|]. simpl. eauto.
Qed.

(** X5. The loop of [getColumnSizes] never raises: [float] accepts what
    the second group of the width pattern matched, on every text. *)
Theorem declared_columns_total (s : text) :
  exists cols, mapM column_of (finditer no_flags width_re s) = Ok cols.
Proof.
  apply mapM_total. intros m Hm. unfold finditer, pieces in Hm.
  apply scan_hits in Hm. destruct Hm as (adv & prev & s' & Hm).
  apply width_match_group in Hm. destruct Hm as (t & Ht & Hl).
  unfold column_of. rewrite Ht.
  destruct (float_of_numeral _ Hl) as [x ->]. simpl. eauto.
Qed.

(* ================================================================== *)
(** * More on the rewriter *)
(* ================================================================== *)

(** ** The column sizes *)

(** X6. The widths and the formats [getColumnSizes] returns are aligned:
    the two lists have the same length. Without header-end marker both are
    empty; with one, the formats are those of the declared columns, in
    order, there is one width for each declared column, and there is at
    least one column. *)
Theorem column_sizes_aligned (output : text) (scaleToOne : bool)
    (margin : number) (ratios : option (list number))
    (ws : list float) (fs : list (option text)) :
  getColumnSizes output scaleToOne margin ratios = Ok (ws, fs) ->
  length ws = length fs /\
  (occurs endhead output = false -> ws = [] /\ fs = []) /\
  (occurs endhead output = true ->
   exists cols, declared_columns output = Ok cols /\
                fs = map snd cols /\ length ws = length cols /\ cols <> []).
Proof.
  intros G. destruct (occurs endhead output) eqn:H.
  - rewrite getColumnSizes_header in G by exact H.
    apply bind_ok in G. destruct G as (cols & Hc & G).
    destruct cols as [|col cols]; [discriminate|].
    apply bind_ok in G. destruct G as (w1 & H1 & G).
    apply bind_ok in G. destruct G as (w2 & H2 & G). inversion G; subst w2 fs.
    assert (L1 : length w1 = S (length cols)).
    { destruct (truthy ratios).
      - destruct (length (get ratios []) =? length (col :: cols)) eqn:E;
          [|discriminate].
        apply Nat.eqb_eq in E. apply ratio_widths_length in H1. simpl in E. lia.
      - inversion H1. simpl. now rewrite length_map. }
    assert (L2 : length ws = length w1).
    { destruct (scaleToOne || truthy ratios).
      - now apply rescale_length in H2.
      - now inversion H2. }
    assert (L : length ws = length (col :: cols)) by (simpl; lia).
    split; [rewrite L; cbn [map length]; now rewrite length_map|].
    split; [discriminate|].
    intros _. exists (col :: cols). repeat split; auto. discriminate.
  - rewrite getColumnSizes_no_header in G by exact H. inversion G; subst.
    split; [reflexivity|]. split; [auto | discriminate].
Qed.

Lemma column_sizes_aligned_witness :
  getColumnSizes table_11 true (Float (dec "0.1")) None =
    Ok ([dec "0.45"; dec "0.45"],
        [Some (T "\raggedright\arraybackslash");
         Some (T "\raggedright\arraybackslash")]) /\
  length [dec "0.45"; dec "0.45"] =
  length [Some (T "\raggedright\arraybackslash");
          Some (T "\raggedright\arraybackslash")].
Proof.
  assert (G : getColumnSizes table_11 true (Float (dec "0.1")) None =
    Ok ([dec "0.45"; dec "0.45"],
        [Some (T "\raggedright\arraybackslash");
         Some (T "\raggedright\arraybackslash")]))
    by (vm_compute; reflexivity).
  split; [exact G|].
  destruct (column_sizes_aligned _ _ _ _ _ _ G) as [L _]. exact L.
Defined.

(** X7. When the declared widths add up to zero, scaling to the full width
    divides by zero: with the scale flag set and no column ratios
    [getColumnSizes] raises ZeroDivisionError, and without the flag it
    returns the declared widths. *)
Theorem zero_total_fails (output : text) (margin : number)
    (ratios : option (list number)) (cols : list (float * option text))
    (m : float) :
  occurs endhead output = true ->
  declared_columns output = Ok cols ->
  cols <> [] ->
  truthy ratios = false ->
  to_float margin = Ok m ->
  fis_zero (fsum (map fst cols)) = true ->
  getColumnSizes output true margin ratios = Raise ZeroDivisionError /\
  getColumnSizes output false margin ratios = Ok (map fst cols, map snd cols).
Proof.
  intros Hhead Hcols Hne Hr Hm Hz.
  rewrite !getColumnSizes_header by exact Hhead. rewrite Hcols. cbn [bind].
  destruct cols as [|col cols]; [contradiction|].
  rewrite Hr. cbn [bind orb]. unfold rescale. rewrite Hm. cbn [bind].
  unfold fdiv. rewrite Hz. split; reflexivity.
Qed.

Lemma zero_total_fails_witness :
  getColumnSizes (table_of ["0"; "0.0"]%string) true (Float (dec "0.1")) None =
    Raise ZeroDivisionError /\
  getColumnSizes (table_of ["0"; "0.0"]%string) false (Float (dec "0.1")) None =
    Ok (map fst [(fzero, Some (T "\raggedright\arraybackslash"));
                 (fzero, Some (T "\raggedright\arraybackslash"))],
        map snd [(fzero, Some (T "\raggedright\arraybackslash"));
                 (fzero, Some (T "\raggedright\arraybackslash"))]).
Proof.
  assert (H1 : occurs endhead (table_of ["0"; "0.0"]%string) = true)
    by (vm_compute; reflexivity).
  assert (H2 : declared_columns (table_of ["0"; "0.0"]%string) =
               Ok [(fzero, Some (T "\raggedright\arraybackslash"));
                   (fzero, Some (T "\raggedright\arraybackslash"))])
    by (vm_compute; reflexivity).
  apply (zero_total_fails _ (Float (dec "0.1")) None _ (dec "0.1") H1 H2);
    [discriminate | reflexivity | reflexivity | vm_compute; reflexivity].
Defined.

(** ** The row spacing at the bounds *)

Lemma slice_empty (s : text) (a b : nat) :
  b <= a <= length s -> slice s (Z.of_nat a) (Z.of_nat b) = [].
Proof.
  intros H. unfold slice, len. rewrite !clamp_index_in by lia.
  replace (Z.to_nat (Z.of_nat b - Z.of_nat a)) with 0 by lia. reflexivity.
Qed.

Lemma clamp_index_last (n : nat) :
  1 <= n -> clamp_index (Z.of_nat n) (-1) = Z.of_nat (n - 1).
Proof. intros H. unfold clamp_index. cbn [Z.ltb Z.compare]. lia. Qed.

(** Where [str.find] finds the needle, the needle fits. *)
Lemma find_span (s p : text) (i : nat) :
  find s p = Z.of_nat i -> i + length p <= length s.
Proof.
  intros H. apply find_nat in H. apply index_of_starts in H.
  destruct H as [H Hi]. apply starts_with_length in H.
  rewrite length_skipn in H. lia.
Qed.

Lemma find_absent (s p : text) : occurs p s = false -> find s p = (-1)%Z.
Proof.
  rewrite occurs_index, find_index. destruct (index_of p s); [discriminate|].
  reflexivity.
Qed.

(** [setLatexSpacing], by its three slices. *)
Lemma setLatexSpacing_slices (expand : text -> result text)
    (output spacing : text) :
  setLatexSpacing expand output spacing =
  (repl <- expand (T "\\tabularnewline\\addlinespace[" ++ spacing ++ T "]") ;;
   let start := (find output endhead + len endhead)%Z in
   let end_ := find output (T "\bottomrule") in
   Ok (slice output 0 start
       ++ sub_text no_flags tabularnewline_re repl (slice output start end_)
       ++ slice_from output end_)).
Proof.
  unfold setLatexSpacing, getStretchRegexes. cbn [sub_each].
  destruct (expand _); reflexivity.
Qed.

(** X8. When the first footer marker stands before the end of the first
    header-end marker, [setLatexSpacing] finds an empty body and emits the
    text between the two positions twice: the result is the text through
    the header-end marker followed by the text from the footer marker on,
    and it is longer than the input by the distance of the two. *)
Theorem spacing_footer_first (expand : text -> result text)
    (output spacing : text) (i j : nat) :
  find output endhead = Z.of_nat i ->
  find output (T "\bottomrule") = Z.of_nat j ->
  j < i + length endhead ->
  setLatexSpacing expand output spacing =
  (repl <- expand (T "\\tabularnewline\\addlinespace[" ++ spacing ++ T "]") ;;
   Ok (firstn (i + length endhead) output ++ skipn j output)) /\
  length (firstn (i + length endhead) output ++ skipn j output) =
  length output + (i + length endhead - j).
Proof.
  intros Hi Hj Hij. pose proof (find_span _ _ _ Hi) as Hlen.
  split.
  - rewrite setLatexSpacing_slices, Hi, Hj. unfold len.
    rewrite <- Nat2Z.inj_add. change 0%Z with (Z.of_nat 0).
    rewrite slice_nat, slice_from_nat, slice_empty by lia.
    rewrite Nat.sub_0_r. reflexivity.
  - rewrite length_app, firstn_length_le, length_skipn by lia. lia.
Qed.

Lemma spacing_footer_first_witness :
  setLatexSpacing expand_plain
    (unlines ["\bottomrule"; "a \tabularnewline"; "\endhead"]%string)
    (T "2pt") =
  Ok (unlines ["\bottomrule"; "a \tabularnewline";
               "\endhead\bottomrule"; "a \tabularnewline"; "\endhead"]%string).
Proof.
  destruct (spacing_footer_first expand_plain
              (unlines ["\bottomrule"; "a \tabularnewline"; "\endhead"]%string)
              (T "2pt") 30 0) as [H _];
    [vm_compute; reflexivity | vm_compute; reflexivity | simpl; lia |].
  rewrite H. vm_compute. reflexivity.
Defined.

Lemma sub_text_from (fl : flags) (r : regex) (t s : text) :
  sub_text fl r t s = sub_from fl r t None s.
Proof. reflexivity. Qed.

(** One step of a substitution for a literal. *)
Lemma sub_lit_step (fl : flags) (l t : text) (prev : option ascii) (s : text) :
  l <> [] ->
  sub_from fl (lit l) t prev s =
  if starts_with l s then
    t ++ sub_from fl (lit l) t (prev_after prev l) (skipn (length l) s)
  else match s with
       | [] => []
       | c :: s' => c :: sub_from fl (lit l) t (Some c) s'
       end.
Proof.
  intros Hl. unfold sub_from. rewrite scan_step.
  - rewrite lit_match. destruct (starts_with l s); [reflexivity|].
    destruct s; reflexivity.
  - intros m. rewrite lit_match. destruct (starts_with l s); [|discriminate].
    intros H. inversion H. exact Hl.
Qed.

(** A literal matches the same whatever stands before the position. *)
Lemma sub_lit_prev (fl : flags) (l t : text) (n : nat) :
  l <> [] ->
  forall s prev prev', length s <= n ->
    sub_from fl (lit l) t prev s = sub_from fl (lit l) t prev' s.
Proof.
  intros Hl. induction n as [|n IH]; intros s prev prev' Hlen;
    rewrite (sub_lit_step fl l t prev s Hl), (sub_lit_step fl l t prev' s Hl).
  - destruct s; [|simpl in Hlen; lia].
    destruct (starts_with l []) eqn:E; [|reflexivity].
    destruct l; [contradiction | discriminate].
  - destruct (starts_with l s) eqn:E.
    + f_equal. apply IH. apply starts_with_length in E. rewrite length_skipn.
      destruct l; [contradiction|]. cbn [length] in *. lia.
    + destruct s as [|c s]; reflexivity.
Qed.

(** A character at which the literal does not start is copied. *)
Lemma sub_lit_gap (fl : flags) (l t : text) (c : ascii) (s : text) :
  l <> [] -> starts_with l (c :: s) = false ->
  sub_text fl (lit l) t (c :: s) = c :: sub_text fl (lit l) t s.
Proof.
  intros Hl H. rewrite !sub_text_from, sub_lit_step, H by exact Hl.
  f_equal. apply (sub_lit_prev fl l t (length s) Hl). lia.
Qed.

Lemma firstn_firstn_skipn {A : Type} (a b : nat) (s : list A) :
  a <= b -> firstn b s = firstn a s ++ firstn (b - a) (skipn a s).
Proof.
  intros H. rewrite <- (firstn_skipn a (firstn b s)). f_equal.
  - rewrite firstn_firstn. f_equal. lia.
  - now rewrite skipn_firstn_comm.
Qed.

(** X9. Without header-end marker the failed search gives -1, and
    [setLatexSpacing] takes the body to start at index 7, the length of
    the marker less one: the first seven characters are copied and the
    row separators from there to the first footer marker get the spacing.
    In a table block, which starts with its begin marker, these are all
    the row separators before the footer marker. *)
Theorem spacing_without_header (expand : text -> result text)
    (output spacing : text) (j : nat) :
  occurs endhead output = false ->
  find output (T "\bottomrule") = Z.of_nat j ->
  7 <= j ->
  setLatexSpacing expand output spacing =
  (repl <- expand (T "\\tabularnewline\\addlinespace[" ++ spacing ++ T "]") ;;
   Ok (firstn 7 output
       ++ sub_text no_flags tabularnewline_re repl
            (firstn (j - 7) (skipn 7 output))
       ++ skipn j output)) /\
  (starts_with begin_longtable output = true ->
   setLatexSpacing expand output spacing =
   (repl <- expand (T "\\tabularnewline\\addlinespace[" ++ spacing ++ T "]") ;;
    Ok (sub_text no_flags tabularnewline_re repl (firstn j output)
        ++ skipn j output))).
Proof.
  intros Hh Hj H7. pose proof (find_span _ _ _ Hj) as Hlen.
  assert (G : setLatexSpacing expand output spacing =
    (repl <- expand (T "\\tabularnewline\\addlinespace[" ++ spacing ++ T "]") ;;
     Ok (firstn 7 output
         ++ sub_text no_flags tabularnewline_re repl
              (firstn (j - 7) (skipn 7 output))
         ++ skipn j output))).
  { rewrite setLatexSpacing_slices. cbv zeta.
    rewrite (find_absent _ _ Hh), Hj.
    change (-1 + len endhead)%Z with (Z.of_nat 7).
    change (slice output 0) with (slice output (Z.of_nat 0)).
    rewrite !slice_nat, slice_from_nat by lia. rewrite Nat.sub_0_r. reflexivity. }
  split; [exact G|].
  intros HB. rewrite G. destruct (expand _) as [repl|e]; [|reflexivity].
  cbn [bind]. f_equal. rewrite app_assoc. f_equal.
  rewrite (firstn_firstn_skipn 7 j output H7).
  apply starts_with_split in HB.
  set (rest := skipn (length begin_longtable) output) in *. clearbody rest.
  subst output. set (mid := firstn (j - 7) _). clearbody mid.
  change (firstn 7 (begin_longtable ++ rest)) with (T "\begin{").
  unfold tabularnewline_re.
  cbn [T list_ascii_of_string app].
  do 7 (rewrite sub_lit_gap by (reflexivity || discriminate)).
  reflexivity.
Qed.

Lemma spacing_without_header_witness :
  setLatexSpacing expand_plain table_rows (T "2pt") =
  Ok (unlines ["\begin{longtable}[]{@{}ll@{}}";
               "x & y \tabularnewline\addlinespace[2pt]";
               "\bottomrule"; "\end{longtable}"]%string).
Proof.
  destruct (spacing_without_header expand_plain table_rows (T "2pt") 52)
    as [H _]; [vm_compute; reflexivity | vm_compute; reflexivity | lia |].
  rewrite H. vm_compute. reflexivity.
Defined.

(** X10. Without footer marker the failed search gives -1, which as a
    slice bound stands for the last index: the body of [setLatexSpacing]
    runs from the header-end marker to the last character, which is left
    out of it and copied. A row separator that ends the text is therefore
    not replaced. *)
Theorem spacing_without_footer (expand : text -> result text)
    (output spacing : text) (i : nat) :
  find output endhead = Z.of_nat i ->
  occurs (T "\bottomrule") output = false ->
  i + length endhead < length output ->
  let start := i + length endhead in
  let last := length output - 1 in
  let head := firstn start output in
  let body := firstn (last - start) (skipn start output) in
  let tail := skipn last output in
  output = head ++ body ++ tail /\
  length tail = 1 /\
  setLatexSpacing expand output spacing =
  (repl <- expand (T "\\tabularnewline\\addlinespace[" ++ spacing ++ T "]") ;;
   Ok (head ++ sub_text no_flags tabularnewline_re repl body ++ tail)).
Proof.
  intros Hi Hf Hlen start last head body tail.
  split; [|split].
  - unfold head, body, tail.
    rewrite <- (firstn_skipn start output) at 1. f_equal.
    rewrite <- (firstn_skipn (last - start) (skipn start output)) at 1. f_equal.
    rewrite skipn_skipn. f_equal. unfold start, last in *. lia.
  - unfold tail. rewrite length_skipn. unfold last. lia.
  - rewrite setLatexSpacing_slices. cbv zeta.
    rewrite (find_absent _ _ Hf), Hi. unfold len at 1.
    rewrite <- Nat2Z.inj_add. fold start.
    change (slice output 0) with (slice output (Z.of_nat 0)).
    rewrite slice_nat by (unfold start in *; lia). rewrite Nat.sub_0_r.
    unfold slice, slice_from, len.
    rewrite clamp_index_last by lia. fold last.
    rewrite clamp_index_in by (unfold start in *; lia).
    replace (Z.to_nat (Z.of_nat last
                       - (Z.of_nat i + Z.of_nat (length endhead))))
      with (last - start) by (unfold start, last; lia).
    replace (Z.to_nat (Z.of_nat i + Z.of_nat (length endhead)))
      with start by (unfold start; lia).
    rewrite Nat2Z.id. reflexivity.
Qed.

Lemma spacing_without_footer_witness :
  setLatexSpacing expand_plain
    (unlines ["\endhead"; "a \tabularnewline"; "b \tabularnewline"]%string)
    (T "2pt") =
  Ok (unlines ["\endhead"; "a \tabularnewline\addlinespace[2pt]";
               "b \tabularnewline"]%string).
Proof.
  destruct (spacing_without_footer expand_plain
              (unlines ["\endhead"; "a \tabularnewline";
                        "b \tabularnewline"]%string)
              (T "2pt") 0) as (_ & _ & H);
    [vm_compute; reflexivity | vm_compute; reflexivity | simpl; lia |].
  rewrite H. vm_compute. reflexivity.
Defined.

(** ** What [deleteEmptyLines] keeps *)

(** What a pattern without group matched is a text of its language. *)
Lemma match_here_lang (fl : flags) (r : regex) (adv : bool)
    (prev : option ascii) (s : text) (m : rmatch) :
  groupless r = true ->
  match_here fl r adv prev s = Some m -> lang fl r (group0 m).
Proof.
  intros G H. unfold match_here in H. apply exec_lang in H; [|exact G].
  destruct H as (w & s' & -> & Hw & H).
  destruct (adv && _); [discriminate|]. inversion H; subst m. cbn [group0].
  now rewrite firstn_prefix.
Qed.

(** What the empty-line pattern matches is whitespace. *)
Lemma empty_line_lang (w : text) :
  lang MULTILINE empty_line_re w -> forallb is_space w = true.
Proof.
  intros (u & v & -> & -> & (ws & e & -> & Hws & (c & -> & Hc))).
  cbn [app]. rewrite forallb_app. cbn [atom_ok] in Hws. rewrite Hws.
  cbn [atom_ok] in Hc. apply Ascii.eqb_eq in Hc. subst c. reflexivity.
Qed.

Lemma visible_app (u v : text) : visible (u ++ v) = visible u ++ visible v.
Proof. apply filter_app. Qed.

Lemma visible_space (w : text) : forallb is_space w = true -> visible w = [].
Proof.
  induction w as [|c w IH]; intros H; [reflexivity|].
  cbn [forallb] in H. apply andb_true_iff in H. destruct H as [Hc H].
  unfold visible. cbn [filter]. rewrite Hc. cbn [negb]. now apply IH.
Qed.

(** Deleting matches that hold whitespace only keeps what is visible. *)
Lemma deleted_visible (ps : list piece) :
  (forall m, In m (hits ps) -> visible (group0 m) = []) ->
  visible (flat_map (fun p => match p with Gap c => [c] | Hit _ => [] end) ps) =
  visible (flat_map piece_source ps).
Proof.
  induction ps as [|[c|m] ps IH]; intros H; cbn [flat_map piece_source hits] in *.
  - reflexivity.
  - rewrite !visible_app, IH by exact H. reflexivity.
  - cbn [app]. rewrite visible_app, (H m) by (now left). cbn [app].
    apply IH. intros m' Hm'. apply H. now right.
Qed.

(** X11. [deleteEmptyLines] deletes whitespace only: the characters of the
    text that are not whitespace are all kept, in their order. *)
Theorem blank_lines_only (output : text) :
  visible (deleteEmptyLines output) = visible output.
Proof.
  unfold deleteEmptyLines, sub_text.
  rewrite deleted_visible.
  - now rewrite pieces_source.
  - intros m Hm. unfold pieces in Hm. apply scan_hits in Hm.
    destruct Hm as (adv & prev & s' & Hm).
    apply match_here_lang in Hm; [|reflexivity].
    apply visible_space. now apply empty_line_lang.
Qed.

(** A text without blank line starts with no whitespace run that holds a
    newline. *)
Lemma blank_line_run (s : text) :
  blank_line_from true s = false -> nl_in_run s = false.
Proof.
  induction s as [|c s IH]; intros H; [reflexivity|].
  cbn [blank_line_from nl_in_run] in *.
  destruct (Ascii.eqb c nl) eqn:Hc; [discriminate|].
  destruct (is_space c); [|reflexivity]. cbn [andb] in *.
  rewrite Ascii.eqb_sym, Hc. cbn [orb]. now apply IH.
Qed.

(** A text without blank line is left as it is. [blank] is what is known
    of the line in progress; at a line start it is all whitespace so far. *)
Lemma delete_empty_lines_fixed (n : nat) :
  forall s prev blank,
    length s <= n ->
    (at_bol MULTILINE prev = true -> blank = true) ->
    blank_line_from blank s = false ->
    delete_from MULTILINE empty_line_re prev s = s.
Proof.
  induction n as [|n IH]; intros s prev blank Hlen Hinv Hb.
  - destruct s; [|simpl in Hlen; lia].
    unfold delete_from. simpl. rewrite empty_line_match.
    destruct (at_bol MULTILINE prev); reflexivity.
  - assert (Hnone : match_here MULTILINE empty_line_re false prev s = None).
    { rewrite empty_line_match. destruct (at_bol MULTILINE prev); [|reflexivity].
      rewrite (Hinv eq_refl) in Hb. apply blank_line_run in Hb.
      apply blank_len_none in Hb. now rewrite Hb. }
    rewrite delete_step by (intros m; rewrite Hnone; discriminate).
    rewrite Hnone. destruct s as [|c s]; [reflexivity|]. f_equal.
    cbn [blank_line_from] in Hb. destruct (Ascii.eqb c nl) eqn:Hc.
    + apply orb_false_iff in Hb. destruct Hb as [_ Hb].
      apply (IH s (Some c) true); [simpl in Hlen; lia | reflexivity | exact Hb].
    + apply (IH s (Some c) (blank && is_space c));
        [simpl in Hlen; lia | | exact Hb].
      cbn [at_bol]. rewrite Hc, andb_false_r. discriminate.
Qed.

(** X12. [deleteEmptyLines] is idempotent, and the texts it leaves as they
    are are exactly those without a blank line that a newline ends. *)
Theorem deleteEmptyLines_fixed_points (output : text) :
  deleteEmptyLines (deleteEmptyLines output) = deleteEmptyLines output /\
  (deleteEmptyLines output = output <-> has_blank_line output = false).
Proof.
  assert (F : forall s, has_blank_line s = false -> deleteEmptyLines s = s).
  { intros s H. unfold deleteEmptyLines. rewrite sub_text_delete.
    apply (delete_empty_lines_fixed (length s) s None true); auto. }
  split; [apply F, delete_empty_lines_clean|].
  split; [|apply F].
  intros E. rewrite <- E. apply delete_empty_lines_clean.
Qed.

(** ** Deleting only *)

Lemma Subseq_nil (s : text) : Subseq [] s.
Proof. induction s; constructor; assumption. Qed.

Lemma Subseq_app (a b c d : text) :
  Subseq a b -> Subseq c d -> Subseq (a ++ c) (b ++ d).
Proof.
  intros Hab Hcd. induction Hab; cbn [app]; try constructor; auto.
Qed.

Lemma Subseq_trans (a b c : text) : Subseq a b -> Subseq b c -> Subseq a c.
Proof.
  intros Hab Hbc. revert a Hab.
  induction Hbc as [ | x b c _ IH | x b c _ IH ]; intros a Hab.
  - exact Hab.
  - inversion Hab; subst; constructor; auto.
  - constructor. auto.
Qed.

Lemma Subseq_length (a b : text) : Subseq a b -> length a <= length b.
Proof. induction 1; simpl; lia. Qed.

(** A substitution by the empty text only deletes. *)
Lemma sub_text_deletes (fl : flags) (r : regex) (s : text) :
  Subseq (sub_text fl r [] s) s.
Proof.
  unfold sub_text. rewrite <- (pieces_source fl r s) at 2.
  induction (pieces fl r s) as [|[c|m] ps IH]; cbn [flat_map piece_source].
  - constructor.
  - constructor. exact IH.
  - apply (Subseq_app [] (group0 m)); [apply Subseq_nil | exact IH].
Qed.

Lemma emitted_deletes (expand : text -> result text) (spacing : option text)
    (table out : text) :
  truthy spacing = false ->
  emitted expand spacing table = Ok out -> Subseq out table.
Proof.
  unfold emitted. intros -> H. cbn [bind] in H. inversion H; subst out.
  eapply Subseq_trans; [apply sub_text_deletes|].
  unfold setColumnFormat.
  eapply Subseq_trans; apply sub_text_deletes.
Qed.

Lemma rebuild_deletes (f : rmatch -> result text) (ps : list piece) :
  (forall m t, f m = Ok t -> Subseq t (group0 m)) ->
  forall out, rebuild f ps = Ok out -> Subseq out (flat_map piece_source ps).
Proof.
  intros Hf. induction ps as [|[c|m] ps IH]; intros out H;
    cbn [rebuild flat_map piece_source] in *.
  - inversion H. constructor.
  - apply bind_ok in H. destruct H as (o & Ho & E). inversion E; subst out.
    constructor. now apply IH.
  - apply bind_ok in H. destruct H as (t & Ht & H).
    apply bind_ok in H. destruct H as (o & Ho & E). inversion E; subst out.
    apply Subseq_app; [now apply Hf | now apply IH].
Qed.

(** X13. Without row spacing the rewriter only deletes: when
    [postProcessLatexTables] returns, its result is the input with some
    characters left out, and so it is never longer than the input. *)
Theorem rewriter_only_deletes (expand : text -> result text) (cfg : config)
    (output out : text) :
  truthy (rowSpacing cfg) = false ->
  postProcessLatexTables expand cfg output = Ok out ->
  Subseq out output /\ length out <= length output.
Proof.
  intros Hs H.
  assert (S : Subseq out output).
  { unfold postProcessLatexTables, sub_fun in H.
    rewrite <- (pieces_source DOTALL longtable_re output).
    refine (rebuild_deletes _ _ _ _ H). intros m t Hm.
    rewrite postProcessLatexTable_emitted in Hm.
    apply bind_ok in Hm. destruct Hm as (wf & _ & Hm).
    now apply (emitted_deletes expand (rowSpacing cfg)). }
  split; [exact S | now apply Subseq_length].
Qed.

Lemma rewriter_only_deletes_witness :
  postProcessLatexTables expand_plain no_options
    (unlines ["\begin{longtable}"; "  \begin{minipage}\end{longtable}"]%string) =
  Ok (unlines ["\begin{longtable}"; "  "]%string) /\
  Subseq (unlines ["\begin{longtable}"; "  "]%string)
         (unlines ["\begin{longtable}";
                   "  \begin{minipage}\end{longtable}"]%string) /\
  length (unlines ["\begin{longtable}"; "  "]%string) <=
  length (unlines ["\begin{longtable}";
                   "  \begin{minipage}\end{longtable}"]%string).
Proof.
  assert (H : postProcessLatexTables expand_plain no_options
                (unlines ["\begin{longtable}";
                          "  \begin{minipage}\end{longtable}"]%string) =
              Ok (unlines ["\begin{longtable}"; "  "]%string))
    by (vm_compute; reflexivity).
  split; [exact H|].
  exact (rewriter_only_deletes expand_plain no_options _ _ eq_refl H).
Defined.

(* ================================================================== *)
(** * Formats, paths and the environment *)
(* ================================================================== *)

(** ** Paths *)

Lemma eqb_text_eq (a b : text) : eqb_text a b = true <-> a = b.
Proof.
  revert b. induction a as [|x a IH]; intros [|y b]; simpl;
    try (split; [discriminate | discriminate]); [tauto|].
  rewrite andb_true_iff, Ascii.eqb_eq, IH. split.
  - intros [-> ->]. reflexivity.
  - intros H. inversion H. auto.
Qed.

Lemma eqb_text_refl (a : text) : eqb_text a a = true.
Proof. now apply eqb_text_eq. Qed.

Lemma eqb_text_sym (a b : text) : eqb_text a b = eqb_text b a.
Proof.
  revert b. induction a as [|x a IH]; intros [|y b]; cbn [eqb_text];
    try reflexivity.
  now rewrite IH, Ascii.eqb_sym.
Qed.

Lemma rfind_bounds (s : text) (c : ascii) :
  (-1 <= rfind s c < Z.of_nat (length s))%Z.
Proof.
  induction s as [|d s IH]; cbn [rfind length]; [lia|].
  destruct (0 <=? rfind s c)%Z eqn:E.
  - apply Z.leb_le in E. lia.
  - destruct (Ascii.eqb d c); lia.
Qed.

(** The last occurrence in a text put together from two. *)
Lemma rfind_app (a b : text) (c : ascii) :
  rfind (a ++ b) c =
  if (0 <=? rfind b c)%Z then (Z.of_nat (length a) + rfind b c)%Z
  else rfind a c.
Proof.
  induction a as [|d a IH]; cbn [app rfind length].
  - destruct (0 <=? rfind b c)%Z eqn:E; [lia|].
    apply Z.leb_gt in E. pose proof (rfind_bounds b c). lia.
  - rewrite IH. destruct (0 <=? rfind b c)%Z eqn:E.
    + apply Z.leb_le in E.
      replace (0 <=? Z.of_nat (length a) + rfind b c)%Z with true
        by (symmetry; apply Z.leb_le; lia).
      lia.
    + reflexivity.
Qed.

Lemma rfind_absent (s : text) (c : ascii) :
  forallb (fun d => negb (Ascii.eqb d c)) s = true -> rfind s c = (-1)%Z.
Proof.
  induction s as [|d s IH]; intros H; [reflexivity|].
  cbn [forallb] in H. apply andb_true_iff in H. destruct H as [Hd H].
  cbn [rfind]. rewrite (IH H). apply negb_true_iff in Hd. now rewrite Hd.
Qed.

Lemma rfind_head (c : ascii) (e : text) :
  forallb (fun d => negb (Ascii.eqb d c)) e = true -> rfind (c :: e) c = 0%Z.
Proof.
  intros H. cbn [rfind]. rewrite (rfind_absent _ _ H). cbn.
  now rewrite Ascii.eqb_refl.
Qed.

(** The tail of [os.path.split] is what stands behind the last slash. *)
Lemma split_tail (p : text) :
  snd (Path.split p) = skipn (Z.to_nat (rfind p Path.sep + 1)) p.
Proof.
  unfold Path.split. cbn [snd]. pose proof (rfind_bounds p Path.sep) as B.
  rewrite <- (Z2Nat.id (rfind p Path.sep + 1)) at 1 by lia.
  apply slice_from_nat. lia.
Qed.

Lemma split_tail_name (d name : text) :
  no_sep name = true -> snd (Path.split (d ++ Path.sep :: name)) = name.
Proof.
  intros H. rewrite split_tail, rfind_app, (rfind_head _ _ H).
  cbn [Z.leb Z.compare].
  replace (Z.to_nat (Z.of_nat (length d) + 0 + 1)) with (length d + 1) by lia.
  rewrite skipn_app, skipn_all2 by lia.
  replace (length d + 1 - length d) with 1 by lia. reflexivity.
Qed.

Lemma plain_split (e : text) :
  plain e = true ->
  forallb (fun c => negb (Ascii.eqb c Path.extsep)) e = true /\
  forallb (fun c => negb (Ascii.eqb c Path.sep)) e = true.
Proof.
  unfold plain. induction e as [|c e IH]; cbn [forallb]; [auto|].
  intros H. apply andb_true_iff in H. destruct H as [Hc H].
  apply andb_true_iff in Hc. destruct Hc as [H1 H2].
  destruct (IH H) as [-> ->]. now rewrite H1, H2.
Qed.

(** The extension of a path that ends in a dot and a text without dot and
    slash: that dot and text, unless only dots stand before it in the last
    component. *)
Lemma splitext_ext (stem e : text) :
  plain e = true ->
  Path.splitext (stem ++ Path.extsep :: e) =
  if named stem then (stem, Path.extsep :: e)
  else (stem ++ Path.extsep :: e, []).
Proof.
  intros He. apply plain_split in He. destruct He as [Hdot Hsep].
  unfold Path.splitext, named.
  pose proof (rfind_bounds stem Path.sep) as B.
  rewrite !rfind_app, (rfind_head _ _ Hdot).
  assert (Hs : rfind (Path.extsep :: e) Path.sep = (-1)%Z).
  { apply rfind_absent. cbn [forallb]. now rewrite Hsep. }
  rewrite Hs. cbn [Z.leb Z.compare]. rewrite Z.add_0_r.
  replace (rfind stem Path.sep <? Z.of_nat (length stem))%Z with true
    by (symmetry; apply Z.ltb_lt; lia).
  cbn [andb]. rewrite split_tail.
  set (a := Z.to_nat (rfind stem Path.sep + 1)).
  assert (Ha : a <= length stem) by (unfold a; lia).
  replace (rfind stem Path.sep + 1)%Z with (Z.of_nat a) by (unfold a; lia).
  change 0%Z with (Z.of_nat 0).
  rewrite !slice_nat, slice_from_nat by (rewrite length_app; cbn [length]; lia).
  rewrite Nat.sub_0_r. cbn [skipn].
  assert (E1 : firstn (length stem - a) (skipn a (stem ++ Path.extsep :: e)) =
               skipn a stem).
  { rewrite skipn_app. replace (a - length stem) with 0 by lia. cbn [skipn].
    rewrite firstn_app, length_skipn, Nat.sub_diag. cbn [firstn].
    rewrite app_nil_r. apply firstn_all2. rewrite length_skipn. lia. }
  assert (E2 : firstn (length stem) (stem ++ Path.extsep :: e) = stem).
  { rewrite firstn_app, Nat.sub_diag, firstn_all. cbn [firstn].
    apply app_nil_r. }
  rewrite E1, E2, skipn_prefix. reflexivity.
Qed.

(** In a component without extension, only dots stand before the last
    dot. *)
Lemma drop_dots_rfind (c : text) :
  forallb (fun x => negb (Ascii.eqb x Path.extsep)) (drop_dots c) = true ->
  existsb (fun x => negb (Ascii.eqb x Path.extsep))
          (firstn (Z.to_nat (rfind c Path.extsep)) c) = false.
Proof.
  induction c as [|d c IH]; intros H; [reflexivity|].
  cbn [drop_dots] in H. cbn [rfind].
  destruct (Ascii.eqb d Path.extsep) eqn:Hd.
  - specialize (IH H). pose proof (rfind_bounds c Path.extsep) as B.
    destruct (0 <=? rfind c Path.extsep)%Z eqn:E; [|reflexivity].
    apply Z.leb_le in E.
    replace (Z.to_nat (rfind c Path.extsep + 1))
      with (S (Z.to_nat (rfind c Path.extsep))) by lia.
    cbn [firstn existsb]. now rewrite Hd, IH.
  - rewrite (rfind_absent _ _ (proj2 (proj1 (andb_true_iff _ _) H))).
    reflexivity.
Qed.

Lemma extless_splitext (p : text) :
  extless p = true -> Path.splitext p = (p, []).
Proof.
  unfold extless. rewrite split_tail. intros H. unfold Path.splitext.
  pose proof (rfind_bounds p Path.sep) as B.
  set (a := Z.to_nat (rfind p Path.sep + 1)) in *.
  assert (Ha : a <= length p) by (unfold a; lia).
  assert (Es : rfind p Path.sep = (Z.of_nat a - 1)%Z) by (unfold a; lia).
  set (c := skipn a p) in *.
  assert (Ep : p = firstn a p ++ c) by (symmetry; apply firstn_skipn).
  assert (Ed : rfind p Path.extsep =
               if (0 <=? rfind c Path.extsep)%Z
               then (Z.of_nat a + rfind c Path.extsep)%Z
               else rfind (firstn a p) Path.extsep).
  { rewrite Ep at 1. rewrite rfind_app, firstn_length_le by exact Ha.
    reflexivity. }
  destruct (0 <=? rfind c Path.extsep)%Z eqn:E.
  - apply Z.leb_le in E. rewrite Ed, Es.
    replace (Z.of_nat a - 1 + 1)%Z with (Z.of_nat a) by lia.
    pose proof (rfind_bounds c Path.extsep) as Bc.
    assert (Lc : length c = length p - a) by (unfold c; apply length_skipn).
    replace (Z.of_nat a + rfind c Path.extsep)%Z
      with (Z.of_nat (a + Z.to_nat (rfind c Path.extsep))) by lia.
    rewrite slice_nat by lia.
    replace (a + Z.to_nat (rfind c Path.extsep) - a)
      with (Z.to_nat (rfind c Path.extsep)) by lia.
    fold c. rewrite (drop_dots_rfind c H), andb_false_r. reflexivity.
  - apply Z.leb_gt in E. rewrite Ed, Es.
    pose proof (rfind_bounds (firstn a p) Path.extsep) as Bu.
    rewrite firstn_length_le in Bu by exact Ha.
    replace (Z.of_nat a - 1 <? rfind (firstn a p) Path.extsep)%Z with false
      by (symmetry; apply Z.ltb_ge; lia).
    reflexivity.
Qed.

(** ** [getExtension] and [getFormat] *)

Lemma occurs_middle (p a b : text) : occurs p (a ++ p ++ b) = true.
Proof. apply occurs_app_r, starts_with_occurs, starts_with_app. Qed.

(** X14. [getExtension] decides by substring, and html comes first: a
    format that names html anywhere gets .html, whatever else it names (so
    does markdown+raw_html); one that names latex and not html gets .tex;
    one that names markdown and neither of the two gets .md; and a format
    that names none of the three raises ValueError. *)
Theorem getExtension_by_substring (a b : text) :
  getExtension (a ++ T "html" ++ b) = Ok (T ".html") /\
  (occurs (T "html") (a ++ T "latex" ++ b) = false ->
   getExtension (a ++ T "latex" ++ b) = Ok (T ".tex")) /\
  (occurs (T "html") (a ++ T "markdown" ++ b) = false ->
   occurs (T "latex") (a ++ T "markdown" ++ b) = false ->
   getExtension (a ++ T "markdown" ++ b) = Ok (T ".md")) /\
  (occurs (T "html") a = false -> occurs (T "latex") a = false ->
   occurs (T "markdown") a = false ->
   getExtension a = Raise ValueError).
Proof.
  unfold getExtension. repeat split.
  - now rewrite occurs_middle.
  - intros ->. now rewrite occurs_middle.
  - intros -> ->. now rewrite occurs_middle.
  - intros -> -> ->. reflexivity.
Qed.

Example getExtension_raw_html :
  getExtension (T "markdown+raw_html") = Ok (T ".html") /\
  getExtension (T "gfm") = Raise ValueError.
Proof. split; reflexivity. Qed.

(** X15. [getFormat] decides by the text behind the last dot of the path,
    when that text holds no dot and no slash and the last component has a
    name before the dot: html gives html+tex_math_dollars, tex gives
    latex, md gives the format of the pandoc defaults, or KeyError when
    they name none, and every other extension raises ValueError. The
    comparison is exact, so upper-case extensions are refused. *)
Theorem getFormat_by_extension (stem e : text) (d : pandoc_defaults) :
  plain e = true ->
  named stem = true ->
  getFormat (stem ++ Path.extsep :: e) d =
  if eqb_text e (T "html") then Done (T "html+tex_math_dollars")
  else if eqb_text e (T "tex") then Done (T "latex")
  else if eqb_text e (T "md") then item (T "from") (default_from d)
  else Failed (Exn ValueError).
Proof.
  intros He Hs. unfold getFormat. rewrite (splitext_ext stem e He), Hs.
  cbn [snd T list_ascii_of_string eqb_text]. unfold Path.extsep.
  rewrite Ascii.eqb_refl. reflexivity.
Qed.

Lemma getFormat_by_extension_witness :
  getFormat (T "docs/tables/a.b.md") {| default_from := None |} =
  Failed (KeyError (T "from")).
Proof.
  apply (getFormat_by_extension (T "docs/tables/a.b") (T "md")); reflexivity.
Defined.

(** X16. A path whose last component holds no dot behind its leading dots
    has no extension for [getFormat], which raises ValueError: so for a
    name without dot, and so for a hidden file such as .md or docs/.tex. *)
Theorem getFormat_without_extension (p : text) (d : pandoc_defaults) :
  extless p = true -> getFormat p d = Failed (Exn ValueError).
Proof.
  intros H. unfold getFormat. now rewrite (extless_splitext p H).
Qed.

Lemma getFormat_without_extension_witness :
  getFormat (T "docs/.md") {| default_from := Some (T "markdown") |} =
  Failed (Exn ValueError).
Proof. apply getFormat_without_extension. reflexivity. Defined.

(** X17. The two tables of formats agree: the format [getFormat] gives for
    a file is one for which [getExtension] gives back the extension of the
    file, except for a Markdown file, whose format is whatever the pandoc
    defaults name. *)
Theorem format_of_extension_back (file : text) (d : pandoc_defaults)
    (fmt : text) :
  getFormat file d = Done fmt ->
  getExtension fmt = Ok (snd (Path.splitext file)) \/
  (snd (Path.splitext file) = T ".md" /\ default_from d = Some fmt).
Proof.
  unfold getFormat. set (ext := snd (Path.splitext file)).
  destruct (eqb_text ext (T ".html")) eqn:E1.
  - apply eqb_text_eq in E1. rewrite E1. intros H. inversion H. now left.
  - destruct (eqb_text ext (T ".tex")) eqn:E2.
    + apply eqb_text_eq in E2. rewrite E2. intros H. inversion H. now left.
    + destruct (eqb_text ext (T ".md")) eqn:E3; [|discriminate].
      apply eqb_text_eq in E3. rewrite E3. intros H. right.
      split; [reflexivity|].
      destruct (default_from d); [|discriminate]. inversion H. reflexivity.
Qed.

Lemma format_of_extension_back_witness :
  getFormat (T "out/table.tex") {| default_from := None |} = Done (T "latex") /\
  (getExtension (T "latex") = Ok (snd (Path.splitext (T "out/table.tex"))) \/
   (snd (Path.splitext (T "out/table.tex")) = T ".md" /\
    default_from {| default_from := None |} = Some (T "latex"))).
Proof.
  assert (H : getFormat (T "out/table.tex") {| default_from := None |} =
              Done (T "latex")) by reflexivity.
  split; [exact H|].
  exact (format_of_extension_back _ _ _ H).
Defined.

(** ** [setEnvironment] *)

Lemma or_empty (s : option text) :
  (if truthy s then get s [] else []) =
  match s with Some v => v | None => [] end.
Proof. destruct s as [[|c v]|]; reflexivity. Qed.

Lemma putenv_ok (env : environ) (key value : text) :
  no_nul value = true ->
  putenv env key value =
  Ok (fun k => if eqb_text k key then Some value else env k).
Proof.
  unfold no_nul, putenv. intros H. apply negb_true_iff in H. now rewrite H.
Qed.

Lemma no_nul_app (u v : text) :
  no_nul (u ++ v) = no_nul u && no_nul v.
Proof. unfold no_nul. rewrite existsb_app. apply negb_orb. Qed.

Lemma no_nul_join (a b : text) :
  no_nul a = true -> no_nul b = true -> no_nul (Path.join a b) = true.
Proof.
  intros Ha Hb. unfold Path.join.
  destruct (starts_with [Path.sep] b); [exact Hb|].
  destruct (match a with [] => true | _ => ends_with a Path.sep end).
  - now rewrite no_nul_app, Ha, Hb.
  - change (Path.sep :: b) with ([Path.sep] ++ b).
    now rewrite !no_nul_app, Ha, Hb.
Qed.

(** X18. [setEnvironment] puts the filters directory first in both search
    paths and keeps what was there: when the data directory and the two
    old values hold no NUL character it succeeds, the new LUA_PATH is the
    two patterns of the filters directory followed by the old value, the
    new PYTHONPATH is the filters directory, a colon and the old value, a
    variable that was not set counts as empty, and every other variable is
    as it was. *)
Theorem setEnvironment_prepends (dataDir : text) (env : environ) :
  no_nul dataDir = true ->
  no_nul (value_of env (T "LUA_PATH")) = true ->
  no_nul (value_of env (T "PYTHONPATH")) = true ->
  let filters := Path.join dataDir (T "filters") in
  exists env',
    setEnvironment dataDir env = Ok env' /\
    env' (T "LUA_PATH") =
      Some (filters ++ T "/?;" ++ filters ++ T "/?.lua;"
            ++ value_of env (T "LUA_PATH")) /\
    env' (T "PYTHONPATH") =
      Some (filters ++ T ":" ++ value_of env (T "PYTHONPATH")) /\
    (forall key, eqb_text key (T "LUA_PATH") = false ->
                 eqb_text key (T "PYTHONPATH") = false ->
                 env' key = env key).
Proof.
  intros Hd Hl Hp filters. unfold setEnvironment. fold filters.
  assert (Hf : no_nul filters = true) by (now apply no_nul_join).
  unfold value_of in *. rewrite or_empty.
  rewrite putenv_ok by (rewrite !no_nul_app, Hf, Hl; reflexivity).
  cbn [bind]. rewrite or_empty.
  change (eqb_text (T "PYTHONPATH") (T "LUA_PATH")) with false. cbn iota.
  rewrite putenv_ok by (rewrite !no_nul_app, Hf, Hp; reflexivity).
  eexists. split; [reflexivity|]. cbn beta.
  change (eqb_text (T "LUA_PATH") (T "PYTHONPATH")) with false.
  rewrite !eqb_text_refl. cbn iota.
  repeat split.
  intros key K1 K2. now rewrite K1, K2.
Qed.

Lemma setEnvironment_prepends_witness :
  exists env',
    setEnvironment (T "tools/convert") some_env = Ok env' /\
    env' (T "LUA_PATH") =
      Some (Path.join (T "tools/convert") (T "filters") ++ T "/?;"
            ++ Path.join (T "tools/convert") (T "filters") ++ T "/?.lua;"
            ++ value_of some_env (T "LUA_PATH")) /\
    env' (T "PYTHONPATH") =
      Some (Path.join (T "tools/convert") (T "filters") ++ T ":"
            ++ value_of some_env (T "PYTHONPATH")) /\
    (forall key, eqb_text key (T "LUA_PATH") = false ->
                 eqb_text key (T "PYTHONPATH") = false ->
                 env' key = some_env key).
Proof.
  apply (setEnvironment_prepends (T "tools/convert") some_env); reflexivity.
Defined.

(** The values of the example: the filters directory comes first, and the
    unset Python path leaves a colon at the end. *)
Example setEnvironment_values :
  match setEnvironment (T "tools/convert") some_env with
  | Ok env' =>
      env' (T "LUA_PATH") =
        Some (T "tools/convert/filters/?;tools/convert/filters/?.lua;/usr/share/lua/?.lua") /\
      env' (T "PYTHONPATH") = Some (T "tools/convert/filters:") /\
      env' (T "HOME") = Some (T "/root")
  | Raise _ => False
  end.
Proof. vm_compute. repeat split. Qed.

(** ** [replaceColumnType] *)

Lemma columns_loop (g2 acc : text) :
  fold_left (fun columns c => columns ++ ["S"%char; c]) g2 acc =
  acc ++ flat_map (fun c => ["S"%char; c]) g2.
Proof.
  revert acc. induction g2 as [|c g2 IH]; intros acc; cbn [fold_left flat_map].
  - now rewrite app_nil_r.
  - rewrite IH, <- app_assoc. reflexivity.
Qed.

(** X19. [replaceColumnType] puts an S before every character of the
    second group and keeps the first and the third group around them, so
    the column specification doubles in length; when one of the three
    groups took no part in the match it raises TypeError. *)
Theorem replaceColumnType_columns (m : rmatch) :
  replaceColumnType m =
  match group m 1, group m 2, group m 3 with
  | Some g1, Some g2, Some g3 =>
      Ok (g1 ++ flat_map (fun c => ["S"%char; c]) g2 ++ g3)
  | _, _, _ => Raise TypeError
  end /\
  forall g2, length (flat_map (fun c => ["S"%char; c]) g2) = 2 * length g2.
Proof.
  split.
  - unfold replaceColumnType.
    destruct (group m 2) as [g2|]; [|destruct (group m 1); reflexivity].
    rewrite columns_loop.
    destruct (group m 1), (group m 3); reflexivity.
  - induction g2 as [|c g2 IH]; [reflexivity|].
    cbn [flat_map app length]. lia.
Qed.

Example replaceColumnType_lrc :
  replaceColumnType
    {| group0 := T "{@{}lrc@{}}";
       groups := [(1, T "{@{}"); (2, T "lrc"); (3, T "@{}}")] |} =
  Ok (T "{@{}SlSrSc@{}}").
Proof. reflexivity. Qed.

(* ================================================================== *)
(** * The conversion of one file *)
(* ================================================================== *)

Section DriverFacts.

Variable expand : text -> result text.
Variable format : text -> list (text * text) -> outcome text.
Variable check_output : log -> list text -> outcome text.
Variable open_w : log -> text -> option failure.
Variable write_to : log -> text -> text -> option (text * failure).


(** X21. Only LaTeX is post-processed: for every other target format a
    successful [convertTable] writes what pandoc printed, unchanged, twice
    to the output file, whatever the default post-processing flag and the
    options of the rewriter are. *)
Theorem other_targets_untouched (file : text) (cfg : conversion)
    (rootDir dataDir : text) (defs : pandoc_defaults) (toFormat : text)
    (l l' : log) :
  to_ cfg = Some toFormat ->
  eqb_text toFormat (T "latex") = false ->
  convertTable expand format check_output open_w write_to file cfg rootDir dataDir defs l
    = (l', Done tt) ->
  exists outFile raw argv,
    check_output l argv = Done raw /\
    l' = l ++ [(outFile, raw); (outFile, raw)].
Proof.
  unfold convertTable, and_then, of_outcome, of_result, write. intros Hto Hl H.
  destruct (match from_ cfg with Some f => Done f | None => getFormat file defs end)
    as [fromFormat|f]; [|discriminate].
  rewrite Hto in H. cbn [item] in H.
  destruct (getExtension toFormat) as [toExt|e]; [|discriminate].
  destruct (Path.splitext (snd (Path.split file))) as [baseName ext].
  destruct (item (T "outputDir") (outputDir cfg)) as [dir|f]; [|discriminate].
  destruct (format dir _) as [outDir|f]; [|discriminate].
  destruct (check_output l _) as [raw|f] eqn:P; [|discriminate].
  destruct (open_w l _) as [f|]; [discriminate|].
  destruct (write_to l _ raw) as [[left1 f]|]; [discriminate|].
  rewrite Hl in H. cbn [get_list defaultTableRegexes] in H.
  rewrite eqb_text_sym, Hl in H.
  destruct (get (defaultPostProcessing cfg) false); cbn [sub_all] in H;
    (destruct (open_w _ _) as [f|]; [discriminate|]);
    (destruct (write_to _ _ raw) as [[left2 f]|]; [discriminate|]);
    inversion H; eexists _, raw, _; (split; [exact P|]);
    now rewrite <- app_assoc.
Qed.

(** Where [convertTable] writes: into the formatted output directory, under
    the base name of the input with the extension of the target format. *)
Lemma convertTable_path (file : text) (cfg : conversion)
    (rootDir dataDir : text) (defs : pandoc_defaults) (l : log) (p : text) :
  In p (written l (fst (convertTable expand format check_output open_w write_to
                          file cfg rootDir dataDir defs l))) ->
  exists toFormat toExt dir outDir,
    to_ cfg = Some toFormat /\ getExtension toFormat = Ok toExt /\
    outputDir cfg = Some dir /\
    format dir [(T "rootDir", rootDir); (T "ext", slice_from toExt 1)]
      = Done outDir /\
    p = Path.join outDir (fst (Path.splitext (snd (Path.split file))) ++ toExt).
Proof.
  unfold convertTable, and_then, of_outcome, of_result, write, written.
  assert (N : forall q, In q (map fst (skipn (length l) l)) -> False).
  { intros q. now rewrite skipn_all. }
  destruct (match from_ cfg with Some f => Done f | None => getFormat file defs end)
    as [fromFormat|f]; [|intros H; now apply N in H].
  destruct (to_ cfg) as [toFormat|]; [|intros H; now apply N in H]. cbn [item].
  destruct (getExtension toFormat) as [toExt|e] eqn:X;
    [|intros H; now apply N in H].
  destruct (Path.splitext (snd (Path.split file))) as [baseName ext].
  destruct (outputDir cfg) as [dir|]; [|intros H; now apply N in H]. cbn [item].
  destruct (format dir _) as [outDir|f] eqn:F; [|intros H; now apply N in H].
  destruct (check_output l _) as [raw|f]; [|intros H; now apply N in H].
  destruct (open_w l _) as [f|]; [intros H; now apply N in H|].
  intros H. exists toFormat, toExt, dir, outDir.
  split; [reflexivity|]. split; [exact X|]. split; [reflexivity|].
  split; [exact F|]. cbn [fst].
  assert (W : forall c,
              In p (map fst (skipn (length l)
                      (l ++ [(Path.join outDir (baseName ++ toExt), c)]))) ->
              p = Path.join outDir (baseName ++ toExt)).
  { intros c. rewrite skipn_prefix. cbn [map fst In]. intros [E|[]].
    now symmetry. }
  assert (W2 : forall c c',
              In p (map fst (skipn (length l)
                      ((l ++ [(Path.join outDir (baseName ++ toExt), c)])
                       ++ [(Path.join outDir (baseName ++ toExt), c')]))) ->
              p = Path.join outDir (baseName ++ toExt)).
  { intros c c'. rewrite <- app_assoc, skipn_prefix.
    cbn [map fst In app]. intros [E|[E|[]]]; now symmetry. }
  revert H.
  destruct (write_to l _ raw) as [[left1 f]|]; [apply W|].
  destruct (if get (defaultPostProcessing cfg) false then _ else _) as [out1|e];
    [|apply W].
  destruct (if eqb_text toFormat (T "latex") then _ else _) as [out2|e];
    [|apply W].
  destruct (open_w _ _) as [f|]; [apply W|].
  destruct (write_to _ _ out2) as [[left2 f]|]; apply W2.
Qed.

(** X22. The output file is named after the base name of the input
    without its extension: two inputs with the same name in different
    directories, or with different extensions, are written to the same
    file by the same configuration group, the later one over the
    earlier. *)
Theorem same_name_same_file (d1 d2 stem e1 e2 : text) (cfg : conversion)
    (rootDir dataDir : text) (defs : pandoc_defaults) (l1 l2 : log)
    (p1 p2 : text) :
  no_sep stem = true -> named stem = true ->
  plain e1 = true -> plain e2 = true ->
  In p1 (written l1 (fst (convertTable expand format check_output open_w write_to
           (d1 ++ Path.sep :: stem ++ Path.extsep :: e1)
           cfg rootDir dataDir defs l1))) ->
  In p2 (written l2 (fst (convertTable expand format check_output open_w write_to
           (d2 ++ Path.sep :: stem ++ Path.extsep :: e2)
           cfg rootDir dataDir defs l2))) ->
  p1 = p2.
Proof.
  intros Hs Hn He1 He2 H1 H2.
  apply convertTable_path in H1. apply convertTable_path in H2.
  destruct H1 as (f1 & x1 & r1 & o1 & A1 & B1 & C1 & D1 & ->).
  destruct H2 as (f2 & x2 & r2 & o2 & A2 & B2 & C2 & D2 & ->).
  rewrite A1 in A2. inversion A2; subst f2.
  rewrite B1 in B2. inversion B2; subst x2.
  rewrite C1 in C2. inversion C2; subst r2.
  rewrite D1 in D2. inversion D2; subst o2.
  assert (N : forall e, plain e = true ->
                        no_sep (stem ++ Path.extsep :: e) = true).
  { intros e He. apply plain_split in He. destruct He as [_ He].
    unfold no_sep in *. rewrite forallb_app, Hs. cbn [forallb]. now rewrite He. }
  rewrite !split_tail_name by (apply N; assumption).
  rewrite !splitext_ext by assumption.
  rewrite Hn. reflexivity.
Qed.

End DriverFacts.


(** On a full disk the first write fails on the opened file: the
    conversion ends there, and the output file is left empty. *)
Example convertTable_full_disk :
  convertTable expand_plain format_plain (pandoc_prints table_11) opens
    full_disk (T "docs/a.md") to_latex (T ".") (T "tools/convert") general [] =
  ([(T "build/a.tex", [])], Failed (Raised (T "OSError"))).
Proof. vm_compute. reflexivity. Qed.

Lemma other_targets_untouched_witness :
  convertTable expand_plain format_plain (pandoc_prints table_11) opens writes
    (T "docs/a.md") to_html (T ".") (T "tools/convert") general [] =
  ([(T "build/a.html", table_11); (T "build/a.html", table_11)], Done tt) /\
  exists outFile raw argv,
    pandoc_prints table_11 [] argv = Done raw /\
    [(T "build/a.html", table_11); (T "build/a.html", table_11)] =
    [] ++ [(outFile, raw); (outFile, raw)].
Proof.
  assert (H : convertTable expand_plain format_plain (pandoc_prints table_11)
                opens writes (T "docs/a.md") to_html (T ".") (T "tools/convert")
                general [] =
              ([(T "build/a.html", table_11); (T "build/a.html", table_11)],
               Done tt))
    by (vm_compute; reflexivity).
  split; [exact H|].
  exact (other_targets_untouched expand_plain format_plain
           (pandoc_prints table_11) opens writes _ to_html _ _ _ (T "html") _ _
           eq_refl eq_refl H).
Defined.

Lemma same_name_same_file_witness :
  In (T "build/a.tex")
     (written [] (fst (convertTable expand_plain format_plain
                         (pandoc_prints table_11) opens writes (T "docs/a.md")
                         to_latex (T ".") (T "tools/convert") general []))) /\
  In (T "build/a.tex")
     (written [] (fst (convertTable expand_plain format_plain
                         (pandoc_prints table_11) opens writes (T "src/old/a.html")
                         to_latex (T ".") (T "tools/convert") general []))) /\
  T "build/a.tex" = T "build/a.tex".
Proof.
  assert (H1 : In (T "build/a.tex")
     (written [] (fst (convertTable expand_plain format_plain
                         (pandoc_prints table_11) opens writes (T "docs/a.md")
                         to_latex (T ".") (T "tools/convert") general []))))
    by (vm_compute; left; reflexivity).
  assert (H2 : In (T "build/a.tex")
     (written [] (fst (convertTable expand_plain format_plain
                         (pandoc_prints table_11) opens writes (T "src/old/a.html")
                         to_latex (T ".") (T "tools/convert") general []))))
    by (vm_compute; left; reflexivity).
  split; [exact H1|]. split; [exact H2|].
  exact (same_name_same_file expand_plain format_plain
           (pandoc_prints table_11) opens writes
           (T "docs") (T "src/old") (T "a") (T "md") (T "html") to_latex
           (T ".") (T "tools/convert") general [] [] _ _
           eq_refl eq_refl eq_refl eq_refl H1 H2).
Defined.

(** ** The conversion of a group *)

Section GroupFacts.

Variable expand : text -> result text.
Variable format : text -> list (text * text) -> outcome text.
Variable check_output : log -> list text -> outcome text.
Variable open_w : log -> text -> option failure.
Variable write_to : log -> text -> text -> option (text * failure).
Variable glob : log -> text -> list text.

(** Globbing writes nothing, and every pattern is looked up among the
    files there are at the start. *)
Lemma glob_all_found (rootDir : text) (gs gs' : list text) (l : log) :
  Forall2 (fun g g' => format g [(T "rootDir", rootDir)] = Done g') gs gs' ->
  forall files,
    glob_all format glob rootDir gs files l =
    (l, Done (files ++ flat_map (glob l) gs')).
Proof.
  induction 1 as [|g g' gs gs' Hg _ IH]; intros files; cbn [glob_all flat_map].
  - unfold of_outcome. now rewrite app_nil_r.
  - unfold and_then, of_outcome. rewrite Hg. rewrite IH, app_assoc. reflexivity.
Qed.

(** X25. [convertTables] expands all its globs before it converts the
    first file: every pattern is looked up among the files there are at the
    start, so what the conversions write is not picked up by the group
    that writes it; the files found are converted in the order of the
    patterns and of the matches, a file matched twice is converted twice,
    and a group whose patterns match nothing succeeds and writes
    nothing. *)
Theorem convertTables_globs_first (cfg : conversion) (rootDir dataDir : text)
    (defs : pandoc_defaults) (g : text + list text) (gs' : list text)
    (l : log) :
  globs cfg = Some g ->
  Forall2 (fun a b => format a [(T "rootDir", rootDir)] = Done b)
          (match g with inl a => [a] | inr gs => gs end) gs' ->
  convertTables expand format check_output open_w write_to glob cfg rootDir dataDir defs l =
  for_each (fun f => convertTable expand format check_output open_w write_to
                       f cfg rootDir dataDir defs)
           (flat_map (glob l) gs') l /\
  (flat_map (glob l) gs' = [] ->
   convertTables expand format check_output open_w write_to glob cfg rootDir dataDir defs l
   = (l, Done tt)).
Proof.
  intros Hg Hf.
  assert (E : convertTables expand format check_output open_w write_to glob cfg rootDir
                dataDir defs l =
              for_each (fun f => convertTable expand format check_output open_w write_to
                                   f cfg rootDir dataDir defs)
                       (flat_map (glob l) gs') l).
  { unfold convertTables, and_then. rewrite Hg. cbn [item of_outcome].
    rewrite (glob_all_found rootDir _ gs' l Hf []). reflexivity. }
  split; [exact E|]. intros H. rewrite E, H. reflexivity.
Qed.

End GroupFacts.

Lemma convertTables_globs_first_witness :
  convertTables expand_plain format_plain (pandoc_prints table_11) opens writes
    some_files to_html (T ".") (T "tools/convert") general [] =
  for_each (fun f => convertTable expand_plain format_plain
                       (pandoc_prints table_11) opens writes
                       f to_html (T ".") (T "tools/convert") general)
           (flat_map (some_files []) [T "docs/*.md"; T "src/*.md"]) [] /\
  (flat_map (some_files []) [T "docs/*.md"; T "src/*.md"] = [] ->
   convertTables expand_plain format_plain (pandoc_prints table_11) opens writes
     some_files to_html (T ".") (T "tools/convert") general [] = ([], Done tt)).
Proof.
  apply (convertTables_globs_first expand_plain format_plain
           (pandoc_prints table_11) opens writes some_files to_html (T ".")
           (T "tools/convert") general
           (inr [T "docs/*.md"; T "src/*.md"]) [T "docs/*.md"; T "src/*.md"] []).
  - reflexivity.
  - repeat constructor.
Defined.

(** The group of the example converts the two files in the order they were
    found, each written twice. *)
Example convertTables_order :
  convertTables expand_plain format_plain (pandoc_prints table_11) opens writes
    some_files to_html (T ".") (T "tools/convert") general [] =
  ([(T "build/a.html", table_11); (T "build/a.html", table_11);
    (T "build/b.html", table_11); (T "build/b.html", table_11)], Done tt).
Proof. vm_compute. reflexivity. Qed.

(** ** The default patterns *)

(** With DOTALL, a literal, [.*?] and a literal match from the first
    literal through the first occurrence of the second behind it. *)
Lemma bracket_match (b e : text) (prev : option ascii) (s : text) :
  match_here DOTALL (Seq (lit b) (Seq (StarLazy Dot) (lit e))) false prev s =
  if starts_with b s then
    match index_of e (skipn (length b) s) with
    | Some j => Some (block_match (firstn (length b + j + length e) s))
    | None => None
    end
  else None.
Proof.
  unfold match_here. cbn [exec]. rewrite exec_lit.
  destruct (starts_with b s) eqn:HB; [|reflexivity].
  set (s1 := skipn (length b) s).
  erewrite star_lazy_find with (e := e);
    [ | intros p s' cs; rewrite exec_lit; reflexivity | ].
  - destruct (index_of e s1) as [j|] eqn:HE; [|reflexivity].
    destruct (index_of_starts _ _ _ HE) as [HS Hj].
    apply starts_with_split in HB. fold s1 in HB.
    apply starts_with_split in HS.
    set (s2 := skipn (length e) (skipn j s1)) in *.
    assert (Hs : s = (b ++ firstn j s1 ++ e) ++ s2).
    { rewrite <- !app_assoc. rewrite <- HS, firstn_skipn. exact HB. }
    assert (Hn : length b + j + length e = length (b ++ firstn j s1 ++ e)).
    { rewrite !length_app, firstn_length_le by exact Hj. lia. }
    rewrite Hn. clearbody s2 s1. clear HB HS HE. subst s. cbn [andb].
    rewrite firstn_prefix. unfold block_match. f_equal. f_equal.
    rewrite firstn_app, Nat.sub_diag, firstn_all. simpl. now rewrite app_nil_r.
  - intros p s' cs. discriminate.
Qed.

(** One step of the first-head substitution. *)
Lemma firsthead_step (t : text) (prev : option ascii) (s : text) :
  sub_from DOTALL firsthead_re t prev s =
  match (if starts_with endfirsthead s
         then index_of endhead (skipn (length endfirsthead) s) else None) with
  | Some j =>
      let n := length endfirsthead + j + length endhead in
      t ++ sub_from DOTALL firsthead_re t (prev_after prev (firstn n s))
                    (skipn n s)
  | None =>
      match s with
      | [] => []
      | c :: s' => c :: sub_from DOTALL firsthead_re t (Some c) s'
      end
  end.
Proof.
  unfold sub_from, firsthead_re.
  change (T "\endfirsthead") with endfirsthead.
  change (T "\endhead") with endhead.
  rewrite scan_step.
  - rewrite bracket_match. destruct (starts_with endfirsthead s) eqn:HB.
    + destruct (index_of endhead (skipn (length endfirsthead) s)) as [j|] eqn:HE.
      * cbn [block_match group0 flat_map]. cbv zeta.
        assert (L : length endfirsthead + j + length endhead <= length s).
        { apply index_of_starts in HE. destruct HE as [HS Hj].
          apply starts_with_length in HS. rewrite !length_skipn in HS.
          apply starts_with_length in HB. rewrite length_skipn in Hj. lia. }
        rewrite firstn_length_le by exact L. reflexivity.
      * destruct s; reflexivity.
    + destruct s; reflexivity.
  - intros m. rewrite bracket_match.
    destruct (starts_with endfirsthead s) eqn:HB; [|discriminate].
    destruct (index_of endhead (skipn (length endfirsthead) s)); [|discriminate].
    intros H. inversion H. cbn [block_match group0].
    apply starts_with_split in HB. rewrite HB. discriminate.
Qed.

Lemma first_head_index (s : text) :
  first_head_at s =
  match (if starts_with endfirsthead s
         then index_of endhead (skipn (length endfirsthead) s) else None) with
  | Some _ => true
  | None => false
  end.
Proof.
  unfold first_head_at. destruct (starts_with endfirsthead s); [|reflexivity].
  cbn [andb]. apply occurs_index.
Qed.

(** A text without first head is left as it is. *)
Lemma firsthead_fixed (t : text) (s : text) :
  forall prev, has_first_head s = false ->
               sub_from DOTALL firsthead_re t prev s = s.
Proof.
  induction s as [|c s IH]; intros prev H; rewrite firsthead_step;
    cbn [has_first_head] in H; apply orb_false_iff in H; destruct H as [H1 H2];
    rewrite first_head_index in H1;
    destruct (if starts_with endfirsthead _ then _ else _); try discriminate.
  - reflexivity.
  - f_equal. now apply IH.
Qed.

Lemma has_first_head_none (s : text) :
  occurs endhead s = false -> has_first_head s = false.
Proof.
  induction s as [|c s IH]; intros H; cbn [has_first_head].
  - unfold first_head_at. reflexivity.
  - rewrite IH, orb_false_r.
    + unfold first_head_at.
      destruct (occurs endhead (skipn (length endfirsthead) (c :: s))) eqn:O;
        [|apply andb_false_r].
      apply occurs_skipn in O. congruence.
    + rewrite occurs_cons in H. now apply orb_false_iff in H.
Qed.

(** In front of a text, characters at which the needle does not start add
    no occurrence. *)
Lemma occurs_app_free (p a r : text) :
  (forall i, i < length a -> starts_with p (skipn i a ++ r) = false) ->
  occurs p (a ++ r) = occurs p r.
Proof.
  induction a as [|c a IH]; intros H; [reflexivity|].
  cbn [app]. rewrite occurs_cons.
  assert (H0 : starts_with p (c :: a ++ r) = false) by (apply (H 0); simpl; lia).
  rewrite H0. cbn [orb].
  apply IH. intros i Hi. apply (H (S i)). simpl. lia.
Qed.

Lemma has_first_head_app_free (a r : text) :
  (forall i, i < length a ->
             starts_with endfirsthead (skipn i a ++ r) = false) ->
  has_first_head (a ++ r) = has_first_head r.
Proof.
  induction a as [|c a IH]; intros H; [reflexivity|].
  cbn [app has_first_head]. unfold first_head_at at 1.
  assert (H0 : starts_with endfirsthead (c :: a ++ r) = false)
    by (apply (H 0); simpl; lia).
  rewrite H0. cbn [andb orb].
  apply IH. intros i Hi. apply (H (S i)). simpl. lia.
Qed.

(** The header-end marker does not start inside the first-head marker. *)
Lemma endhead_not_in_endfirsthead (r : text) :
  occurs endhead (endfirsthead ++ r) = occurs endhead r.
Proof.
  apply occurs_app_free. intros i Hi.
  do 13 (destruct i as [|i]; [reflexivity|]). simpl in Hi. lia.
Qed.

(** The first-head marker does not start inside the header-end marker. *)
Lemma endfirsthead_not_in_endhead (r : text) :
  has_first_head (endhead ++ r) = has_first_head r.
Proof.
  apply has_first_head_app_free. intros i Hi.
  do 8 (destruct i as [|i]; [reflexivity|]). simpl in Hi. lia.
Qed.

(** What the output starts with, when it holds no backslash, the input
    starts with: a replacement begins with a backslash. *)
Lemma firsthead_prefix (w : text) :
  forallb (fun c => negb (Ascii.eqb c "\"%char)) w = true ->
  forall s prev,
    starts_with w (sub_from DOTALL firsthead_re endhead prev s) = true ->
    starts_with w s = true.
Proof.
  induction w as [|a w IH]; intros Hw s prev H; [reflexivity|].
  cbn [forallb] in Hw. apply andb_true_iff in Hw. destruct Hw as [Ha Hw].
  rewrite firsthead_step in H.
  destruct (if starts_with endfirsthead s then _ else _) as [j|].
  - exfalso. cbv zeta in H.
    cbn [endhead T list_ascii_of_string app starts_with] in H.
    apply andb_true_iff in H. destruct H as [H _].
    apply Ascii.eqb_eq in H. subst a. discriminate Ha.
  - destruct s as [|c s]; [discriminate|].
    cbn [starts_with] in *. apply andb_true_iff in H. destruct H as [-> H].
    cbn [andb]. now apply (IH Hw s (Some c)).
Qed.

Lemma firsthead_marker_prefix (s : text) (prev : option ascii) :
  starts_with endfirsthead (sub_from DOTALL firsthead_re endhead prev s) = true ->
  starts_with endfirsthead s = true.
Proof.
  intros H. rewrite firsthead_step in H.
  destruct (if starts_with endfirsthead s then _ else _) as [j|].
  - discriminate H.
  - destruct s as [|c s]; [discriminate|].
    cbn [endfirsthead T list_ascii_of_string starts_with] in *.
    apply andb_true_iff in H. destruct H as [-> H]. cbn [andb].
    now apply (firsthead_prefix (T "endfirsthead") eq_refl s (Some c)).
Qed.

(** No first head is left by the substitution. *)
Lemma firsthead_clean (n : nat) :
  forall s prev, length s <= n ->
    has_first_head (sub_from DOTALL firsthead_re endhead prev s) = false.
Proof.
  induction n as [|n IH]; intros s prev Hlen.
  - destruct s; [|simpl in Hlen; lia]. rewrite firsthead_step. reflexivity.
  - destruct (first_head_at (sub_from DOTALL firsthead_re endhead prev s))
      eqn:Hhead.
    + exfalso. unfold first_head_at in Hhead.
      apply andb_true_iff in Hhead. destruct Hhead as [HB HE].
      pose proof (firsthead_marker_prefix _ _ HB) as HS.
      destruct (index_of endhead (skipn (length endfirsthead) s)) as [j|] eqn:E.
      * rewrite firsthead_step, HS, E in HB. discriminate HB.
      * assert (O : occurs endhead s = false).
        { apply starts_with_split in HS. rewrite HS, endhead_not_in_endfirsthead.
          now rewrite occurs_index, E. }
        rewrite firsthead_fixed in HE by now apply has_first_head_none.
        apply occurs_skipn in HE. congruence.
    + rewrite firsthead_step in Hhead |- *.
      destruct (if starts_with endfirsthead s then _ else _) as [j|] eqn:M.
      * cbv zeta. rewrite endfirsthead_not_in_endhead. apply IH.
        rewrite length_skipn.
        destruct (starts_with endfirsthead s) eqn:HS; [|discriminate].
        apply starts_with_length in HS. simpl in HS |- *. lia.
      * destruct s as [|c s]; [reflexivity|].
        cbn [has_first_head]. rewrite Hhead. cbn [orb].
        apply IH. simpl in Hlen. lia.
Qed.

(** X23. The second default pattern removes every first head: once the
    text from a first-head marker through the next header-end marker is
    replaced by the header-end marker, no first-head marker that is left
    has a header-end marker behind it, so a second pass changes nothing;
    the texts the substitution leaves as they are are exactly those
    without first head. *)
Theorem first_heads_removed (output : text) :
  has_first_head (sub_text DOTALL firsthead_re endhead output) = false /\
  (sub_text DOTALL firsthead_re endhead output = output <->
   has_first_head output = false).
Proof.
  rewrite sub_text_from. split; [apply (firsthead_clean (length output)); lia|].
  split.
  - intros E. rewrite <- E. apply (firsthead_clean (length output)). lia.
  - apply firsthead_fixed.
Qed.

(** The default post-processing of a LaTeX text with a first head, the
    templates expanded: the head that is repeated is removed, and the strut
    behind a list is. *)
Example default_patterns :
  sub_all expand_plain (get_list defaultTableRegexes (T "latex"))
    (unlines ["\toprule"; "A & B \\"; "\midrule"; "\endfirsthead";
              "\toprule"; "A & B \\"; "\midrule"; "\endhead";
              "\end{itemize}\strut & y \\"]%string) =
  Ok (unlines ["\toprule"; "A & B \\"; "\midrule"; "\endhead";
               "\end{itemize} & y \\"]%string) /\
  expand_plain (T "\\endhead") = Ok endhead.
Proof. vm_compute. split; reflexivity. Qed.

(** One step of the strut substitution. *)
Lemma strut_step (t : text) (prev : option ascii) (s : text) :
  sub_from no_flags strut_re t prev s =
  if starts_with (end_itemize ++ strut) s then
    t ++ sub_from no_flags strut_re t
           (prev_after prev (end_itemize ++ strut))
           (skipn (length (end_itemize ++ strut)) s)
  else match s with
       | [] => []
       | c :: s' => c :: sub_from no_flags strut_re t (Some c) s'
       end.
Proof. unfold strut_re. apply sub_lit_step. discriminate. Qed.

(** What the output starts with, as far as it holds no backslash, the
    input starts with: a replacement begins with a backslash. *)
Lemma strut_plain_prefix (w v : text) :
  forallb (fun c => negb (Ascii.eqb c "\"%char)) w = true ->
  forall s prev,
    starts_with (w ++ v) (sub_from no_flags strut_re end_itemize prev s) = true ->
    starts_with w s = true /\
    exists prev',
      starts_with v (sub_from no_flags strut_re end_itemize prev'
                       (skipn (length w) s)) = true.
Proof.
  induction w as [|a w IH]; intros Hw s prev H; [split; [reflexivity | eauto]|].
  cbn [forallb] in Hw. apply andb_true_iff in Hw. destruct Hw as [Ha Hw].
  rewrite strut_step in H.
  destruct (starts_with (end_itemize ++ strut) s).
  - exfalso. cbn [end_itemize T list_ascii_of_string app starts_with] in H.
    apply andb_true_iff in H. destruct H as [H _].
    apply Ascii.eqb_eq in H. subst a. discriminate Ha.
  - destruct s as [|c s]; [discriminate|].
    cbn [app starts_with] in *. apply andb_true_iff in H. destruct H as [-> H].
    cbn [andb length skipn]. now apply (IH Hw s (Some c)).
Qed.

Lemma strut_prefix (s : text) (prev : option ascii) :
  starts_with strut (sub_from no_flags strut_re end_itemize prev s) = true ->
  starts_with strut s = true.
Proof.
  intros H. rewrite strut_step in H.
  destruct (starts_with (end_itemize ++ strut) s).
  - discriminate H.
  - destruct s as [|c s]; [discriminate|].
    cbn [strut T list_ascii_of_string starts_with] in *.
    apply andb_true_iff in H. destruct H as [-> H]. cbn [andb].
    now apply (strut_plain_prefix (T "strut") [] eq_refl s (Some c)).
Qed.

Lemma starts_with_app_both (a u s : text) :
  starts_with (a ++ u) (a ++ s) = starts_with u s.
Proof.
  induction a as [|x a IH]; [reflexivity|].
  cbn [app starts_with]. now rewrite Ascii.eqb_refl, IH.
Qed.

(** When the output starts with the strut pattern, the input starts with
    the pattern and one more strut. *)
Lemma strut_marker_prefix (s : text) (prev : option ascii) :
  starts_with (end_itemize ++ strut)
              (sub_from no_flags strut_re end_itemize prev s) = true ->
  starts_with ((end_itemize ++ strut) ++ strut) s = true.
Proof.
  intros H. rewrite strut_step in H.
  destruct (starts_with (end_itemize ++ strut) s) eqn:HP.
  - rewrite starts_with_app_both in H. apply strut_prefix in H.
    apply starts_with_split in HP. rewrite HP. now rewrite starts_with_app_both.
  - exfalso. destruct s as [|c s]; [discriminate|].
    change (end_itemize ++ strut)
      with ("\"%char :: (T "end{itemize}" ++ strut)) in H, HP.
    cbn [starts_with] in H, HP.
    apply andb_true_iff in H. destruct H as [Hc H]. rewrite Hc in HP.
    cbn [andb] in HP.
    apply (strut_plain_prefix (T "end{itemize}") strut eq_refl s (Some c)) in H.
    destruct H as [Hu [prev' Hv]]. apply strut_prefix in Hv.
    apply starts_with_split in Hu. rewrite Hu in HP.
    rewrite starts_with_app_both in HP. congruence.
Qed.

(** No strut behind a list is left by the substitution, unless the list
    had two. *)
Lemma strut_clean (n : nat) :
  forall s prev, length s <= n ->
    occurs ((end_itemize ++ strut) ++ strut) s = false ->
    occurs (end_itemize ++ strut)
           (sub_from no_flags strut_re end_itemize prev s) = false.
Proof.
  induction n as [|n IH]; intros s prev Hlen Hs.
  - destruct s; [|simpl in Hlen; lia]. rewrite strut_step. reflexivity.
  - assert (Hhead : starts_with (end_itemize ++ strut)
                      (sub_from no_flags strut_re end_itemize prev s) = false).
    { destruct (starts_with _ (sub_from _ _ _ _ _)) eqn:E; [|reflexivity].
      apply strut_marker_prefix, starts_with_occurs in E. congruence. }
    rewrite strut_step in Hhead |- *.
    destruct (starts_with (end_itemize ++ strut) s) eqn:HP.
    + rewrite occurs_app_free.
      * apply IH.
        -- apply starts_with_length in HP. rewrite length_skipn.
           simpl in HP |- *. lia.
        -- destruct (occurs _ (skipn _ s)) eqn:O; [|reflexivity].
           apply occurs_skipn in O. congruence.
      * intros i Hi. destruct i as [|i]; [exact Hhead|].
        do 12 (destruct i as [|i]; [reflexivity|]). simpl in Hi. lia.
    + destruct s as [|c s]; [reflexivity|].
      rewrite occurs_cons, Hhead. cbn [orb]. apply IH; [simpl in Hlen; lia|].
      rewrite occurs_cons in Hs. now apply orb_false_iff in Hs.
Qed.

(** A text without strut behind a list is left as it is. *)
Lemma strut_fixed (t s : text) :
  forall prev, occurs (end_itemize ++ strut) s = false ->
               sub_from no_flags strut_re t prev s = s.
Proof.
  induction s as [|c s IH]; intros prev H; rewrite strut_step.
  - reflexivity.
  - rewrite occurs_cons in H. apply orb_false_iff in H. destruct H as [-> H].
    f_equal. now apply IH.
Qed.

(** X24. The first default pattern takes the strut from behind every
    list: in a text in which no list is followed by two struts, no strut
    behind a list is left by the substitution, and a text without strut
    behind a list is returned as it is. *)
Theorem struts_removed (output : text) :
  occurs ((end_itemize ++ strut) ++ strut) output = false ->
  occurs (end_itemize ++ strut)
         (sub_text no_flags strut_re end_itemize output) = false /\
  (occurs (end_itemize ++ strut) output = false ->
   sub_text no_flags strut_re end_itemize output = output).
Proof.
  intros H. rewrite sub_text_from. split.
  - apply (strut_clean (length output)); [lia | exact H].
  - apply strut_fixed.
Qed.

Lemma struts_removed_witness :
  occurs (end_itemize ++ strut)
         (sub_text no_flags strut_re end_itemize
            (T "\begin{itemize} \item a \end{itemize}\strut & b \\")) = false.
Proof.
  apply (struts_removed (T "\begin{itemize} \item a \end{itemize}\strut & b \\")).
  vm_compute. reflexivity.
Defined.

(** Of two struts behind a list the substitution takes one: it makes one
    pass and does not read what it has put. *)
Example second_strut_left :
  sub_text no_flags strut_re end_itemize (T "\end{itemize}\strut\strut") =
  T "\end{itemize}\strut".
Proof. reflexivity. Qed.

(* ================================================================== *)
(** * Reading the header layout *)
(* ================================================================== *)

(** ** The matcher finds what the pattern describes *)

Section Completeness.

Variable fl : flags.
Variable R : Type.

Lemma star_greedy_complete (a : atom) (w s' : text) (k : @cont R) :
  forallb (atom_ok fl a) w = true ->
  accepts k s' ->
  forall prev cs, star_greedy fl a prev (w ++ s') cs k <> None.
Proof.
  intros Hw Hk. induction w as [|c w IH]; intros prev cs.
  - cbn [app]. destruct s' as [|d s']; cbn [star_greedy]; [apply Hk|].
    destruct (atom_ok fl a d); [|apply Hk].
    destruct (star_greedy fl a (Some d) s' cs k); [discriminate | apply Hk].
  - cbn [forallb] in Hw. apply andb_true_iff in Hw. destruct Hw as [Hc Hw].
    cbn [app star_greedy]. rewrite Hc.
    specialize (IH Hw (Some c) cs).
    destruct (star_greedy fl a (Some c) (w ++ s') cs k); [discriminate|].
    contradiction.
Qed.

Lemma star_lazy_complete (a : atom) (w s' : text) (k : @cont R) :
  forallb (atom_ok fl a) w = true ->
  accepts k s' ->
  forall prev cs, star_lazy fl a prev (w ++ s') cs k <> None.
Proof.
  intros Hw Hk. induction w as [|c w IH]; intros prev cs.
  - cbn [app]. destruct s' as [|d s']; cbn [star_lazy].
    + destruct (k prev [] cs) eqn:E; [discriminate | now apply Hk in E].
    + destruct (k prev (d :: s') cs) eqn:E; [discriminate | now apply Hk in E].
  - cbn [forallb] in Hw. apply andb_true_iff in Hw. destruct Hw as [Hc Hw].
    cbn [app star_lazy]. rewrite Hc.
    destruct (k prev (c :: w ++ s') cs); [discriminate|]. now apply IH.
Qed.

(** Where a text of the language of a pattern without [^] stands, and the
    continuation accepts behind it, the matcher finds a match. *)
Lemma exec_complete (r : regex) :
  bol_free r = true ->
  forall w s' (k : @cont R),
    lang fl r w -> accepts k s' ->
    forall prev cs, exec fl r prev (w ++ s') cs k <> None.
Proof.
  induction r as [ | a | | a | a | a | r IH | n r IH | r1 IH1 r2 IH2 ];
    intros B w s' k Hw Hk prev cs; cbn [lang bol_free exec] in *.
  - subst w. apply Hk.
  - destruct Hw as (c & -> & Hc). cbn [app one]. rewrite Hc. apply Hk.
  - discriminate.
  - now apply star_greedy_complete.
  - now apply star_lazy_complete.
  - destruct Hw as [Hne Hw]. destruct w as [|c w]; [contradiction|].
    cbn [forallb] in Hw. apply andb_true_iff in Hw. destruct Hw as [Hc Hw].
    cbn [app one]. rewrite Hc. now apply star_greedy_complete.
  - destruct (exec fl r prev (w ++ s') cs k) eqn:E; [discriminate|].
    destruct Hw as [-> | Hw]; [apply Hk|].
    exfalso. revert E. now apply IH.
  - apply (IH B w s' _ Hw). intros p cs'. apply Hk.
  - apply andb_true_iff in B. destruct B as [B1 B2].
    destruct Hw as (u & v & -> & Hu & Hv). rewrite <- app_assoc.
    apply (IH1 B1 u (v ++ s') _ Hu). intros p cs'. now apply IH2.
Qed.

End Completeness.

(** ** Reading a column declaration *)

(** ** Reading a column declaration *)

Lemma span_digits_split (w : text) :
  w = fst (span_digits w) ++ snd (span_digits w) /\
  forallb is_digit (fst (span_digits w)) = true.
Proof.
  induction w as [|c w [IH1 IH2]]; [split; reflexivity|].
  cbn [span_digits]. destruct (is_digit c) eqn:Hc.
  - destruct (span_digits w) as [d r]. cbn [fst snd app forallb] in *.
    rewrite Hc, IH2. split; [now f_equal | reflexivity].
  - split; reflexivity.
Qed.

Lemma is_numeral_lang (w : text) :
  is_numeral w = true -> lang no_flags numeral w.
Proof.
  unfold is_numeral. destruct (span_digits_split w) as [E D].
  destruct (span_digits w) as [ip r]. cbn [fst snd] in *.
  destruct ip as [|i ip]; [discriminate|].
  destruct r as [|c fp].
  - intros _. exists (i :: ip), []. repeat split; auto.
    + discriminate.
    + now left.
  - intros H. apply andb_true_iff in H. destruct H as [Hc Hf].
    apply Ascii.eqb_eq in Hc. subst c.
    destruct fp as [|f fp]; [discriminate|].
    exists (i :: ip), ("."%char :: f :: fp). repeat split; auto.
    + discriminate.
    + right. exists ["."%char], (f :: fp). repeat split; auto.
      * exists "."%char. split; [reflexivity|]. apply Ascii.eqb_refl.
      * discriminate.
Qed.

Lemma numeral_chars (w : text) :
  lang no_flags numeral w -> forallb numchar w = true /\ w <> [].
Proof.
  intros (d & r & -> & (Hd & Hdig) & Hr).
  change (atom_ok no_flags Digit) with is_digit in Hdig.
  assert (Dn : forall u, forallb is_digit u = true -> forallb numchar u = true).
  { induction u as [|c u IH]; [reflexivity|]. cbn [forallb]. intros H.
    apply andb_true_iff in H. destruct H as [Hc H]. unfold numchar at 1.
    rewrite Hc. cbn [orb andb]. now apply IH. }
  split.
  - rewrite forallb_app, (Dn d Hdig). cbn [andb].
    destruct Hr as [-> | (p & e & -> & (c & -> & Hc) & (He & Hedig))];
      [reflexivity|].
    cbn [atom_ok] in Hc. apply Ascii.eqb_eq in Hc. subst c.
    change (atom_ok no_flags Digit) with is_digit in Hedig.
    cbn [app forallb]. rewrite (Dn e Hedig). reflexivity.
  - destruct d; [contradiction | discriminate].
Qed.

Lemma lang_lit (fl : flags) (l : text) : lang fl (lit l) l.
Proof.
  induction l as [|c l IH]; [reflexivity|].
  cbn [lit lang]. exists [c], l. repeat split; auto.
  exists c. split; [reflexivity|]. cbn [atom_ok]. apply Ascii.eqb_refl.
Qed.

Lemma open_line_dot (s : text) :
  open_line s = true -> forallb (atom_ok no_flags Dot) s = true.
Proof.
  unfold open_line. induction s as [|c s IH]; [reflexivity|].
  cbn [forallb]. intros H. apply andb_true_iff in H. destruct H as [Hc H].
  apply andb_true_iff in Hc. destruct Hc as [_ Hc].
  cbn [atom_ok dotall no_flags orb]. rewrite Hc. now apply IH.
Qed.

(** A declaration is a text of the language of the width pattern. *)
Lemma declaration_lang (d : column) :
  open_line (col_format d) = true -> open_line (col_factor d) = true ->
  is_numeral (col_width d) = true ->
  lang no_flags width_re (declaration d).
Proof.
  intros HF HN Hw. unfold width_re, declaration. cbn [lang].
  exists (T ">{"), (col_format d ++ T "}p{" ++ col_factor d ++ T "\real{"
                   ++ col_width d ++ T "}}").
  split; [reflexivity|]. split; [apply lang_lit|].
  exists (col_format d), (T "}p{" ++ col_factor d ++ T "\real{"
                          ++ col_width d ++ T "}}").
  split; [reflexivity|]. split; [now apply open_line_dot|].
  exists (T "}"), (T "p{" ++ col_factor d ++ T "\real{" ++ col_width d ++ T "}}").
  split; [reflexivity|]. split; [apply lang_lit|].
  exists [], (T "p{" ++ col_factor d ++ T "\real{" ++ col_width d ++ T "}}").
  split; [reflexivity|]. split; [reflexivity|].
  exists (T "p{"), (col_factor d ++ T "\real{" ++ col_width d ++ T "}}").
  split; [reflexivity|]. split; [apply lang_lit|].
  exists (col_factor d), (T "\real{" ++ col_width d ++ T "}}").
  split; [reflexivity|]. split; [now apply open_line_dot|].
  exists (T "\real{"), (col_width d ++ T "}}").
  split; [reflexivity|]. split; [apply lang_lit|].
  exists (col_width d), (T "}}").
  split; [reflexivity|]. split; [now apply is_numeral_lang | apply lang_lit].
Qed.

(** What a match of the width pattern is made of. *)
Lemma width_parse (adv : bool) (prev : option ascii) (s : text) (m : rmatch) :
  match_here no_flags width_re adv prev s = Some m ->
  exists g1 x y num rest,
    s = T ">{" ++ g1 ++ T "}" ++ x ++ T "p{" ++ y ++ T "\real{"
        ++ num ++ T "}}" ++ rest /\
    forallb (atom_ok no_flags Dot) g1 = true /\
    forallb (atom_ok no_flags Dot) x = true /\
    forallb (atom_ok no_flags Dot) y = true /\
    lang no_flags numeral num /\
    m = {| group0 := T ">{" ++ g1 ++ T "}" ++ x ++ T "p{" ++ y ++ T "\real{"
                     ++ num ++ T "}}";
           groups := [(2, num); (1, g1)] |}.
Proof.
  unfold match_here, width_re. fold numeral. intros H.
  cbn [exec] in H. rewrite exec_lit in H.
  destruct (starts_with (T ">{") s) eqn:S0; [|discriminate].
  apply starts_with_split in S0. set (s0 := skipn (length (T ">{")) s) in *.
  apply star_greedy_lang in H. destruct H as (g1 & s1 & E1 & Hg1 & H).
  rewrite E1, firstn_prefix in H. rewrite exec_lit in H.
  destruct (starts_with (T "}") s1) eqn:S1; [|discriminate].
  apply starts_with_split in S1. set (s2 := skipn (length (T "}")) s1) in *.
  apply star_greedy_lang in H. destruct H as (x & s3 & E3 & Hx & H).
  rewrite exec_lit in H.
  destruct (starts_with (T "p{") s3) eqn:S3; [|discriminate].
  apply starts_with_split in S3. set (s4 := skipn (length (T "p{")) s3) in *.
  apply star_greedy_lang in H. destruct H as (y & s5 & E5 & Hy & H).
  rewrite exec_lit in H.
  destruct (starts_with (T "\real{") s5) eqn:S5; [|discriminate].
  apply starts_with_split in S5. set (s6 := skipn (length (T "\real{")) s5) in *.
  apply exec_lang in H; [|reflexivity].
  destruct H as (num & s7 & E7 & Hnum & H). rewrite E7, firstn_prefix in H.
  rewrite exec_lit in H.
  destruct (starts_with (T "}}") s7) eqn:S7; [|discriminate].
  apply starts_with_split in S7. set (rest := skipn (length (T "}}")) s7) in *.
  exists g1, x, y, num, rest.
  assert (Es : s = T ">{" ++ g1 ++ T "}" ++ x ++ T "p{" ++ y ++ T "\real{"
                   ++ num ++ T "}}" ++ rest).
  { rewrite S0, E1, S1. fold s2. rewrite E3, S3. fold s4. rewrite E5, S5.
    fold s6. rewrite E7, S7. reflexivity. }
  repeat split; auto.
  destruct (adv && _); [discriminate|]. inversion H. f_equal.
  clear H H1. clearbody rest. rewrite Es.
  replace (T ">{" ++ g1 ++ T "}" ++ x ++ T "p{" ++ y ++ T "\real{"
           ++ num ++ T "}}" ++ rest)
    with ((T ">{" ++ g1 ++ T "}" ++ x ++ T "p{" ++ y ++ T "\real{"
           ++ num ++ T "}}") ++ rest)
    by (rewrite <- !app_assoc; reflexivity).
  apply firstn_prefix.
Qed.

(** ** A declaration is read in one way *)

(** Where two texts agree and the second starts with a part without [c],
    followed by [c], the first [c] of the first text is not before it. *)
Lemma split_at_first (c : ascii) (b : text) :
  forallb (fun d => negb (Ascii.eqb d c)) b = true ->
  forall a X Y, a ++ c :: X = b ++ c :: Y ->
                exists a', a = b ++ a' /\ a' ++ c :: X = c :: Y.
Proof.
  induction b as [|d b IH]; intros Hb a X Y E; [exists a; auto|].
  cbn [forallb] in Hb. apply andb_true_iff in Hb. destruct Hb as [Hd Hb].
  destruct a as [|e a]; cbn [app] in E; inversion E; subst.
  - rewrite Ascii.eqb_refl in Hd. discriminate.
  - destruct (IH Hb a X Y H1) as (a' & -> & E'). exists a'. auto.
Qed.

Lemma forallb_In (f : ascii -> bool) (s : text) (c : ascii) :
  forallb f s = true -> In c s -> f c = true.
Proof. intros H. now apply forallb_forall. Qed.

Lemma closing_not_numchar : numchar "}"%char = false.
Proof. reflexivity. Qed.

(** Two runs of numeral characters, each followed by a closing brace, that
    start at the same place are the same. *)
Lemma numrun_unique (u v A B : text) :
  forallb numchar u = true -> forallb numchar v = true ->
  u ++ "}"%char :: A = v ++ "}"%char :: B -> u = v /\ A = B.
Proof.
  revert v. induction u as [|c u IH]; intros [|d v] Hu Hv E; cbn [app] in E.
  - inversion E. auto.
  - inversion E; subst. cbn [forallb] in Hv. rewrite closing_not_numchar in Hv.
    discriminate.
  - inversion E; subst. cbn [forallb] in Hu. rewrite closing_not_numchar in Hu.
    discriminate.
  - inversion E; subst. cbn [forallb] in Hu, Hv.
    apply andb_true_iff in Hu, Hv. destruct Hu as [_ Hu], Hv as [_ Hv].
    destruct (IH v Hu Hv H1) as [-> ->]. auto.
Qed.

Lemma line_head_app (t r : text) :
  forallb (fun c => negb (Ascii.eqb c nl)) t = true ->
  line_head (t ++ r) = t ++ line_head r.
Proof.
  induction t as [|c t IH]; intros H; [reflexivity|].
  cbn [forallb] in H. apply andb_true_iff in H. destruct H as [Hc H].
  cbn [app line_head]. apply negb_true_iff in Hc. rewrite Hc.
  f_equal. now apply IH.
Qed.

Lemma dot_no_nl (s : text) :
  forallb (atom_ok no_flags Dot) s = forallb (fun c => negb (Ascii.eqb c nl)) s.
Proof. reflexivity. Qed.

(** A text that ends in the marker of a width and goes on to end in it
    again has gone on by the marker at least. *)
Lemma real_again (U0 Z0 l : text) :
  (U0 ++ T "\real{") ++ l = Z0 ++ T "\real{" ->
  l = [] \/ In "\"%char l.
Proof.
  intros E. apply app_eq_app in E. destruct E as (m & [[E1 E2] | [E1 E2]]).
  - destruct l as [|c l]; [now left|].
    destruct m as [|a1 m]; [right; cbn [app] in E2; rewrite <- E2; now left|].
    exfalso.
    assert (Hm : exists m0 c0, a1 :: m = m0 ++ [c0] /\ c0 <> "{"%char).
    { cbn [T list_ascii_of_string app] in E2.
      inversion E2 as [[Ha1 E3]].
      destruct m as [|a2 m];
        [exists [], a1; subst; split; [reflexivity | discriminate]|].
      inversion E3 as [[Ha2 E4]].
      destruct m as [|a3 m];
        [exists [a1], a2; subst; split; [reflexivity | discriminate]|].
      inversion E4 as [[Ha3 E5]].
      destruct m as [|a4 m];
        [exists [a1; a2], a3; subst; split; [reflexivity | discriminate]|].
      inversion E5 as [[Ha4 E6]].
      destruct m as [|a5 m];
        [exists [a1; a2; a3], a4; subst; split; [reflexivity | discriminate]|].
      inversion E6 as [[Ha5 E7]].
      destruct m as [|a6 m];
        [exists [a1; a2; a3; a4], a5; subst; split; [reflexivity | discriminate]|].
      inversion E7 as [[Ha6 E8]].
      destruct m; discriminate E8. }
    destruct Hm as (m0 & c0 & Em & Hc0). rewrite Em in E1.
    change (T "\real{") with (T "\real" ++ ["{"%char]) in E1.
    rewrite !app_assoc in E1. apply app_inj_tail in E1.
    destruct E1 as [_ E1]. congruence.
  - right. rewrite E2. apply in_or_app. right. now left.
Qed.

Lemma open_line_no_close (s : text) :
  open_line s = true ->
  forallb (fun d => negb (Ascii.eqb d "}"%char)) s = true.
Proof.
  unfold open_line. induction s as [|c s IH]; [reflexivity|].
  cbn [forallb]. intros H. apply andb_true_iff in H. destruct H as [Hc H].
  apply andb_true_iff in Hc. destruct Hc as [-> _]. now apply IH.
Qed.

Lemma not_in_numerals (c : ascii) (w : text) :
  numchar c = false -> forallb numchar w = true -> In c w -> False.
Proof.
  intros Hc Hw Hin. rewrite (forallb_In _ _ _ Hw Hin) in Hc. discriminate.
Qed.

Lemma not_in_open (c : ascii) (s : text) :
  forallb (fun d => negb (Ascii.eqb d c)) s = true -> In c s -> False.
Proof.
  intros Hs Hin. apply (forallb_In _ _ _ Hs) in Hin.
  now rewrite Ascii.eqb_refl in Hin.
Qed.

(** A declaration of the layout is read in one way: whatever run of the
    width pattern matches at it has read its format, its width and
    nothing behind it. *)
Lemma declaration_unique (F N w f g1 x y num rest : text) :
  open_line F = true -> open_line N = true ->
  forallb numchar w = true -> calm f = true ->
  forallb (atom_ok no_flags Dot) g1 = true ->
  forallb (atom_ok no_flags Dot) x = true ->
  forallb (atom_ok no_flags Dot) y = true ->
  forallb numchar num = true ->
  g1 ++ T "}" ++ x ++ T "p{" ++ y ++ T "\real{" ++ num ++ T "}}" ++ rest =
  F ++ T "}p{" ++ N ++ T "\real{" ++ w ++ T "}}" ++ f ->
  g1 = F /\ num = w /\ rest = f.
Proof.
  intros HF HN Hw Hf Hg1 Hx Hy Hnum E.
  rewrite dot_no_nl in Hg1, Hx, Hy.
  pose proof (open_line_no_close _ HF) as HF'.
  pose proof (open_line_no_close _ HN) as HN'.
  (* the format *)
  change (T "}" ++ x ++ T "p{" ++ y ++ T "\real{" ++ num ++ T "}}" ++ rest)
    with ("}"%char :: x ++ T "p{" ++ y ++ T "\real{" ++ num ++ T "}}" ++ rest)
    in E.
  change (T "}p{" ++ N ++ T "\real{" ++ w ++ T "}}" ++ f)
    with ("}"%char :: T "p{" ++ N ++ T "\real{" ++ w ++ T "}}" ++ f) in E.
  apply (split_at_first _ F HF') in E. destruct E as (g1' & -> & E).
  rewrite forallb_app in Hg1. apply andb_true_iff in Hg1.
  destruct Hg1 as [_ Hg1'].
  set (Zp := g1' ++ "}"%char :: x ++ T "p{" ++ y).
  set (Up := "}"%char :: T "p{" ++ N).
  assert (NoClose : forallb (fun d => negb (Ascii.eqb d "}"%char))
                            (T "p{" ++ N ++ T "\real{") = true).
  { rewrite !forallb_app, HN'. reflexivity. }
  assert (ZNl : forallb (fun c => negb (Ascii.eqb c nl)) (Zp ++ T "\real{") = true).
  { unfold Zp. rewrite !forallb_app. cbn [forallb]. rewrite !forallb_app.
    rewrite Hg1', Hx, Hy. reflexivity. }
  assert (E' : (Zp ++ T "\real{") ++ (num ++ T "}}" ++ rest) =
               (Up ++ T "\real{") ++ (w ++ T "}}" ++ f)).
  { unfold Zp, Up. rewrite <- !app_assoc. cbn [app] in *.
    rewrite <- !app_assoc. cbn [app]. exact E. }
  assert (Same : Zp ++ T "\real{" = Up ++ T "\real{" ->
                 num ++ T "}}" ++ rest = w ++ T "}}" ++ f ->
                 F ++ g1' = F /\ num = w /\ rest = f).
  { intros EZ EN. apply app_inv_tail in EZ. unfold Zp, Up in EZ.
    destruct (numrun_unique num w _ _ Hnum Hw EN) as [-> ER].
    inversion ER. split; [|auto].
    destruct g1' as [|c g'']; [apply app_nil_r|]. exfalso.
    cbn [app] in EZ. inversion EZ as [[Hc EZ']]. subst c.
    apply (not_in_open "}"%char (T "p{" ++ N)).
    - simpl. exact HN'.
    - change (T "p{" ++ N) with ("p"%char :: "{"%char :: N).
      rewrite <- EZ'. apply in_or_app. right. now left. }
  apply app_eq_app in E'. destruct E' as (m & [[E1 E2] | [E1 E2]]).
  - (* the match would run further than the declaration *)
    symmetry in E1. destruct (real_again Up Zp m E1) as [-> | Hin].
    + apply Same; [now rewrite app_nil_r in E1 | now symmetry].
    + exfalso.
      assert (Hm : forallb (fun c => negb (Ascii.eqb c nl)) m = true).
      { rewrite <- E1, forallb_app in ZNl. now apply andb_true_iff in ZNl. }
      change (w ++ T "}}" ++ f) with (w ++ (T "}}" ++ f)) in E2.
      rewrite app_assoc in E2.
      apply app_eq_app in E2. destruct E2 as (t & [[E3 E4] | [E3 E4]]).
      * (* w ++ }} = m ++ t *)
        assert (Hin' : In "\"%char (w ++ T "}}")).
        { rewrite E3. apply in_or_app. now left. }
        apply in_app_or in Hin'. destruct Hin' as [Hin' | Hin'].
        -- now apply (not_in_numerals "\"%char w).
        -- cbn in Hin'. intuition discriminate.
      * (* m = (w ++ }}) ++ t, f = t ++ ... *)
        rewrite E3 in Hin, Hm. rewrite forallb_app in Hm.
        apply andb_true_iff in Hm. destruct Hm as [_ Ht].
        apply in_app_or in Hin. destruct Hin as [Hin | Hin].
        -- apply in_app_or in Hin. destruct Hin as [Hin | Hin].
           ++ now apply (not_in_numerals "\"%char w).
           ++ cbn in Hin. intuition discriminate.
        -- unfold calm in Hf. rewrite E4, (line_head_app _ _ Ht) in Hf.
           rewrite forallb_app in Hf. apply andb_true_iff in Hf.
           destruct Hf as [Hf _]. now apply (not_in_open "\"%char t).
  - (* the match would end inside the declaration *)
    destruct m as [|c0 m0].
    + apply Same; [now rewrite app_nil_r in E1 | exact E2].
    + exfalso. set (m := c0 :: m0) in *.
      assert (Hlast : In "{"%char m).
      { assert (exists m1 c1, m = m1 ++ [c1]) as (m1 & c1 & Em).
        { exists (removelast m), (last m "{"%char).
          apply app_removelast_last. discriminate. }
        rewrite Em in E1 |- *.
        change (T "\real{") with (T "\real" ++ ["{"%char]) in E1 at 1.
        rewrite !app_assoc in E1. apply app_inj_tail in E1.
        destruct E1 as [_ <-]. apply in_or_app. right. now left. }
      assert (Hclose : forallb (fun d => negb (Ascii.eqb d "}"%char)) m = true).
      { unfold Up in E1. cbn [app] in E1.
        destruct (Zp ++ T "\real{") as [|z Z1] eqn:EZ.
        - unfold Zp in EZ. apply app_eq_nil in EZ. destruct EZ as [_ EZ].
          discriminate EZ.
        - cbn [app] in E1. injection E1 as _ E1'.
          replace (T "p{" ++ N ++ T "\real{") with (Z1 ++ m) in NoClose
            by (rewrite <- E1'; clear; now rewrite <- ?app_assoc).
          rewrite forallb_app in NoClose.
          now apply andb_true_iff in NoClose. }
      apply app_eq_app in E2. destruct E2 as (t & [[E3 E4] | [E3 E4]]).
      * (* num = m ++ t *)
        apply (not_in_numerals "{"%char num); [reflexivity | exact Hnum|].
        rewrite E3. apply in_or_app. now left.
      * (* m = num ++ t *)
        destruct t as [|c t].
        -- rewrite app_nil_r in E3. subst num.
           now apply (not_in_numerals "{"%char m).
        -- cbn [T list_ascii_of_string app] in E4. injection E4 as Hc _.
           apply (not_in_open "}"%char m Hclose).
           rewrite E3. apply in_or_app. right. left. now symmetry.
Qed.

(** At a declaration of the layout the width pattern matches the
    declaration, no more and no less, with its format and its width as
    the groups. *)
Lemma match_declaration (d : column) (prev : option ascii) (follow : text) :
  open_line (col_format d) = true -> open_line (col_factor d) = true ->
  is_numeral (col_width d) = true -> calm follow = true ->
  match_here no_flags width_re false prev (declaration d ++ follow) =
  Some {| group0 := declaration d;
          groups := [(2, col_width d); (1, col_format d)] |}.
Proof.
  intros HF HN Hw Hf.
  pose proof (declaration_lang d HF HN Hw) as L.
  destruct (match_here no_flags width_re false prev (declaration d ++ follow))
    as [m|] eqn:E.
  - destruct (width_parse _ _ _ _ E)
      as (g1 & x & y & num & rest & Es & Hg1 & Hx & Hy & Hnum & ->).
    pose proof (numeral_chars _ Hnum) as [Cn _].
    pose proof (numeral_chars _ (is_numeral_lang _ Hw)) as [Cw _].
    assert (U : g1 = col_format d /\ num = col_width d /\ rest = follow).
    { apply (declaration_unique (col_format d) (col_factor d) (col_width d)
               follow g1 x y num rest HF HN Cw Hf Hg1 Hx Hy Cn).
      unfold declaration in Es. rewrite <- !app_assoc in Es.
      cbn [T list_ascii_of_string app] in Es |- *.
      injection Es as Es. symmetry. exact Es. }
    destruct U as (-> & -> & ->). f_equal. f_equal.
    apply (app_inv_tail follow). rewrite Es, <- !app_assoc. reflexivity.
  - exfalso. revert E. unfold match_here.
    apply (exec_complete no_flags rmatch width_re eq_refl _ _ _ L).
    intros p cs. discriminate.
Qed.

(** The width pattern matches at a greater-than sign only. *)
Lemma match_needs_gt (adv : bool) (prev : option ascii) (c : ascii) (s : text) :
  Ascii.eqb c ">"%char = false ->
  match_here no_flags width_re adv prev (c :: s) = None.
Proof.
  intros Hc. destruct (match_here no_flags width_re adv prev (c :: s))
    as [m|] eqn:E; [|reflexivity].
  destruct (width_parse _ _ _ _ E) as (g1 & x & y & num & rest & Es & _).
  cbn [T list_ascii_of_string app] in Es. injection Es as -> _.
  discriminate Hc.
Qed.

Lemma match_nothing (adv : bool) (prev : option ascii) :
  match_here no_flags width_re adv prev [] = None.
Proof.
  destruct (match_here no_flags width_re adv prev []) as [m|] eqn:E;
    [|reflexivity].
  destruct (width_parse _ _ _ _ E) as (g1 & x & y & num & rest & Es & _).
  discriminate Es.
Qed.

(** The scan passes a text without greater-than sign and finds nothing
    in it. *)
Lemma scan_passes (b : text) :
  no_gt b = true ->
  forall prev s,
    hits (scan no_flags width_re prev (b ++ s) 0) =
    hits (scan no_flags width_re (prev_after prev b) s 0).
Proof.
  unfold no_gt. induction b as [|c b IH]; intros Hb prev s; [reflexivity|].
  cbn [forallb] in Hb. apply andb_true_iff in Hb. destruct Hb as [Hc Hb].
  apply negb_true_iff in Hc.
  cbn [app scan]. rewrite (match_needs_gt _ _ _ _ Hc). cbn [hits].
  apply (IH Hb).
Qed.

Lemma scan_finds_nothing (b : text) :
  no_gt b = true ->
  forall prev, hits (scan no_flags width_re prev b 0) = [].
Proof.
  intros Hb prev. rewrite <- (app_nil_r b), (scan_passes b Hb).
  cbn [scan]. now rewrite match_nothing.
Qed.


Lemma declaration_nonempty (d : column) : declaration d <> [].
Proof. discriminate. Qed.

(** The scan of a header region of the layout finds its declarations, in
    order, and nothing else. *)
Lemma scan_layout (ds : list column) (post : text) :
  well_laid ds post = true ->
  forall prev,
    hits (scan no_flags width_re prev (layout ds post) 0) = map read_as ds.
Proof.
  induction ds as [|d ds IH]; intros W prev.
  - now apply scan_finds_nothing.
  - cbn [well_laid] in W. repeat (apply andb_true_iff in W; destruct W as [W ?]).
    cbn [layout map]. rewrite scan_passes by assumption.
    rewrite scan_step.
    + rewrite match_declaration by assumption.
      cbn [group0 hits]. rewrite skipn_prefix. f_equal. now apply IH.
    + intros m. rewrite match_declaration by assumption.
      intros E. injection E as <-. apply declaration_nonempty.
Qed.

Lemma column_of_read (d : column) :
  column_of (read_as d) =
  (w <- float_of_text (col_width d) ;; Ok (w, Some (col_format d))).
Proof. reflexivity. Qed.

Lemma columns_of_layout (ds : list column) (xs : list float) :
  mapM float_of_text (map col_width ds) = Ok xs ->
  mapM column_of (map read_as ds) =
  Ok (combine xs (map (fun d => Some (col_format d)) ds)).
Proof.
  revert xs. induction ds as [|d ds IH]; intros xs H; cbn [map mapM] in *.
  - inversion H. reflexivity.
  - rewrite column_of_read.
    destruct (float_of_text (col_width d)) as [x|e]; [|discriminate].
    cbn [bind] in *.
    destruct (mapM float_of_text (map col_width ds)) as [xs'|e]; [|discriminate].
    cbn [bind] in H. inversion H; subst xs.
    rewrite (IH xs' eq_refl). reflexivity.
Qed.

Lemma widths_of_layout (ds : list column) (post : text) :
  well_laid ds post = true ->
  exists xs, mapM float_of_text (map col_width ds) = Ok xs /\
             length xs = length ds.
Proof.
  induction ds as [|d ds IH]; intros W; [now exists []|].
  cbn [well_laid] in W. repeat (apply andb_true_iff in W; destruct W as [W ?]).
  destruct (IH H) as (xs & E & L).
  destruct (float_of_numeral (col_width d)) as [x Ex];
    [now apply is_numeral_lang|].
  exists (x :: xs). cbn [map mapM length]. rewrite Ex, E. cbn [bind].
  split; [reflexivity | now rewrite L].
Qed.

Lemma combine_fst {A B : Type} (xs : list A) (ys : list B) :
  length xs = length ys -> map fst (combine xs ys) = xs.
Proof.
  revert ys. induction xs as [|x xs IH]; intros [|y ys] L;
    try discriminate; [reflexivity|].
  cbn [combine map fst]. f_equal. apply IH. now injection L.
Qed.

Lemma combine_snd {A B : Type} (xs : list A) (ys : list B) :
  length xs = length ys -> map snd (combine xs ys) = ys.
Proof.
  revert ys. induction xs as [|x xs IH]; intros [|y ys] L;
    try discriminate; [reflexivity|].
  cbn [combine map snd]. f_equal. apply IH. now injection L.
Qed.

(** X26. A header region laid out the way pandoc prints it is read
    exactly. When the text before the header-end marker is a run of column
    declarations, each of the form [>{F}p{N\real{w}}] with [F] and [N] free
    of closing brace and newline and [w] a decimal numeral, with no
    greater-than sign between the declarations and no backslash behind a
    declaration on its line, then every width is accepted by [float], and
    [getColumnSizes], without scaling and without column ratios, returns
    these widths and the formats [F], one for each declaration, in
    order. *)
Theorem layout_is_read (output : text) (d : column) (ds : list column)
    (post : text) (margin : number) :
  occurs endhead output = true ->
  header_region output = layout (d :: ds) post ->
  well_laid (d :: ds) post = true ->
  exists xs,
    mapM float_of_text (map col_width (d :: ds)) = Ok xs /\
    declared_columns output =
    Ok (combine xs (map (fun c => Some (col_format c)) (d :: ds))) /\
    getColumnSizes output false margin None =
    Ok (xs, map (fun c => Some (col_format c)) (d :: ds)).
Proof.
  intros Hhead Hlay W.
  destruct (widths_of_layout (d :: ds) post W) as (xs & Ex & L).
  exists xs. split; [exact Ex|].
  assert (D : declared_columns output =
              Ok (combine xs (map (fun c => Some (col_format c)) (d :: ds)))).
  { unfold declared_columns, finditer, pieces.
    rewrite Hlay, scan_layout by exact W.
    apply (columns_of_layout (d :: ds) xs Ex). }
  split; [exact D|].
  rewrite getColumnSizes_header, D by exact Hhead. cbn [bind].
  destruct xs as [|x xs]; [discriminate|].
  cbn [length] in L. injection L as L.
  cbn [map combine truthy orb bind fst snd].
  rewrite combine_fst, combine_snd by now rewrite length_map.
  reflexivity.
Qed.

Lemma layout_is_read_witness :
  occurs endhead table_3 = true /\
  header_region table_3 = layout columns_3 header_rest /\
  well_laid columns_3 header_rest = true /\
  exists xs,
    mapM float_of_text (map col_width columns_3) = Ok xs /\
    declared_columns table_3 =
    Ok (combine xs (map (fun c => Some (col_format c)) columns_3)) /\
    getColumnSizes table_3 false (Int 0) None =
    Ok (xs, map (fun c => Some (col_format c)) columns_3).
Proof.
  assert (H1 : occurs endhead table_3 = true) by (vm_compute; reflexivity).
  assert (H2 : header_region table_3 = layout columns_3 header_rest)
    by (vm_compute; reflexivity).
  assert (H3 : well_laid columns_3 header_rest = true)
    by (vm_compute; reflexivity).
  split; [exact H1|]. split; [exact H2|]. split; [exact H3|].
  exact (layout_is_read table_3 _ _ header_rest (Int 0) H1 H2 H3).
Defined.
